(** * Inventory tracker: CSV consolidation and periodic reconciliation

    A shallow embedding of the CSV tokenizer and record parser
    ([components/DataConsolidation.tsx], the periodic-update component),
    of the consolidation merge ([handleConsolidate]) and of the two bulk
    routes of [inventario-api/server.js] ([POST /api/equipment/import] and
    [POST /api/equipment/periodic-update]), followed by the properties of
    the specification that concern them.

    JavaScript strings are sequences of UTF-16 code units; they are
    modelled as lists of code units ([N]).  JavaScript objects and [Map]s
    keep their keys in insertion order, which the code observes
    ([Object.keys], [Map.values]); they are modelled as association
    lists updated in place. *)

From Stdlib Require Import List NArith ZArith Bool String Ascii DecimalString Lia.
Import ListNotations.

(** ** JavaScript strings *)

Module JS.

Definition str := list N.

(** Literals are written as Rocq strings, whose bytes are the UTF-8
    encoding of the text; [lit] decodes them into code units (one-,
    two- and three-byte sequences, which covers every literal of the
    program). *)
Fixpoint decode (bs : list N) : str :=
  match bs with
  | [] => []
  | b :: r =>
      if (b <? 128)%N then b :: decode r
      else if (b <? 224)%N then
        match r with
        | c :: r' => ((b - 192) * 64 + (c - 128))%N :: decode r'
        | [] => [b]
        end
      else
        match r with
        | c :: d :: r' =>
            ((b - 224) * 4096 + (c - 128) * 64 + (d - 128))%N :: decode r'
        | _ => [b]
        end
  end.

Definition lit (s : string) : str :=
  decode (map N_of_ascii (list_ascii_of_string s)).

Definition str_eqb (a b : str) : bool :=
  if list_eq_dec N.eq_dec a b then true else false.

(** Code units of the characters the program names. *)
Definition quote : N := 34.   (* double quote *)
Definition comma : N := 44.
Definition space : N := 32.
Definition slash : N := 47.
Definition LF : N := 10.
Definition CR : N := 13.

(** [WhiteSpace] and [LineTerminator] of ECMAScript: what
    [String.prototype.trim] strips and what [\s] matches. *)
Definition isWhiteSpace (c : N) : bool :=
  ((9 <=? c) && (c <=? 13) || (c =? 32) || (c =? 160) || (c =? 5760)
   || (8192 <=? c) && (c <=? 8202) || (c =? 8232) || (c =? 8233)
   || (c =? 8239) || (c =? 8287) || (c =? 12288) || (c =? 65279))%N.

Fixpoint trimStart (s : str) : str :=
  match s with
  | [] => []
  | c :: r => if isWhiteSpace c then trimStart r else s
  end.

Definition trimEnd (s : str) : str := rev (trimStart (rev s)).

(** [s.trim()] *)
Definition trim (s : str) : str := trimEnd (trimStart s).

(** *** Code points

    [toUpperCase] reads the string as a sequence of code points: a high
    surrogate directly followed by a low surrogate is one code point,
    any other code unit stands for itself. *)
Definition isHighSurrogate (c : N) : bool :=
  ((0xD800 <=? c) && (c <=? 0xDBFF))%N.
Definition isLowSurrogate (c : N) : bool :=
  ((0xDC00 <=? c) && (c <=? 0xDFFF))%N.
Definition isSurrogate (c : N) : bool :=
  isHighSurrogate c || isLowSurrogate c.

(** [StringToCodePoints] *)
Fixpoint codePoints (s : str) : list N :=
  match s with
  | [] => []
  | c :: r =>
      match r with
      | d :: r' =>
          if isHighSurrogate c && isLowSurrogate d
          then (0x10000 + (c - 0xD800) * 0x400 + (d - 0xDC00))%N
               :: codePoints r'
          else c :: codePoints r
      | [] => [c]
      end
  end.

(** [UTF16EncodeCodePoint] *)
Definition codeUnitsOf (cp : N) : str :=
  (if (0x10000 <=? cp) && (cp <=? 0x10FFFF)
   then [0xD800 + (cp - 0x10000) / 0x400; 0xDC00 + (cp - 0x10000) mod 0x400]
   else [cp])%N.

(** [CodePointsToString] *)
Definition codeUnits (cps : list N) : str := flat_map codeUnitsOf cps.

(** [s.isWellFormed()]: no surrogate stands alone.  The text read from
    a file ([File.text()]) is well formed. *)
Definition isWellFormed (s : str) : bool :=
  forallb (fun c => negb (isSurrogate c)) (codePoints s).

(** *** Upper case

    [toUpperCase] maps every code point by the locale-insensitive case
    mappings of the Unicode Character Database: the upper-case mapping
    of UnicodeData.txt, unless SpecialCasing.txt maps the code point,
    without condition, to several code points.  The tables below are
    those of Unicode 14.0.  The mappings of UnicodeData.txt are listed
    by runs: the code points [runFirst], [runFirst + runStep], ...,
    [runLast] have the upper-case forms [runImage],
    [runImage + runStep], ... *)
Record CaseRun : Type := Run {
  runFirst : N;
  runLast : N;
  runStep : N;
  runImage : N
}.

Definition upperRuns : list CaseRun :=
  [
    Run 0x61 0x7A 1 0x41; Run 0xB5 0xB5 1 0x39C; Run 0xE0 0xF6 1 0xC0;
    Run 0xF8 0xFE 1 0xD8; Run 0xFF 0xFF 1 0x178; Run 0x101 0x12F 2 0x100;
    Run 0x131 0x131 1 0x49; Run 0x133 0x137 2 0x132;
    Run 0x13A 0x148 2 0x139; Run 0x14B 0x177 2 0x14A;
    Run 0x17A 0x17E 2 0x179; Run 0x17F 0x17F 1 0x53;
    Run 0x180 0x180 1 0x243; Run 0x183 0x185 2 0x182;
    Run 0x188 0x188 1 0x187; Run 0x18C 0x18C 1 0x18B;
    Run 0x192 0x192 1 0x191; Run 0x195 0x195 1 0x1F6;
    Run 0x199 0x199 1 0x198; Run 0x19A 0x19A 1 0x23D;
    Run 0x19E 0x19E 1 0x220; Run 0x1A1 0x1A5 2 0x1A0;
    Run 0x1A8 0x1A8 1 0x1A7; Run 0x1AD 0x1AD 1 0x1AC;
    Run 0x1B0 0x1B0 1 0x1AF; Run 0x1B4 0x1B6 2 0x1B3;
    Run 0x1B9 0x1B9 1 0x1B8; Run 0x1BD 0x1BD 1 0x1BC;
    Run 0x1BF 0x1BF 1 0x1F7; Run 0x1C5 0x1C5 1 0x1C4;
    Run 0x1C6 0x1C6 1 0x1C4; Run 0x1C8 0x1C8 1 0x1C7;
    Run 0x1C9 0x1C9 1 0x1C7; Run 0x1CB 0x1CB 1 0x1CA;
    Run 0x1CC 0x1CC 1 0x1CA; Run 0x1CE 0x1DC 2 0x1CD;
    Run 0x1DD 0x1DD 1 0x18E; Run 0x1DF 0x1EF 2 0x1DE;
    Run 0x1F2 0x1F2 1 0x1F1; Run 0x1F3 0x1F3 1 0x1F1;
    Run 0x1F5 0x1F5 1 0x1F4; Run 0x1F9 0x21F 2 0x1F8;
    Run 0x223 0x233 2 0x222; Run 0x23C 0x23C 1 0x23B;
    Run 0x23F 0x240 1 0x2C7E; Run 0x242 0x242 1 0x241;
    Run 0x247 0x24F 2 0x246; Run 0x250 0x250 1 0x2C6F;
    Run 0x251 0x251 1 0x2C6D; Run 0x252 0x252 1 0x2C70;
    Run 0x253 0x253 1 0x181; Run 0x254 0x254 1 0x186;
    Run 0x256 0x257 1 0x189; Run 0x259 0x259 1 0x18F;
    Run 0x25B 0x25B 1 0x190; Run 0x25C 0x25C 1 0xA7AB;
    Run 0x260 0x260 1 0x193; Run 0x261 0x261 1 0xA7AC;
    Run 0x263 0x263 1 0x194; Run 0x265 0x265 1 0xA78D;
    Run 0x266 0x266 1 0xA7AA; Run 0x268 0x268 1 0x197;
    Run 0x269 0x269 1 0x196; Run 0x26A 0x26A 1 0xA7AE;
    Run 0x26B 0x26B 1 0x2C62; Run 0x26C 0x26C 1 0xA7AD;
    Run 0x26F 0x26F 1 0x19C; Run 0x271 0x271 1 0x2C6E;
    Run 0x272 0x272 1 0x19D; Run 0x275 0x275 1 0x19F;
    Run 0x27D 0x27D 1 0x2C64; Run 0x280 0x280 1 0x1A6;
    Run 0x282 0x282 1 0xA7C5; Run 0x283 0x283 1 0x1A9;
    Run 0x287 0x287 1 0xA7B1; Run 0x288 0x288 1 0x1AE;
    Run 0x289 0x289 1 0x244; Run 0x28A 0x28B 1 0x1B1;
    Run 0x28C 0x28C 1 0x245; Run 0x292 0x292 1 0x1B7;
    Run 0x29D 0x29D 1 0xA7B2; Run 0x29E 0x29E 1 0xA7B0;
    Run 0x345 0x345 1 0x399; Run 0x371 0x373 2 0x370;
    Run 0x377 0x377 1 0x376; Run 0x37B 0x37D 1 0x3FD;
    Run 0x3AC 0x3AC 1 0x386; Run 0x3AD 0x3AF 1 0x388;
    Run 0x3B1 0x3C1 1 0x391; Run 0x3C2 0x3C2 1 0x3A3;
    Run 0x3C3 0x3CB 1 0x3A3; Run 0x3CC 0x3CC 1 0x38C;
    Run 0x3CD 0x3CE 1 0x38E; Run 0x3D0 0x3D0 1 0x392;
    Run 0x3D1 0x3D1 1 0x398; Run 0x3D5 0x3D5 1 0x3A6;
    Run 0x3D6 0x3D6 1 0x3A0; Run 0x3D7 0x3D7 1 0x3CF;
    Run 0x3D9 0x3EF 2 0x3D8; Run 0x3F0 0x3F0 1 0x39A;
    Run 0x3F1 0x3F1 1 0x3A1; Run 0x3F2 0x3F2 1 0x3F9;
    Run 0x3F3 0x3F3 1 0x37F; Run 0x3F5 0x3F5 1 0x395;
    Run 0x3F8 0x3F8 1 0x3F7; Run 0x3FB 0x3FB 1 0x3FA;
    Run 0x430 0x44F 1 0x410; Run 0x450 0x45F 1 0x400;
    Run 0x461 0x481 2 0x460; Run 0x48B 0x4BF 2 0x48A;
    Run 0x4C2 0x4CE 2 0x4C1; Run 0x4CF 0x4CF 1 0x4C0;
    Run 0x4D1 0x52F 2 0x4D0; Run 0x561 0x586 1 0x531;
    Run 0x10D0 0x10FA 1 0x1C90; Run 0x10FD 0x10FF 1 0x1CBD;
    Run 0x13F8 0x13FD 1 0x13F0; Run 0x1C80 0x1C80 1 0x412;
    Run 0x1C81 0x1C81 1 0x414; Run 0x1C82 0x1C82 1 0x41E;
    Run 0x1C83 0x1C84 1 0x421; Run 0x1C85 0x1C85 1 0x422;
    Run 0x1C86 0x1C86 1 0x42A; Run 0x1C87 0x1C87 1 0x462;
    Run 0x1C88 0x1C88 1 0xA64A; Run 0x1D79 0x1D79 1 0xA77D;
    Run 0x1D7D 0x1D7D 1 0x2C63; Run 0x1D8E 0x1D8E 1 0xA7C6;
    Run 0x1E01 0x1E95 2 0x1E00; Run 0x1E9B 0x1E9B 1 0x1E60;
    Run 0x1EA1 0x1EFF 2 0x1EA0; Run 0x1F00 0x1F07 1 0x1F08;
    Run 0x1F10 0x1F15 1 0x1F18; Run 0x1F20 0x1F27 1 0x1F28;
    Run 0x1F30 0x1F37 1 0x1F38; Run 0x1F40 0x1F45 1 0x1F48;
    Run 0x1F51 0x1F57 2 0x1F59; Run 0x1F60 0x1F67 1 0x1F68;
    Run 0x1F70 0x1F71 1 0x1FBA; Run 0x1F72 0x1F75 1 0x1FC8;
    Run 0x1F76 0x1F77 1 0x1FDA; Run 0x1F78 0x1F79 1 0x1FF8;
    Run 0x1F7A 0x1F7B 1 0x1FEA; Run 0x1F7C 0x1F7D 1 0x1FFA;
    Run 0x1FB0 0x1FB1 1 0x1FB8; Run 0x1FBE 0x1FBE 1 0x399;
    Run 0x1FD0 0x1FD1 1 0x1FD8; Run 0x1FE0 0x1FE1 1 0x1FE8;
    Run 0x1FE5 0x1FE5 1 0x1FEC; Run 0x214E 0x214E 1 0x2132;
    Run 0x2170 0x217F 1 0x2160; Run 0x2184 0x2184 1 0x2183;
    Run 0x24D0 0x24E9 1 0x24B6; Run 0x2C30 0x2C5F 1 0x2C00;
    Run 0x2C61 0x2C61 1 0x2C60; Run 0x2C65 0x2C65 1 0x23A;
    Run 0x2C66 0x2C66 1 0x23E; Run 0x2C68 0x2C6C 2 0x2C67;
    Run 0x2C73 0x2C73 1 0x2C72; Run 0x2C76 0x2C76 1 0x2C75;
    Run 0x2C81 0x2CE3 2 0x2C80; Run 0x2CEC 0x2CEE 2 0x2CEB;
    Run 0x2CF3 0x2CF3 1 0x2CF2; Run 0x2D00 0x2D25 1 0x10A0;
    Run 0x2D27 0x2D27 1 0x10C7; Run 0x2D2D 0x2D2D 1 0x10CD;
    Run 0xA641 0xA66D 2 0xA640; Run 0xA681 0xA69B 2 0xA680;
    Run 0xA723 0xA72F 2 0xA722; Run 0xA733 0xA76F 2 0xA732;
    Run 0xA77A 0xA77C 2 0xA779; Run 0xA77F 0xA787 2 0xA77E;
    Run 0xA78C 0xA78C 1 0xA78B; Run 0xA791 0xA793 2 0xA790;
    Run 0xA794 0xA794 1 0xA7C4; Run 0xA797 0xA7A9 2 0xA796;
    Run 0xA7B5 0xA7C3 2 0xA7B4; Run 0xA7C8 0xA7CA 2 0xA7C7;
    Run 0xA7D1 0xA7D1 1 0xA7D0; Run 0xA7D7 0xA7D9 2 0xA7D6;
    Run 0xA7F6 0xA7F6 1 0xA7F5; Run 0xAB53 0xAB53 1 0xA7B3;
    Run 0xAB70 0xABBF 1 0x13A0; Run 0xFF41 0xFF5A 1 0xFF21;
    Run 0x10428 0x1044F 1 0x10400; Run 0x104D8 0x104FB 1 0x104B0;
    Run 0x10597 0x105BB 2 0x10570; Run 0x10598 0x105A0 2 0x10571;
    Run 0x105A4 0x105B0 2 0x1057D; Run 0x105B4 0x105B8 2 0x1058D;
    Run 0x105BC 0x105BC 1 0x10595; Run 0x10CC0 0x10CF2 1 0x10C80;
    Run 0x118C0 0x118DF 1 0x118A0; Run 0x16E60 0x16E7F 1 0x16E40;
    Run 0x1E922 0x1E943 1 0x1E900
  ]%N.

Definition specialCasing : list (N * list N) :=
  [
    (0xDF, [0x53; 0x53]); (0x149, [0x2BC; 0x4E]); (0x1F0, [0x4A; 0x30C]);
    (0x390, [0x399; 0x308; 0x301]); (0x3B0, [0x3A5; 0x308; 0x301]);
    (0x587, [0x535; 0x552]); (0x1E96, [0x48; 0x331]);
    (0x1E97, [0x54; 0x308]); (0x1E98, [0x57; 0x30A]);
    (0x1E99, [0x59; 0x30A]); (0x1E9A, [0x41; 0x2BE]);
    (0x1F50, [0x3A5; 0x313]); (0x1F52, [0x3A5; 0x313; 0x300]);
    (0x1F54, [0x3A5; 0x313; 0x301]); (0x1F56, [0x3A5; 0x313; 0x342]);
    (0x1F80, [0x1F08; 0x399]); (0x1F81, [0x1F09; 0x399]);
    (0x1F82, [0x1F0A; 0x399]); (0x1F83, [0x1F0B; 0x399]);
    (0x1F84, [0x1F0C; 0x399]); (0x1F85, [0x1F0D; 0x399]);
    (0x1F86, [0x1F0E; 0x399]); (0x1F87, [0x1F0F; 0x399]);
    (0x1F88, [0x1F08; 0x399]); (0x1F89, [0x1F09; 0x399]);
    (0x1F8A, [0x1F0A; 0x399]); (0x1F8B, [0x1F0B; 0x399]);
    (0x1F8C, [0x1F0C; 0x399]); (0x1F8D, [0x1F0D; 0x399]);
    (0x1F8E, [0x1F0E; 0x399]); (0x1F8F, [0x1F0F; 0x399]);
    (0x1F90, [0x1F28; 0x399]); (0x1F91, [0x1F29; 0x399]);
    (0x1F92, [0x1F2A; 0x399]); (0x1F93, [0x1F2B; 0x399]);
    (0x1F94, [0x1F2C; 0x399]); (0x1F95, [0x1F2D; 0x399]);
    (0x1F96, [0x1F2E; 0x399]); (0x1F97, [0x1F2F; 0x399]);
    (0x1F98, [0x1F28; 0x399]); (0x1F99, [0x1F29; 0x399]);
    (0x1F9A, [0x1F2A; 0x399]); (0x1F9B, [0x1F2B; 0x399]);
    (0x1F9C, [0x1F2C; 0x399]); (0x1F9D, [0x1F2D; 0x399]);
    (0x1F9E, [0x1F2E; 0x399]); (0x1F9F, [0x1F2F; 0x399]);
    (0x1FA0, [0x1F68; 0x399]); (0x1FA1, [0x1F69; 0x399]);
    (0x1FA2, [0x1F6A; 0x399]); (0x1FA3, [0x1F6B; 0x399]);
    (0x1FA4, [0x1F6C; 0x399]); (0x1FA5, [0x1F6D; 0x399]);
    (0x1FA6, [0x1F6E; 0x399]); (0x1FA7, [0x1F6F; 0x399]);
    (0x1FA8, [0x1F68; 0x399]); (0x1FA9, [0x1F69; 0x399]);
    (0x1FAA, [0x1F6A; 0x399]); (0x1FAB, [0x1F6B; 0x399]);
    (0x1FAC, [0x1F6C; 0x399]); (0x1FAD, [0x1F6D; 0x399]);
    (0x1FAE, [0x1F6E; 0x399]); (0x1FAF, [0x1F6F; 0x399]);
    (0x1FB2, [0x1FBA; 0x399]); (0x1FB3, [0x391; 0x399]);
    (0x1FB4, [0x386; 0x399]); (0x1FB6, [0x391; 0x342]);
    (0x1FB7, [0x391; 0x342; 0x399]); (0x1FBC, [0x391; 0x399]);
    (0x1FC2, [0x1FCA; 0x399]); (0x1FC3, [0x397; 0x399]);
    (0x1FC4, [0x389; 0x399]); (0x1FC6, [0x397; 0x342]);
    (0x1FC7, [0x397; 0x342; 0x399]); (0x1FCC, [0x397; 0x399]);
    (0x1FD2, [0x399; 0x308; 0x300]); (0x1FD3, [0x399; 0x308; 0x301]);
    (0x1FD6, [0x399; 0x342]); (0x1FD7, [0x399; 0x308; 0x342]);
    (0x1FE2, [0x3A5; 0x308; 0x300]); (0x1FE3, [0x3A5; 0x308; 0x301]);
    (0x1FE4, [0x3A1; 0x313]); (0x1FE6, [0x3A5; 0x342]);
    (0x1FE7, [0x3A5; 0x308; 0x342]); (0x1FF2, [0x1FFA; 0x399]);
    (0x1FF3, [0x3A9; 0x399]); (0x1FF4, [0x38F; 0x399]);
    (0x1FF6, [0x3A9; 0x342]); (0x1FF7, [0x3A9; 0x342; 0x399]);
    (0x1FFC, [0x3A9; 0x399]); (0xFB00, [0x46; 0x46]);
    (0xFB01, [0x46; 0x49]); (0xFB02, [0x46; 0x4C]);
    (0xFB03, [0x46; 0x46; 0x49]); (0xFB04, [0x46; 0x46; 0x4C]);
    (0xFB05, [0x53; 0x54]); (0xFB06, [0x53; 0x54]);
    (0xFB13, [0x544; 0x546]); (0xFB14, [0x544; 0x535]);
    (0xFB15, [0x544; 0x53B]); (0xFB16, [0x54E; 0x546]);
    (0xFB17, [0x544; 0x53D])
  ]%N.

Fixpoint simpleUpper (runs : list CaseRun) (c : N) : option N :=
  match runs with
  | [] => None
  | r :: rest =>
      if ((runFirst r <=? c) && (c <=? runLast r)
          && ((c - runFirst r) mod runStep r =? 0))%N
      then Some (runImage r + (c - runFirst r))%N
      else simpleUpper rest c
  end.

Fixpoint specialUpper (table : list (N * list N)) (c : N)
  : option (list N) :=
  match table with
  | [] => None
  | (c', u) :: rest => if (c =? c')%N then Some u else specialUpper rest c
  end.

(** The upper-case form of one code point. *)
Definition upperCodePoint (c : N) : list N :=
  match specialUpper specialCasing c with
  | Some u => u
  | None =>
      match simpleUpper upperRuns c with
      | Some u => [u]
      | None => [c]
      end
  end.

Arguments upperCodePoint : simpl never.

(** [s.toUpperCase()] *)
Definition toUpperCase (s : str) : str :=
  codeUnits (flat_map upperCodePoint (codePoints s)).

(** [s.replace(/ /g, '')] *)
Definition removeSpaces (s : str) : str :=
  filter (fun c => negb (c =? space)%N) s.

(** [s.replace(/[\s/]+/g, '')] *)
Definition removeSpacesAndSlashes (s : str) : str :=
  filter (fun c => negb (isWhiteSpace c || (c =? slash)%N)) s.

(** [s.replace(re, '')] for the global regular expression [re] with
    the two alternatives: a double quote at the start, a double quote at
    the end.  The first alternative can only match at index 0; the
    search then resumes behind that match, where the second alternative
    matches a quote that ends the string. *)
Definition stripLeadingQuote (s : str) : str :=
  match s with
  | c :: r => if (c =? quote)%N then r else s
  | [] => []
  end.

Definition stripTrailingQuote (s : str) : str :=
  rev (stripLeadingQuote (rev s)).

Definition stripQuotes (s : str) : str :=
  stripTrailingQuote (stripLeadingQuote s).

(** [s.endsWith] of a comma *)
Definition endsWithComma (s : str) : bool :=
  match rev s with
  | c :: _ => (c =? comma)%N
  | [] => false
  end.

(** [s.slice(0, -1)] *)
Definition dropLast (s : str) : str := removelast s.

(** [s.split(/\r\n|\n/)]: the pieces between line breaks; a carriage
    return that is not followed by a line feed stays in its piece. *)
Fixpoint splitLinesFrom (current : str) (s : str) : list str :=
  match s with
  | [] => [current]
  | c :: r =>
      if (c =? LF)%N then current :: splitLinesFrom [] r
      else if (c =? CR)%N then
        match r with
        | d :: r' =>
            if (d =? LF)%N then current :: splitLinesFrom [] r'
            else splitLinesFrom (current ++ [c]) r
        | [] => splitLinesFrom (current ++ [c]) r
        end
      else splitLinesFrom (current ++ [c]) r
  end.

Definition splitLines (s : str) : list str := splitLinesFrom [] s.

End JS.

Import JS.

(** ** CSV line tokenizer: [splitCsvLine]

    The three components carry the same function, character for
    character. *)

Module Csv.

(** [current.trim()] with one leading and one trailing double quote
    removed: the field that is pushed. *)
Definition field (current : str) : str := stripQuotes (trim current).

(** The [for] loop over the code units of [line], with the three
    mutable locals [result], [current] and [inQuote], and the final
    [result.push]. *)
Fixpoint splitLoop (line : str) (result : list str) (current : str)
         (inQuote : bool) : list str :=
  match line with
  | [] => result ++ [field current]
  | char :: rest =>
      if (char =? quote)%N then
        splitLoop rest result current (negb inQuote)
      else if (char =? comma)%N && negb inQuote then
        splitLoop rest (result ++ [field current]) [] inQuote
      else
        splitLoop rest result (current ++ [char]) inQuote
  end.

Definition splitCsvLine (line : str) : list str :=
  splitLoop line [] [] false.

End Csv.

Import Csv.

(** ** Objects, maps and results *)

(** What a call produces: a value, or the exception it throws. *)
Inductive result (A : Type) : Type :=
| Ok (a : A)
| Throw (message : string).

Arguments Ok {A} a.
Arguments Throw {A} message.

Definition bind {A B : Type} (r : result A) (k : A -> result B) : result B :=
  match r with
  | Ok a => k a
  | Throw m => Throw m
  end.

Notation "x <- r ;; k" := (bind r (fun x => k))
  (at level 61, r at next level, right associativity).

Module Assoc.

Section WithKey.
Context {K V : Type} (eqb : K -> K -> bool).

(** [o[k]]; [None] stands for [undefined]. *)
Fixpoint get (o : list (K * V)) (k : K) : option V :=
  match o with
  | [] => None
  | (k', v) :: r => if eqb k k' then Some v else get r k
  end.

(** [o[k] = v] and [map.set(k, v)]: an existing key keeps its place,
    a new key goes to the end. *)
Fixpoint set (o : list (K * V)) (k : K) (v : V) : list (K * V) :=
  match o with
  | [] => [(k, v)]
  | (k', v') :: r =>
      if eqb k k' then (k', v) :: r else (k', v') :: set r k v
  end.

(** [{ ...a, ...b }] *)
Definition spread (a b : list (K * V)) : list (K * V) :=
  fold_left (fun o kv => set o (fst kv) (snd kv)) b a.

(** [Object.keys(o)] and [Array.from(map.values())] *)
Definition keys (o : list (K * V)) : list K := map fst o.
Definition values (o : list (K * V)) : list V := map snd o.
End WithKey.

End Assoc.

(** ** Record parser: [parseCsv] and [parseAbsoluteCsv] *)

Module Parser.

(** [Partial<Equipment>] as the front end builds it: field name to
    string, in assignment order. *)
Definition PartialEquipment := list (string * str).

Definition field_get (e : PartialEquipment) (k : string) : option str :=
  Assoc.get String.eqb e k.
Definition field_set (e : PartialEquipment) (k : string) (v : str)
  : PartialEquipment :=
  Assoc.set String.eqb e k v.

(** The column tables map a header cell to a field name. *)
Definition Mappings := list (str * string).

(** [mappings[k]]; the keys probed are upper-cased header cells, which
    never name a property inherited from [Object.prototype]. *)
Definition mapping_get (m : Mappings) (k : str) : option string :=
  Assoc.get str_eqb m k.

Definition isEmpty (s : str) : bool :=
  match s with [] => true | _ => false end.

(** [a || b] on field names: the empty name is falsy. *)
Definition orName (a b : option string) : option string :=
  match a with
  | Some EmptyString | None => b
  | Some _ => a
  end.

Definition truthyName (a : option string) : option string :=
  orName a None.

Definition missingRows : string :=
  "O arquivo CSV deve conter um cabeçalho e pelo menos uma linha de dados.".

(** [header.forEach((colName, index) => ...)] for one row. *)
Fixpoint fillEntry (mappings : Mappings) (values : list str)
         (header : list str) (index : nat) (entry : PartialEquipment)
  : PartialEquipment :=
  match header with
  | [] => entry
  | colName :: rest =>
      let normalizedColName := toUpperCase (removeSpacesAndSlashes colName) in
      let mappedKey :=
        orName (mapping_get mappings normalizedColName)
               (mapping_get mappings (toUpperCase colName)) in
      let entry' :=
        match truthyName mappedKey with
        | Some key =>
            if (index <? List.length values)%nat
            then field_set entry key (trim (nth index values []))
            else entry
        | None => entry
        end in
      fillEntry mappings values rest (S index) entry'
  end.

(** The body of [rows.map(row => ...)]: [None] is the [null] that the
    trailing [filter] removes. *)
Definition parseRow (mappings : Mappings) (header : list str) (row : str)
  : option PartialEquipment :=
  if isEmpty (trim row) then None
  else
    let values := splitCsvLine row in
    let entry := fillEntry mappings values header 0 [] in
    match field_get entry "serial" with
    | None => None
    | Some serial =>
        if isEmpty serial || isEmpty (trim serial) then None
        else Some entry
    end.

Fixpoint filterMap {A B : Type} (f : A -> option B) (l : list A) : list B :=
  match l with
  | [] => []
  | a :: r =>
      match f a with
      | Some b => b :: filterMap f r
      | None => filterMap f r
      end
  end.

Definition parseCsv (fileText : str) (mappings : Mappings)
  : result (list PartialEquipment) :=
  let lines := splitLines (trim fileText) in
  if (List.length lines <? 2)%nat then Throw missingRows
  else
    let line0 := hd [] lines in
    let headerLine :=
      if endsWithComma line0 then dropLast line0 else line0 in
    let header :=
      map (fun h => toUpperCase (trim h)) (splitCsvLine headerLine) in
    let rows := tl lines in
    Ok (filterMap (parseRow mappings header) rows).

Definition baseMappings : Mappings :=
  [ (lit "EQUIPAMENTO", "equipamento"); (lit "GARANTIA", "garantia");
    (lit "PATRIMONIO", "patrimonio"); (lit "SERIAL", "serial");
    (lit "USUÁRIO ATUAL", "usuarioAtual");
    (lit "USUÁRIO ANTERIOR", "usuarioAnterior");
    (lit "LOCAL", "local"); (lit "SETOR", "setor");
    (lit "DATA ENTREGA O USUÁRIO", "dataEntregaUsuario");
    (lit "STATUS", "status");
    (lit "DATA DE DEVOLUÇÃO", "dataDevolucao");
    (lit "TIPO", "tipo"); (lit "NOTA DE COMPRA", "notaCompra");
    (lit "NOTA / PL K&M", "notaPlKm");
    (lit "TERMO DE RESPONSABILIDADE", "termoResponsabilidade");
    (lit "FOTO", "foto"); (lit "QR CODE", "qrCode");
    (lit "MARCA", "brand"); (lit "MODELO", "model");
    (lit "EMAIL COLABORADOR", "emailColaborador");
    (lit "IDENTIFICADOR", "identificador"); (lit "NOME DO SO", "nomeSO");
    (lit "MEMÓRIA FÍSICA TOTAL", "memoriaFisicaTotal");
    (lit "GRUPO DE POLÍTICAS", "grupoPoliticas");
    (lit "PAÍS", "pais"); (lit "CIDADE", "cidade");
    (lit "ESTADO/PROVÍNCIA", "estadoProvincia") ]%string.

Definition absoluteMappings : Mappings :=
  [ (lit "NOMEDODISPOSITIVO", "equipamento");
    (lit "NÚMERODESÉRIE", "serial");
    (lit "NOMEDOUSUÁRIOATUAL", "usuarioAtual");
    (lit "MARCA", "brand"); (lit "MODELO", "model");
    (lit "EMAIL DO COLABORADOR", "emailColaborador");
    (lit "IDENTIFICADOR", "identificador"); (lit "NOME DO SO", "nomeSO");
    (lit "MEMÓRIA FÍSICA TOTAL", "memoriaFisicaTotal");
    (lit "GRUPO DE POLÍTICAS", "grupoPoliticas");
    (lit "PAÍS", "pais"); (lit "CIDADE", "cidade");
    (lit "ESTADO/PROVÍNCIA", "estadoProvincia") ]%string.

(** [parseAbsoluteCsv] of the periodic-update component is [parseCsv]
    with the table of the Absolute report built in. *)
Definition parseAbsoluteCsv (fileText : str)
  : result (list PartialEquipment) :=
  parseCsv fileText absoluteMappings.

End Parser.

Import Parser.

(** The status names the program writes. *)
Definition emUso : str := lit "Em Uso".
Definition estoque : str := lit "Estoque".

(** ** Consolidation: [handleConsolidate] *)

Module Consolidation.

(** [item.usuarioAtual && item.usuarioAtual.trim() !== ''] *)
Definition hasCurrentUser (item : PartialEquipment) : bool :=
  match field_get item "usuarioAtual" with
  | None => false
  | Some u => negb (isEmpty u) && negb (isEmpty (trim u))
  end.

(** The callback of the three [map] calls that produce [finalData]. *)
Definition deriveStatus (item : PartialEquipment) : PartialEquipment :=
  if hasCurrentUser item then field_set item "status" emUso else item.

(** [serial.toUpperCase().replace(/ /g, '')] *)
Definition mergeKey (serial : str) : str := removeSpaces (toUpperCase serial).

Definition noSerial : string :=
  "Cannot read properties of undefined (reading 'toUpperCase')".

(** [item.serial!.toUpperCase().replace(/ /g, '')]; the assertion is
    erased at run time, so a record without serial throws here. *)
Definition keyOf (item : PartialEquipment) : result str :=
  match field_get item "serial" with
  | Some serial => Ok (mergeKey serial)
  | None => Throw noSerial
  end.

Definition ConsolidatedMap := list (str * PartialEquipment).

(** [baseData.forEach(baseItem => consolidatedMap.set(key, baseItem))] *)
Fixpoint insertBase (baseData : list PartialEquipment) (m : ConsolidatedMap)
  : result ConsolidatedMap :=
  match baseData with
  | [] => Ok m
  | baseItem :: rest =>
      key <- keyOf baseItem ;;
      insertBase rest (Assoc.set str_eqb m key baseItem)
  end.

(** [absoluteData.forEach(...)]: the overlay on the entry of the same
    key, or on the empty object. *)
Fixpoint overlayAbsolute (absoluteData : list PartialEquipment)
         (m : ConsolidatedMap) : result ConsolidatedMap :=
  match absoluteData with
  | [] => Ok m
  | absoluteItem :: rest =>
      key <- keyOf absoluteItem ;;
      let existingItem :=
        match Assoc.get str_eqb m key with
        | Some e => e
        | None => []
        end in
      overlayAbsolute rest
        (Assoc.set str_eqb m key
           (Assoc.spread String.eqb existingItem absoluteItem))
  end.

(** The branch [if (baseFile && absoluteFile)]: the map once both
    [forEach] loops have run, then [finalData]. *)
Definition consolidatedMapOf (baseData absoluteData : list PartialEquipment)
  : result ConsolidatedMap :=
  m1 <- insertBase baseData [] ;;
  overlayAbsolute absoluteData m1.

Definition consolidateBoth (baseData absoluteData : list PartialEquipment)
  : result (list PartialEquipment) :=
  m <- consolidatedMapOf baseData absoluteData ;;
  Ok (map deriveStatus (Assoc.values m)).

Definition noFile : string :=
  "Por favor, selecione pelo menos um arquivo (Planilha Base ou Relatório Absolute).".

(** [handleConsolidate] on the texts of the chosen files: the value is
    what [setConsolidatedData] receives, an exception is what the
    [catch] block (or the first guard) hands to [setError]. *)
Definition handleConsolidate (baseFile absoluteFile : option str)
  : result (list PartialEquipment) :=
  match baseFile, absoluteFile with
  | None, None => Throw noFile
  | Some baseText, None =>
      baseData <- parseCsv baseText baseMappings ;;
      Ok (map deriveStatus baseData)
  | None, Some absoluteText =>
      absoluteData <- parseCsv absoluteText absoluteMappings ;;
      Ok (map deriveStatus absoluteData)
  | Some baseText, Some absoluteText =>
      baseData <- parseCsv baseText baseMappings ;;
      absoluteData <- parseCsv absoluteText absoluteMappings ;;
      consolidateBoth baseData absoluteData
  end.

End Consolidation.

Import Consolidation.

(** ** The store and the two bulk routes of [server.js] *)

Module Server.

(** The values that reach the routes: what [JSON.parse] puts in the
    request body and what the driver returns for a column (strings,
    numbers, [null]), and [undefined] for a property that is missing. *)
Inductive value : Type :=
| VUndefined
| VNull
| VNum (n : Z)
| VStr (s : str).

Definition value_eq_dec (a b : value) : {a = b} + {a <> b}.
Proof.
  decide equality; [apply Z.eq_dec | apply (list_eq_dec N.eq_dec)].
Defined.

(** [a === b] *)
Definition strictEq (a b : value) : bool :=
  if value_eq_dec a b then true else false.

Definition truthy (v : value) : bool :=
  match v with
  | VUndefined | VNull => false
  | VNum n => negb (n =? 0)%Z
  | VStr s => negb (isEmpty s)
  end.

Definition jsobj := list (string * value).

(** [o[key]] *)
Definition prop (o : jsobj) (key : string) : value :=
  match Assoc.get String.eqb o key with
  | Some v => v
  | None => VUndefined
  end.

Definition assign (o : jsobj) (key : string) (v : value) : jsobj :=
  Assoc.set String.eqb o key v.

(** *** Tables

    A row of [equipment] is kept as the list of its columns, [id]
    among them, each with the value the statement gave it; a column
    that no statement has written is not listed and reads [NULL] (two
    columns of the schema have a default instead: [approval_status],
    which both routes write themselves, and [condicaoTermo]).  The
    conversions of the store are not modelled (a number written to a
    text column reads back as its text, a text written to a DATE column
    as a date): the properties below speak of texts in text columns and
    of [NULL].  A text the store accepts is kept as it is (strict mode,
    the default: a text that does not fit its column is refused, not
    cut).  [importEquipment] and [periodicUpdate] give the state a
    run commits when the store accepts every statement of it; what the
    store refuses is followed for the import route only
    ([importRoute]). *)
Record HistoryEntry : Type := {
  equipment_id : value;
  changedBy : value;
  changeType : string;
  from_value : value;
  to_value : value
}.

Record Db : Type := {
  equipment : list jsobj;
  equipment_history : list HistoryEntry;
  auto_increment : Z;
  app_config : list (string * str)
}.

(** A bound parameter: the driver writes [undefined] as [NULL]. *)
Definition toSql (v : value) : value :=
  match v with
  | VUndefined => VNull
  | _ => v
  end.

Definition column (row : jsobj) (name : string) : value :=
  toSql (prop row name).

(** [WHERE id = ?]: [NULL] equals nothing. *)
Definition sqlEq (a b : value) : bool :=
  match a, b with
  | VNull, _ | _, VNull | VUndefined, _ | _, VUndefined => false
  | _, _ => strictEq a b
  end.

Definition configSet (config : list (string * str)) (key : string)
           (v : str) : list (string * str) :=
  Assoc.set String.eqb config key v.

Definition approved : str := lit "approved".

(** *** [POST /api/equipment/import] *)

(** [equipment.dataEntregaUsuario || null] *)
Definition orNull (v : value) : value := if truthy v then v else VNull.

(** The [INSERT INTO equipment (...) VALUES (...)] of the import loop:
    the columns in the order of the statement, behind the generated
    [id]. *)
Definition importRow (id : Z) (item : jsobj) : jsobj :=
  [ ("id", VNum id);
    ("equipamento", toSql (prop item "equipamento"));
    ("patrimonio", toSql (prop item "patrimonio"));
    ("serial", toSql (prop item "serial"));
    ("brand", toSql (prop item "brand"));
    ("model", toSql (prop item "model"));
    ("tipo", toSql (prop item "tipo"));
    ("status", toSql (prop item "status"));
    ("usuarioAtual", toSql (prop item "usuarioAtual"));
    ("emailColaborador", toSql (prop item "emailColaborador"));
    ("local", toSql (prop item "local"));
    ("setor", toSql (prop item "setor"));
    ("dataEntregaUsuario", orNull (prop item "dataEntregaUsuario"));
    ("approval_status", VStr approved);
    ("created_by_id", VNum 1);
    ("identificador", toSql (prop item "identificador"));
    ("nomeSO", toSql (prop item "nomeSO"));
    ("memoriaFisicaTotal", toSql (prop item "memoriaFisicaTotal"));
    ("grupoPoliticas", toSql (prop item "grupoPoliticas"));
    ("pais", toSql (prop item "pais"));
    ("cidade", toSql (prop item "cidade"));
    ("estadoProvincia", toSql (prop item "estadoProvincia")) ]%string.

(** [for (const equipment of equipmentList) await connection.query(...)];
    the loop variable is [item] here, [equipment] being the table. *)
Fixpoint importLoop (equipmentList : list jsobj) (db : Db) : Db :=
  match equipmentList with
  | [] => db
  | item :: rest =>
      importLoop rest
        {| equipment := db.(equipment) ++ [importRow db.(auto_increment) item];
           equipment_history := db.(equipment_history);
           auto_increment := (db.(auto_increment) + 1)%Z;
           app_config := db.(app_config) |}
  end.

(** What the route leaves in the store when every statement of it is
    accepted ([importRoute] below follows the statements one by one);
    [now] is the time stamp the route reads from the clock.  (The line
    it adds to [audit_log] is not part of the model.) *)
Definition importEquipment (db : Db) (equipmentList : list jsobj)
           (now : str) : Db :=
  let emptied :=
    {| equipment := [];                  (* DELETE FROM equipment *)
       equipment_history := [];          (* DELETE FROM equipment_history *)
       auto_increment := 1;              (* ALTER TABLE ... AUTO_INCREMENT = 1 *)
       app_config := db.(app_config) |} in
  let filled := importLoop equipmentList emptied in
  {| equipment := filled.(equipment);
     equipment_history := filled.(equipment_history);
     auto_increment := filled.(auto_increment);
     app_config :=
       configSet
         (configSet filled.(app_config) "lastAbsoluteUpdateTimestamp" now)
         "hasInitialConsolidationRun" (lit "true") |}.

(** *** The connection of the import route

    The route runs its statements on one connection, between
    [beginTransaction] and [commit], and rolls back in its [catch]
    block.  [stored] is what the store holds durably, [pending] what
    the connection sees; the two differ while a transaction is open.
    Outside a transaction every statement is durable at once
    (autocommit).  A data definition statement such as [ALTER TABLE]
    commits the open transaction before it runs and leaves none open. *)
Record Connection : Type := {
  stored : Db;
  pending : Db;
  inTransaction : bool
}.

Definition getConnection (db : Db) : Connection :=
  {| stored := db; pending := db; inTransaction := false |}.

Definition beginTransaction (c : Connection) : Connection :=
  {| stored := pending c; pending := pending c; inTransaction := true |}.

(** A statement that changes rows, once it has succeeded. *)
Definition query (effect : Db -> Db) (c : Connection) : Connection :=
  let db := effect (pending c) in
  {| stored := if inTransaction c then stored c else db;
     pending := db;
     inTransaction := inTransaction c |}.

Definition alterTable (effect : Db -> Db) (c : Connection) : Connection :=
  let db := effect (pending c) in
  {| stored := db; pending := db; inTransaction := false |}.

Definition commit (c : Connection) : Connection :=
  {| stored := pending c; pending := pending c; inTransaction := false |}.

Definition rollback (c : Connection) : Connection :=
  {| stored := stored c; pending := stored c; inTransaction := false |}.

(** [DELETE FROM equipment_history] *)
Definition deleteHistory (db : Db) : Db :=
  {| equipment := equipment db; equipment_history := [];
     auto_increment := auto_increment db; app_config := app_config db |}.

(** [DELETE FROM equipment]; the history rows of a deleted row go with
    it ([ON DELETE CASCADE]). *)
Definition deleteEquipment (db : Db) : Db :=
  {| equipment := []; equipment_history := [];
     auto_increment := auto_increment db; app_config := app_config db |}.

(** [ALTER TABLE equipment AUTO_INCREMENT = 1], on the table that the
    [DELETE] has emptied. *)
Definition resetCounter (db : Db) : Db :=
  {| equipment := equipment db; equipment_history := equipment_history db;
     auto_increment := 1; app_config := app_config db |}.

Definition setConfig (key : string) (v : str) (db : Db) : Db :=
  {| equipment := equipment db; equipment_history := equipment_history db;
     auto_increment := auto_increment db;
     app_config := configSet (app_config db) key v |}.

Definition isNull (v : value) : bool :=
  match v with
  | VUndefined | VNull => true
  | _ => false
  end.

(** A [UNIQUE] column already holds the value.  Only the repetition of
    the very same value is taken for a duplicate here; whether the store
    identifies more (capitals, accents, trailing spaces) is a matter of
    the collation of the column. *)
Definition duplicates (table : list jsobj) (name : string) (v : value)
  : bool :=
  negb (isNull v) && existsb (fun row => strictEq (column row name) v) table.

Definition cannotBeNull : string := "Column 'equipamento' cannot be null".
Definition duplicateEntry : string := "Duplicate entry".

(** The constraints of [equipment] (MIGRATION_1) that the model checks
    on a new row: [equipamento] is [NOT NULL], [patrimonio] and [serial]
    are [UNIQUE].  The store may refuse more (a text that is too long, a
    text that is no date); it never accepts what is refused here. *)
Definition refusal (table : list jsobj) (row : jsobj) : option string :=
  if isNull (column row "equipamento") then Some cannotBeNull
  else if duplicates table "patrimonio" (column row "patrimonio")
          || duplicates table "serial" (column row "serial")
       then Some duplicateEntry
       else None.

(** The loop of the inserts on the connection: the first statement the
    store refuses throws, and the loop ends there. *)
Fixpoint importInserts (equipmentList : list jsobj) (c : Connection)
  : Connection * result unit :=
  match equipmentList with
  | [] => (c, Ok tt)
  | item :: rest =>
      match refusal (equipment (pending c))
                    (importRow (auto_increment (pending c)) item) with
      | Some message => (c, Throw message)
      | None => importInserts rest (query (importLoop [item]) c)
      end
  end.

(** The route: what the store holds when the connection is released,
    and the answer ([Ok]: success; [Throw]: status 500).  [now] is the
    time stamp the route reads from the clock. *)
Definition importRoute (db : Db) (equipmentList : list jsobj) (now : str)
  : Db * result unit :=
  let c := beginTransaction (getConnection db) in
  let c := query deleteHistory c in
  let c := query deleteEquipment c in
  let c := alterTable resetCounter c in
  match importInserts equipmentList c with
  | (c, Ok _) =>
      let c := query (setConfig "lastAbsoluteUpdateTimestamp" now) c in
      let c := query (setConfig "hasInitialConsolidationRun" (lit "true")) c in
      (stored (commit c), Ok tt)
  | (c, Throw message) => (stored (rollback c), Throw message)
  end.

(** *** [POST /api/equipment/periodic-update] *)

Definition notAString : string := "toUpperCase is not a function".
Definition noTrim : string := "trim is not a function".

(** [v.toUpperCase()] *)
Definition upperOf (v : value) : result str :=
  match v with
  | VStr s => Ok (toUpperCase s)
  | _ => Throw notAString
  end.

(** [SELECT id, serial, usuarioAtual, status FROM equipment] *)
Definition selectRow (row : jsobj) : jsobj :=
  [ ("id", column row "id"); ("serial", column row "serial");
    ("usuarioAtual", column row "usuarioAtual");
    ("status", column row "status") ]%string.

Definition ExistingMap := list (str * jsobj).

(** [new Map(existingEquipmentRows.map(e => [e.serial.toUpperCase(), e]))] *)
Fixpoint buildMap (rows : list jsobj) (m : ExistingMap) : result ExistingMap :=
  match rows with
  | [] => Ok m
  | e :: rest =>
      key <- upperOf (prop e "serial") ;;
      buildMap rest (Assoc.set str_eqb m key e)
  end.

(** [(item.usuarioAtual || '').trim() !== '' ? 'Em Uso' : 'Estoque'] *)
Definition newStatusOf (item : jsobj) : result value :=
  let u := prop item "usuarioAtual" in
  match (if truthy u then u else VStr []) with
  | VStr s => Ok (VStr (if isEmpty (trim s) then estoque else emUso))
  | _ => Throw noTrim
  end.

(** The locals of the branch [if (existing)], and the entries it
    pushes on [historyEntries]. *)
Record Staged : Type := {
  updates : jsobj;
  hasChanges : bool;
  pushed : list HistoryEntry
}.

(** [Object.keys(item).forEach(key => ...)]: compare and collect. *)
Fixpoint compareKeys (username : value) (item existing : jsobj)
         (keys : list string) (st : Staged) : Staged :=
  match keys with
  | [] => st
  | key :: rest =>
      if negb (String.eqb key "serial")
         && negb (strictEq (prop item key) (prop existing key))
      then
        compareKeys username item existing rest
          {| updates := assign st.(updates) key (prop item key);
             hasChanges := true;
             pushed := st.(pushed) ++
               [ {| equipment_id := prop existing "id";
                    changedBy := username;
                    changeType := key;
                    from_value := prop existing key;
                    to_value := prop item key |} ] |}
      else compareKeys username item existing rest st
  end.

Definition statusEntry (username : value) (existing : jsobj)
           (newStatus : value) : HistoryEntry :=
  {| equipment_id := prop existing "id";
     changedBy := username;
     changeType := "status";
     from_value := prop existing "status";
     to_value := newStatus |}.

(** [if (newStatus !== existing.status) { ... }] *)
Definition checkStatus (username : value) (existing : jsobj)
           (newStatus : value) (st : Staged) : Staged :=
  if negb (strictEq newStatus (prop existing "status")) then
    {| updates := assign st.(updates) "status" newStatus;
       hasChanges := true;
       pushed :=
         if negb st.(hasChanges)
         then st.(pushed) ++ [statusEntry username existing newStatus]
         else st.(pushed) |}
  else st.

Definition stageExisting (username : value) (item existing : jsobj)
           (newStatus : value) : Staged :=
  checkStatus username existing newStatus
    (compareKeys username item existing (Assoc.keys item)
       {| updates := []; hasChanges := false; pushed := [] |}).

(** The statements the loop sends on the connection, in the order in
    which they are sent (one connection runs them in that order). *)
Inductive Statement : Type :=
| Update (updates : jsobj) (id : value)       (* UPDATE equipment SET ? WHERE id = ? *)
| Insert (newItem : jsobj) (equipamento : value). (* INSERT INTO equipment SET ? *)

Record Plan : Type := {
  statements : list Statement;
  historyEntries : list HistoryEntry   (* pushed while the loop runs *)
}.

(** [{ ...item, status: newStatus, approval_status: 'approved', created_by_id: 1 }] *)
Definition newItemOf (item : jsobj) (newStatus : value) : jsobj :=
  assign (assign (assign item "status" newStatus)
                 "approval_status" (VStr approved))
         "created_by_id" (VNum 1).

(** One turn of [for (const item of equipmentList)]. *)
Definition reconcileItem (username : value) (m : ExistingMap)
           (item : jsobj) (plan : Plan) : result Plan :=
  upperSerial <- upperOf (prop item "serial") ;;
  newStatus <- newStatusOf item ;;
  match Assoc.get str_eqb m upperSerial with
  | Some existing =>
      let st := stageExisting username item existing newStatus in
      Ok {| statements :=
              if st.(hasChanges)
              then plan.(statements) ++ [Update st.(updates) (prop existing "id")]
              else plan.(statements);
            historyEntries := plan.(historyEntries) ++ st.(pushed) |}
  | None =>
      Ok {| statements :=
              plan.(statements) ++
                [Insert (newItemOf item newStatus) (prop item "equipamento")];
            historyEntries := plan.(historyEntries) |}
  end.

Fixpoint reconcileLoop (username : value) (m : ExistingMap)
         (equipmentList : list jsobj) (plan : Plan) : result Plan :=
  match equipmentList with
  | [] => Ok plan
  | item :: rest =>
      plan' <- reconcileItem username m item plan ;;
      reconcileLoop username m rest plan'
  end.

(** From the [SELECT] to the end of the loop. *)
Definition reconcile (persisted : list jsobj) (username : value)
           (equipmentList : list jsobj) : result Plan :=
  m <- buildMap (map selectRow persisted) [] ;;
  reconcileLoop username m equipmentList
    {| statements := []; historyEntries := [] |}.

(** [UPDATE equipment SET ? WHERE id = ?]: the keys of [updates] are
    taken for the columns they spell (see [namesColumns] below). *)
Definition setColumns (row updates : jsobj) : jsobj :=
  fold_left (fun r kv => assign r (fst kv) (toSql (snd kv))) updates row.

Definition updateWhereId (table : list jsobj) (updates : jsobj) (id : value)
  : list jsobj :=
  map (fun row => if sqlEq (column row "id") id
                  then setColumns row updates else row) table.

(** [INSERT INTO equipment SET ?]: the row takes the next
    [AUTO_INCREMENT] value unless the object brings a positive [id];
    the result is the table, the counter and [insertId]. *)
Definition insertSet (table : list jsobj) (auto : Z) (newItem : jsobj)
  : list jsobj * Z * Z :=
  let id :=
    match prop newItem "id" with
    | VNum n => if (0 <? n)%Z then n else auto
    | _ => auto
    end in
  (table ++ [assign (setColumns [] newItem) "id" (VNum id)],
   Z.max auto (id + 1), id).

(** [await Promise.all([...updatePromises, ...insertPromises])]: the
    statements take effect in the order sent; every insert pushes its
    CREATE entry when it completes, that is behind the entries of the
    loop. *)
Fixpoint execute (username : value) (sts : list Statement)
         (table : list jsobj) (auto : Z) (created : list HistoryEntry)
  : list jsobj * Z * list HistoryEntry :=
  match sts with
  | [] => (table, auto, created)
  | Update updates id :: rest =>
      execute username rest (updateWhereId table updates id) auto created
  | Insert newItem equipamento :: rest =>
      let '(table', auto', insertId) := insertSet table auto newItem in
      execute username rest table' auto'
        (created ++
           [ {| equipment_id := VNum insertId;
                changedBy := username;
                changeType := "CREATE";
                from_value := VNull;
                to_value := equipamento |} ])
  end.

(** A row of the bulk [INSERT INTO equipment_history ... VALUES ?]. *)
Definition historyRow (e : HistoryEntry) : HistoryEntry :=
  {| equipment_id := toSql e.(equipment_id);
     changedBy := toSql e.(changedBy);
     changeType := e.(changeType);
     from_value := toSql e.(from_value);
     to_value := toSql e.(to_value) |}.

(** The transaction of the route.  An exception in the loop reaches
    the [catch] block, which rolls back: the store is then the one of
    before, and the route answers 500. *)
Definition periodicUpdate (db : Db) (username : value)
           (equipmentList : list jsobj) (now : str) : result Db :=
  plan <- reconcile db.(equipment) username equipmentList ;;
  let '(table, auto, created) :=
    execute username plan.(statements) db.(equipment)
            db.(auto_increment) [] in
  Ok {| equipment := table;
        equipment_history :=
          db.(equipment_history) ++
            map historyRow (plan.(historyEntries) ++ created);
        auto_increment := auto;
        app_config :=
          configSet db.(app_config) "lastAbsoluteUpdateTimestamp" now |}.

(** The history rows a run of the route adds, and the statements it
    sends: what a second run is measured by. *)
Definition runHistory (db : Db) (username : value)
           (equipmentList : list jsobj) : result (list HistoryEntry) :=
  plan <- reconcile db.(equipment) username equipmentList ;;
  let '(_, _, created) :=
    execute username plan.(statements) db.(equipment)
            db.(auto_increment) [] in
  Ok (map historyRow (plan.(historyEntries) ++ created)).

Definition runStatements (db : Db) (username : value)
           (equipmentList : list jsobj) : result (list Statement) :=
  plan <- reconcile db.(equipment) username equipmentList ;;
  Ok plan.(statements).

(** The request body the front end sends for parsed records
    ([handleSaveToSystem]): each record with [id: undefined], which
    [JSON.stringify] leaves out, so the fields of the record, every one
    a string. *)
Definition toBody (data : list PartialEquipment) : list jsobj :=
  map (map (fun kv => (fst kv, VStr (snd kv)))) data.

End Server.

Import Server.

(** ** The wording of the specification

    Definitions that follow the text of the specification, to be
    compared with the ones above. *)

Module Spec.

(** The protected terminal statuses of the StatusDerivation entry. *)
Definition protectedStatuses : list str :=
  [lit "Manutenção"; lit "Descartado"; lit "Perdido"; lit "Doado"].

Definition isProtected (status : value) : bool :=
  match status with
  | VStr s => existsb (str_eqb s) protectedStatuses
  | _ => false
  end.

Definition nonBlank (usuarioAtual : value) : bool :=
  match usuarioAtual with
  | VStr u => negb (isEmpty (trim u))
  | _ => false
  end.

(** StatusDerivation: a non-blank occupant gives Em Uso, a blank one
    Estoque, except that a persisted protected status is preserved. *)
Definition statusDerivation (persistedStatus : option value)
           (usuarioAtual : value) : value :=
  match persistedStatus with
  | Some status =>
      if isProtected status then status
      else VStr (if nonBlank usuarioAtual then emUso else estoque)
  | None => VStr (if nonBlank usuarioAtual then emUso else estoque)
  end.

(** FieldChange: the comparison is on the string forms, [null] and
    [undefined] counting as the empty string.  (A number prints as its
    decimal digits.) *)
Definition normalized (v : value) : str :=
  match v with
  | VUndefined | VNull => []
  | VStr s => s
  | VNum n => lit (NilEmpty.string_of_int (Z.to_int n))
  end.

Definition differ (oldValue newValue : value) : bool :=
  negb (str_eqb (normalized oldValue) (normalized newValue)).

(** MergeKey: the serial upper-cased with all spaces stripped. *)
Definition mergeKey (serial : str) : str := removeSpaces (toUpperCase serial).

End Spec.

(** ** Auxiliary notions used by the statements *)

(** The number of double quotes in front of position [i]. *)
Definition quotesBefore (i : nat) (line : str) : nat :=
  count_occ N.eq_dec (firstn i line) quote.

(** Position [i] holds a comma that lies outside double quotes: an even
    number of quotes precedes it. *)
Definition isUnquotedSeparator (line : str) (i : nat) : bool :=
  (nth i line 0 =? comma)%N && Nat.even (quotesBefore i line).

Definition unquotedSeparators (line : str) : nat :=
  List.length (filter (isUnquotedSeparator line) (seq 0 (List.length line))).

(** The same count, taken in one pass with the parity of the quotes
    seen so far. *)
Fixpoint separatorsFrom (inQuote : bool) (line : str) : nat :=
  match line with
  | [] => 0
  | c :: rest =>
      if (c =? quote)%N then separatorsFrom (negb inQuote) rest
      else if (c =? comma)%N && negb inQuote then S (separatorsFrom inQuote rest)
      else separatorsFrom inQuote rest
  end.

(** The record has a serial that is not empty once trimmed. *)
Definition serialPresent (r : PartialEquipment) : Prop :=
  exists serial, field_get r "serial" = Some serial /\ trim serial <> [].

(** Each key occurs once, as in every object. *)
Definition uniqueKeys {V : Type} (o : list (string * V)) : Prop :=
  NoDup (Assoc.keys o).

(** The records of [data] whose merge key is [k]. *)
Definition hasKey (k : str) (item : PartialEquipment) : bool :=
  match keyOf item with
  | Ok k' => str_eqb k' k
  | Throw _ => false
  end.

Definition withKey (k : str) (data : list PartialEquipment)
  : list PartialEquipment :=
  filter (hasKey k) data.

Definition lastOf {A : Type} (l : list A) : option A :=
  match rev l with
  | a :: _ => Some a
  | [] => None
  end.

(** [existing || {}] *)
Definition orEmpty (e : option PartialEquipment) : PartialEquipment :=
  match e with Some b => b | None => [] end.

(** What the merge leaves under key [k]: the last base record of that
    key, overlaid by the absolute records of that key in their order. *)
Definition mergedAt (k : str) (baseData absoluteData : list PartialEquipment)
  : option PartialEquipment :=
  let start := lastOf (withKey k baseData) in
  match withKey k absoluteData with
  | [] => start
  | overlays =>
      Some (fold_left (Assoc.spread String.eqb) overlays (orEmpty start))
  end.

(** The rows the import loop appends, the first with identifier [id]. *)
Fixpoint importRows (id : Z) (equipmentList : list jsobj) : list jsobj :=
  match equipmentList with
  | [] => []
  | item :: rest => importRow id item :: importRows (id + 1) rest
  end.

(** The identifier column of a table: the primary key. *)
Definition ids (table : list jsobj) : list value :=
  map (fun row => column row "id") table.

(** The persisted row [row] is the counterpart of the incoming [item]:
    their serials have the same upper-case form. *)
Definition corresponds (row item : jsobj) : Prop :=
  exists key,
    upperOf (column row "serial") = Ok key
    /\ upperOf (prop item "serial") = Ok key.

(** An [UPDATE] addresses, by its identifier, a persisted row that has
    a counterpart in the request. *)
Definition targetsMatched (persisted equipmentList : list jsobj)
           (st : Statement) : Prop :=
  match st with
  | Update _ id =>
      exists row item,
        In row persisted /\ In item equipmentList
        /\ corresponds row item /\ id = column row "id"
  | Insert _ _ => True
  end.

(** The columns the import statement copies from the record as they
    are. *)
Definition copiedColumns : list string :=
  [ "equipamento"; "patrimonio"; "serial"; "brand"; "model"; "tipo";
    "status"; "usuarioAtual"; "emailColaborador"; "local"; "setor";
    "identificador"; "nomeSO"; "memoriaFisicaTotal"; "grupoPoliticas";
    "pais"; "cidade"; "estadoProvincia" ]%string.

(** Every entry of the map is the selected form of a persisted row,
    filed under the upper-case serial of that row. *)
Definition mapSound (persisted : list jsobj) (m : ExistingMap) : Prop :=
  forall k e,
    Assoc.get str_eqb m k = Some e ->
    exists row,
      In row persisted /\ e = selectRow row
      /\ upperOf (column row "serial") = Ok k.

(** The statements that leave [row] alone. *)
Definition spares (row : jsobj) (st : Statement) : Prop :=
  match st with
  | Update _ id => sqlEq (column row "id") id = false
  | Insert _ _ => True
  end.

(** The locals at the start of the branch [if (existing)]. *)
Definition nothingStaged : Staged :=
  {| updates := []; hasChanges := false; pushed := [] |}.

(** [key !== 'serial' && item[key] !== existing[key]] *)
Definition fieldChanged (item existing : jsobj) (key : string) : bool :=
  negb (String.eqb key "serial")
  && negb (strictEq (prop item key) (prop existing key)).

(** The entry pushed for a changed field. *)
Definition changeEntry (username : value) (item existing : jsobj)
           (key : string) : HistoryEntry :=
  {| equipment_id := prop existing "id";
     changedBy := username;
     changeType := key;
     from_value := prop existing key;
     to_value := prop item key |}.

(** The occupant field is missing, [null], empty or blank. *)
Definition blankUser (usuarioAtual : value) : Prop :=
  match usuarioAtual with
  | VUndefined | VNull => True
  | VStr u => trim u = []
  | VNum _ => False
  end.

(** ** Concrete stores, files and requests used below *)

Module Examples.

Definition admin : value := VStr (lit "admin").
Definition now : str := lit "2025-01-01T00:00:00.000Z".

Definition emptyDb : Db :=
  {| equipment := []; equipment_history := [];
     auto_increment := 1; app_config := [] |}.

(** Header SERIAL,EQUIPAMENTO and one data row whose first cell is
    empty and whose second cell is the quoted text My PC. *)
Definition csvWithoutSerial : str :=
  lit "SERIAL,EQUIPAMENTO" ++ LF :: comma :: quote :: lit "My PC" ++ [quote].

(** An Absolute report with one device. *)
Definition absoluteReport : str :=
  lit "Número de Série,Nome do Dispositivo,Nome do usuário atual"
  ++ LF :: lit "ABC,PC,Bob".

Definition absoluteRecord : PartialEquipment :=
  [ ("serial", lit "ABC"); ("equipamento", lit "PC");
    ("usuarioAtual", lit "Bob") ]%string.

(** One persisted row, as the store holds it. *)
Definition storedRow (id : Z) (serial : str) (usuarioAtual status : value)
  : jsobj :=
  [ ("id", VNum id); ("serial", VStr serial);
    ("usuarioAtual", usuarioAtual); ("status", status) ]%string.

Definition dbWith (rows : list jsobj) : Db :=
  {| equipment := rows; equipment_history := [];
     auto_increment := Z.of_nat (List.length rows) + 1; app_config := [] |}.

(** A store that holds serial SN 123, and a request for sn123. *)
Definition dbSpaced : Db :=
  dbWith [storedRow 1 (lit "SN 123") (VStr (lit "Bob")) (VStr emUso)].
Definition requestUnspaced : list jsobj :=
  [[ ("serial", VStr (lit "sn123")); ("usuarioAtual", VStr (lit "Bob")) ]]%string.

(** A store that holds serial abc in lower case, and a request for ABC. *)
Definition dbLower : Db :=
  dbWith [storedRow 1 (lit "abc") (VStr (lit "Bob")) (VStr emUso)].
Definition requestUpper : list jsobj :=
  [[ ("serial", VStr (lit "ABC")); ("usuarioAtual", VStr (lit "Bob")) ]]%string.

(** The two files of the precedence example. *)
Definition baseFileX : str :=
  lit "Serial,Marca" ++ LF :: lit "X,Dell".
Definition absoluteFileX : str :=
  lit "Número de Série,Marca,Nome do usuário atual" ++ LF :: lit "X,HP,Alice".

(** A base sheet with a column the report does not have. *)
Definition baseFileKept : str :=
  lit "Serial,Marca,Patrimonio" ++ LF :: lit "X,Dell,P-1".

(** The base record and the absolute record of the precedence
    example. *)
Definition baseX : PartialEquipment :=
  [ ("serial", lit "X"); ("brand", lit "Dell") ]%string.
Definition absoluteX : PartialEquipment :=
  [ ("serial", lit "X"); ("brand", lit "HP");
    ("usuarioAtual", lit "Alice") ]%string.

(** A record of the import request, and a store that already holds
    rows and history. *)
Definition importItem : jsobj :=
  [ ("equipamento", VStr (lit "PC")); ("serial", VStr (lit "ABC"));
    ("usuarioAtual", VStr (lit "Bob")); ("status", VStr emUso);
    ("dataEntregaUsuario", VStr []); ("garantia", VStr (lit "2026")) ]%string.

Definition usedDb : Db :=
  {| equipment := [storedRow 7 (lit "OLD") VNull (VStr estoque)];
     equipment_history :=
       [ {| equipment_id := VNum 7; changedBy := admin;
            changeType := "CREATE"; from_value := VNull;
            to_value := VStr (lit "old") |} ];
     auto_increment := 8;
     app_config := [] |}.

(** An Absolute report without the column of the device name, and the
    request the front end sends for it. *)
Definition reportWithoutDevice : str :=
  lit "Número de Série,Nome do usuário atual" ++ LF :: lit "ABC,Bob".
Definition requestWithoutDevice : list jsobj :=
  toBody [[ ("serial", lit "ABC"); ("usuarioAtual", lit "Bob");
            ("status", lit "Em Uso") ]]%string.

(** A base sheet whose two devices have no asset number, and the
    request the front end sends for it. *)
Definition baseFileNoAsset : str :=
  lit "Serial,Equipamento,Patrimonio"
  ++ LF :: lit "A,PC1," ++ LF :: lit "B,PC2,".
Definition requestNoAsset : list jsobj :=
  toBody [ [ ("serial", lit "A"); ("equipamento", lit "PC1");
             ("patrimonio", []) ];
           [ ("serial", lit "B"); ("equipamento", lit "PC2");
             ("patrimonio", []) ] ]%string.

(** Two persisted rows and a request that names only the first. *)
Definition twoRows : Db :=
  dbWith [ storedRow 1 (lit "ABC") (VStr (lit "Bob")) (VStr emUso);
           storedRow 2 (lit "XYZ") (VStr (lit "Eve")) (VStr emUso) ].
Definition requestAbc : list jsobj :=
  [[ ("serial", VStr (lit "abc")); ("usuarioAtual", VStr []) ]]%string.

(** The end-to-end scenario: Bob holds ABC, the report shows ABC
    without occupant. *)
Definition dbBob : Db :=
  dbWith [storedRow 1 (lit "ABC") (VStr (lit "Bob")) (VStr emUso)].
Definition requestNoUser : list jsobj :=
  [[ ("serial", VStr (lit "ABC")); ("usuarioAtual", VStr []) ]]%string.

(** ABC is in stock with no occupant recorded (NULL). *)
Definition dbNullUser : Db :=
  dbWith [storedRow 1 (lit "ABC") VNull (VStr estoque)].

(** ABC is under maintenance. *)
Definition manutencao : str := lit "Manutenção".
Definition dbMaintenance : Db :=
  dbWith [storedRow 1 (lit "ABC") (VStr (lit "Bob")) (VStr manutencao)].

(** An Absolute report whose device has no occupant. *)
Definition absoluteReportNoUser : str :=
  lit "Número de Série,Nome do Dispositivo,Nome do usuário atual"
  ++ LF :: lit "ABC,PC,".

(** The request the front end sends for [absoluteReport]. *)
Definition requestReport : list jsobj := toBody [absoluteRecord].

End Examples.

(** ** Further notions used by the statements *)

(** The code points from [c] on, [n] of them. *)
Fixpoint upFrom (n : nat) (c : N) : list N :=
  match n with
  | O => []
  | S k => c :: upFrom k (N.succ c)
  end.

Definition runDomain (r : CaseRun) : list N :=
  upFrom (N.to_nat (runLast r + 1 - runFirst r)) (runFirst r).

(** The code points the case tables speak of. *)
Definition casedCodePoints : list N :=
  map fst specialCasing ++ flat_map runDomain upperRuns.

(** What the tables are checked for, code point by code point: the
    upper-case form is not empty and is its own upper-case form, a
    surrogate is left alone and no other code point yields one, and
    the space is the only code point whose form holds a space. *)
Definition upperChecked (c : N) : bool :=
  let u := upperCodePoint c in
  str_eqb (flat_map upperCodePoint u) u
  && negb (match u with [] => true | _ => false end)
  && (if isSurrogate c then str_eqb u [c]
      else forallb (fun x => negb (isSurrogate x)) u)
  && (if (c =? space)%N then str_eqb u [space]
      else forallb (fun x => negb (x =? space)%N) u).

Definition startsLow (l : list N) : bool :=
  match l with
  | b :: _ => isLowSurrogate b
  | [] => false
  end.

(** No high surrogate is directly followed by a low one: the sequence
    is one that [codePoints] returns. *)
Fixpoint separate (l : list N) : Prop :=
  match l with
  | [] => True
  | a :: r => isHighSurrogate a && startsLow r = false /\ separate r
  end.

(** The fields of a line put back together with commas. *)
Fixpoint joinFields (fields : list str) : str :=
  match fields with
  | [] => []
  | f :: rest =>
      match rest with
      | [] => f
      | _ :: _ => f ++ comma :: joinFields rest
      end
  end.

(** A cell as the tokenizer leaves it: trimmed and free of double
    quotes. *)
Definition cleanCell (v : str) : Prop := trim v = v /\ ~ In quote v.

(** A field of a parsed record: named by the column table, with a
    clean value. *)
Definition fromTable (mappings : Mappings) (kv : string * str) : Prop :=
  (exists cell, In (cell, fst kv) mappings) /\ cleanCell (snd kv).

(** The keys of a sequence in the order of their first occurrence,
    behind those already [seen]. *)
Fixpoint dedupeInto (seen : list str) (l : list str) : list str :=
  match l with
  | [] => seen
  | k :: rest =>
      dedupeInto (if existsb (str_eqb k) seen then seen else seen ++ [k]) rest
  end.

Definition dedupe (l : list str) : list str := dedupeInto [] l.

(** The merge keys of the records of [data] that have a serial. *)
Definition keysOf (data : list PartialEquipment) : list str :=
  filterMap (fun item => match keyOf item with
                         | Ok k => Some k
                         | Throw _ => None
                         end) data.

(** The primary key of a table: the identifiers are numbers, pairwise
    distinct and below the counter. *)
Definition keyedTable (table : list jsobj) (auto : Z) : Prop :=
  NoDup (ids table)
  /\ Forall (fun row => exists n, column row "id" = VNum n /\ (n < auto)%Z)
            table.

Definition keyed (db : Db) : Prop :=
  keyedTable (equipment db) (auto_increment db).

(** The keys a statement of the periodic update may write: an update
    writes status and keys of incoming records other than the serial, an
    insert writes keys of incoming records and the three fields the
    route adds. *)
Definition touchesOnly (equipmentList : list jsobj) (st : Statement) : Prop :=
  match st with
  | Update updates _ =>
      forall k, In k (Assoc.keys updates) ->
                k = "status"%string
                \/ (k <> "serial"%string
                    /\ exists item, In item equipmentList
                                    /\ In k (Assoc.keys item))
  | Insert newItem _ =>
      forall k, In k (Assoc.keys newItem) ->
                In k ["status"; "approval_status"; "created_by_id"]%string
                \/ exists item, In item equipmentList
                                /\ In k (Assoc.keys item)
  end.

(** The columns of a row the import statement writes, the generated
    identifier first. *)
Definition importedColumns : list string :=
  [ "id"; "equipamento"; "patrimonio"; "serial"; "brand"; "model"; "tipo";
    "status"; "usuarioAtual"; "emailColaborador"; "local"; "setor";
    "dataEntregaUsuario"; "approval_status"; "created_by_id";
    "identificador"; "nomeSO"; "memoriaFisicaTotal"; "grupoPoliticas";
    "pais"; "cidade"; "estadoProvincia" ]%string.

(** Fields the base sheet is parsed for that the import statement does
    not list. *)
Definition notImported : list string :=
  [ "garantia"; "usuarioAnterior"; "dataDevolucao"; "notaCompra";
    "notaPlKm"; "termoResponsabilidade"; "foto"; "qrCode" ]%string.

(** The statement adds a row. *)
Definition isInsert (st : Statement) : Prop :=
  match st with
  | Insert _ _ => True
  | Update _ _ => False
  end.

(** A column no update of the request can write: the serial, or a
    column other than status that no incoming record names. *)
Definition untouched (equipmentList : list jsobj) (c : string) : Prop :=
  c = "serial"%string
  \/ (c <> "status"%string
      /\ forall item, In item equipmentList -> ~ In c (Assoc.keys item)).

(** The columns of [equipment], as the migrations of [server.js]
    spell them. *)
Definition equipmentColumns : list string :=
  [ "id"; "equipamento"; "garantia"; "patrimonio"; "serial"; "usuarioAtual";
    "usuarioAnterior"; "local"; "setor"; "dataEntregaUsuario"; "status";
    "dataDevolucao"; "tipo"; "notaCompra"; "notaPlKm";
    "termoResponsabilidade"; "foto"; "qrCode"; "brand"; "model";
    "observacoes"; "approval_status"; "rejection_reason"; "created_by_id";
    "emailColaborador"; "identificador"; "nomeSO"; "memoriaFisicaTotal";
    "grupoPoliticas"; "pais"; "cidade"; "estadoProvincia";
    "condicaoTermo" ]%string.

(** Every key of the record is the name of a column, spelled as in the
    schema: so are the keys of the records the front end sends.  (The
    store takes the names of a [SET] clause without regard to capitals;
    a key that is a column name in other capitals is outside the
    model.) *)
Definition namesColumns (item : jsobj) : Prop :=
  incl (Assoc.keys item) equipmentColumns.

(** The record names no identifier of its own. *)
Definition noId (item : jsobj) : Prop := ~ In "id"%string (Assoc.keys item).

(** The incoming record finds its row in the map and differs from it in
    nothing: same derived status, same value under every key but the
    serial. *)
Definition upToDate (m : ExistingMap) (item : jsobj) : Prop :=
  exists upperSerial existing,
    upperOf (prop item "serial") = Ok upperSerial
    /\ Assoc.get str_eqb m upperSerial = Some existing
    /\ newStatusOf item = Ok (prop existing "status")
    /\ forall key, In key (Assoc.keys item) -> key <> "serial"%string ->
                   prop item key = prop existing key.

(** The serial is a string. *)
Definition stringSerial (v : value) : Prop := exists s, v = VStr s.

(** ** Properties *)

(** *** Strings *)

Lemma str_eqb_eq (a b : str) : str_eqb a b = true <-> a = b.
Proof.
  unfold str_eqb. destruct (list_eq_dec N.eq_dec a b); split; congruence.
Qed.

Lemma str_eqb_refl (a : str) : str_eqb a a = true.
Proof. apply str_eqb_eq. reflexivity. Qed.

Lemma str_eqb_neq (a b : str) : str_eqb a b = false <-> a <> b.
Proof.
  unfold str_eqb. destruct (list_eq_dec N.eq_dec a b); split; congruence.
Qed.

Lemma upFrom_In (n : nat) :
  forall lo c, (lo <= c)%N -> (c < lo + N.of_nat n)%N -> In c (upFrom n lo).
Proof.
  induction n as [|n IH]; intros lo c H1 H2.
  - exfalso. lia.
  - cbn [upFrom]. destruct (N.eq_dec lo c) as [E|E]; [left; exact E|].
    right. apply IH; lia.
Qed.

Lemma specialUpper_none (table : list (N * list N)) (c : N) :
  ~ In c (map fst table) -> specialUpper table c = None.
Proof.
  induction table as [|[c' u] rest IH]; intros H; [reflexivity|].
  cbn [specialUpper]. destruct (N.eqb_spec c c') as [->|_].
  - exfalso. apply H. left. reflexivity.
  - apply IH. intros Hin. apply H. right. exact Hin.
Qed.

Lemma simpleUpper_none (runs : list CaseRun) (c : N) :
  ~ In c (flat_map runDomain runs) -> simpleUpper runs c = None.
Proof.
  induction runs as [|r rest IH]; intros H; [reflexivity|].
  cbn [simpleUpper flat_map] in *.
  destruct (N.leb_spec (runFirst r) c) as [H1|H1];
    [destruct (N.leb_spec c (runLast r)) as [H2|H2]|]; cbn [andb].
  - exfalso. apply H. apply in_or_app. left.
    apply upFrom_In; [exact H1 | lia].
  - apply IH. intros Hin. apply H. apply in_or_app. right. exact Hin.
  - apply IH. intros Hin. apply H. apply in_or_app. right. exact Hin.
Qed.

Lemma upperCodePoint_uncased (c : N) :
  ~ In c casedCodePoints -> upperCodePoint c = [c].
Proof.
  intros H. unfold upperCodePoint, casedCodePoints in *.
  rewrite specialUpper_none, simpleUpper_none; [reflexivity| |];
    intros Hin; apply H; apply in_or_app; [right | left]; exact Hin.
Qed.

Lemma casedCodePoints_checked : forallb upperChecked casedCodePoints = true.
Proof. vm_compute. reflexivity. Qed.

Lemma upperCodePoint_checked (c : N) : upperChecked c = true.
Proof.
  destruct (in_dec N.eq_dec c casedCodePoints) as [H|H].
  - exact (proj1 (forallb_forall _ _) casedCodePoints_checked c H).
  - unfold upperChecked. rewrite (upperCodePoint_uncased c H).
    cbn [flat_map]. rewrite (upperCodePoint_uncased c H). cbn [app].
    rewrite !str_eqb_refl. cbn [negb andb forallb].
    destruct (N.eqb_spec c space) as [->|Hc].
    + reflexivity.
    + destruct (isSurrogate c); cbn [negb andb];
        destruct (N.eqb_spec c space); try contradiction; reflexivity.
Qed.

Lemma upperCodePoint_idempotent (c : N) :
  flat_map upperCodePoint (upperCodePoint c) = upperCodePoint c.
Proof.
  pose proof (upperCodePoint_checked c) as H. unfold upperChecked in H.
  rewrite !andb_true_iff in H. apply str_eqb_eq. tauto.
Qed.

Lemma upperCodePoint_nonempty (c : N) : upperCodePoint c <> [].
Proof.
  pose proof (upperCodePoint_checked c) as H. unfold upperChecked in H.
  rewrite !andb_true_iff in H. destruct H as [[[_ H] _] _].
  intros E. rewrite E in H. discriminate H.
Qed.

Lemma upperCodePoint_surrogate (c : N) :
  isSurrogate c = true -> upperCodePoint c = [c].
Proof.
  intros Hs. pose proof (upperCodePoint_checked c) as H.
  unfold upperChecked in H. rewrite Hs, !andb_true_iff in H.
  apply str_eqb_eq. tauto.
Qed.

Lemma upperCodePoint_scalar (c : N) :
  isSurrogate c = false ->
  forall x, In x (upperCodePoint c) -> isSurrogate x = false.
Proof.
  intros Hs x Hx. pose proof (upperCodePoint_checked c) as H.
  unfold upperChecked in H. rewrite Hs, !andb_true_iff in H.
  destruct H as [[_ H] _].
  apply (proj1 (forallb_forall _ _) H) in Hx.
  destruct (isSurrogate x); [discriminate Hx | reflexivity].
Qed.

(** Upper-casing neither makes nor removes a space. *)
Lemma upperCodePoint_spaces (c : N) :
  removeSpaces (upperCodePoint c)
  = if (c =? space)%N then [] else upperCodePoint c.
Proof.
  pose proof (upperCodePoint_checked c) as H.
  unfold upperChecked in H. rewrite !andb_true_iff in H.
  destruct H as [_ H]. destruct (c =? space)%N.
  - apply str_eqb_eq in H. rewrite H. reflexivity.
  - unfold removeSpaces. apply forallb_filter_id. exact H.
Qed.

(** Code points and code units. *)

Lemma codePoints_single (c : N) (r : str) :
  isHighSurrogate c && startsLow r = false ->
  codePoints (c :: r) = c :: codePoints r.
Proof.
  destruct r as [|d r]; intros H; [reflexivity|].
  cbn [startsLow] in H. cbn [codePoints]. rewrite H. reflexivity.
Qed.

Lemma codePoints_pair (c d : N) (r : str) :
  isHighSurrogate c && isLowSurrogate d = true ->
  codePoints (c :: d :: r)
  = (0x10000 + (c - 0xD800) * 0x400 + (d - 0xDC00))%N :: codePoints r.
Proof. intros H. cbn [codePoints]. rewrite H. reflexivity. Qed.

(** The induction that follows the recursion of [codePoints]. *)
Lemma codePoints_ind (P : str -> Prop) :
  P [] ->
  (forall c r, isHighSurrogate c && startsLow r = false -> P r -> P (c :: r)) ->
  (forall c d r, isHighSurrogate c && isLowSurrogate d = true ->
                 P r -> P (c :: d :: r)) ->
  forall s, P s.
Proof.
  intros Hnil Hsingle Hpair s.
  assert (H : P s /\ forall c, P (c :: s)).
  { induction s as [|d r [IH1 IH2]].
    - split; [exact Hnil|]. intros c. apply Hsingle; [|exact Hnil].
      apply andb_false_r.
    - split; [apply IH2|]. intros c.
      destruct (isHighSurrogate c && isLowSurrogate d) eqn:E.
      + apply Hpair; assumption.
      + apply Hsingle; [exact E | apply IH2]. }
  apply H.
Qed.

Lemma astral_not_surrogate (c : N) :
  (0x10000 <= c)%N -> isSurrogate c = false.
Proof.
  intros H. unfold isSurrogate, isHighSurrogate, isLowSurrogate.
  destruct (N.leb_spec c 0xDBFF); [exfalso; lia|].
  destruct (N.leb_spec c 0xDFFF); [exfalso; lia|].
  rewrite !andb_false_r. reflexivity.
Qed.

Lemma not_surrogate (c : N) :
  isSurrogate c = false -> isHighSurrogate c = false /\ isLowSurrogate c = false.
Proof. unfold isSurrogate. apply orb_false_elim. Qed.

Lemma joined_not_surrogate (c d : N) :
  isSurrogate (0x10000 + (c - 0xD800) * 0x400 + (d - 0xDC00))%N = false.
Proof. apply astral_not_surrogate. lia. Qed.

Lemma startsLow_codePoints (s : str) :
  startsLow (codePoints s) = startsLow s.
Proof.
  destruct s as [|c [|d r]]; [reflexivity | reflexivity |].
  cbn [codePoints].
  destruct (isHighSurrogate c && isLowSurrogate d) eqn:E; [|reflexivity].
  cbn [startsLow]. apply andb_true_iff in E. destruct E as [E _].
  transitivity false.
  - apply (not_surrogate _ (joined_not_surrogate c d)).
  - unfold isHighSurrogate, isLowSurrogate in *.
    apply andb_true_iff in E. destruct E as [_ E]. apply N.leb_le in E.
    destruct (N.leb_spec 0xDC00 c); [exfalso; lia | reflexivity].
Qed.

Lemma codePoints_separate (s : str) : separate (codePoints s).
Proof.
  induction s as [|c r H IH|c d r H IH] using codePoints_ind.
  - exact I.
  - rewrite (codePoints_single c r H). cbn [separate].
    rewrite startsLow_codePoints. split; assumption.
  - rewrite (codePoints_pair c d r H). cbn [separate]. split; [|exact IH].
    rewrite (proj1 (not_surrogate _ (joined_not_surrogate c d))).
    reflexivity.
Qed.

Lemma startsLow_codeUnits (l : list N) :
  startsLow (codeUnits l) = startsLow l.
Proof.
  destruct l as [|b r]; [reflexivity|].
  unfold codeUnits. cbn [flat_map]. unfold codeUnitsOf.
  destruct (N.leb_spec 0x10000 b) as [H1|H1]; cbn [andb];
    [destruct (N.leb_spec b 0x10FFFF) as [H2|H2]|]; cbn [app startsLow];
    try reflexivity.
  transitivity false.
  - unfold isLowSurrogate.
    destruct (N.leb_spec 0xDC00 (0xD800 + (b - 0x10000) / 0x400)) as [H|H];
      [|reflexivity].
    exfalso.
    assert (Hq : ((b - 0x10000) / 0x400 < 0x400)%N)
      by (apply N.Div0.div_lt_upper_bound; lia).
    lia.
  - symmetry. apply (not_surrogate _ (astral_not_surrogate _ H1)).
Qed.

Lemma codePoints_codeUnitsOf (a : N) (r : str) :
  (0x10000 <= a)%N -> (a <= 0x10FFFF)%N ->
  codePoints (codeUnitsOf a ++ r) = a :: codePoints r.
Proof.
  intros H1 H2. unfold codeUnitsOf.
  destruct (N.leb_spec 0x10000 a); [|exfalso; lia].
  destruct (N.leb_spec a 0x10FFFF); [|exfalso; lia].
  cbn [andb app].
  assert (Hq : ((a - 0x10000) / 0x400 < 0x400)%N)
    by (apply N.Div0.div_lt_upper_bound; lia).
  assert (Hm : ((a - 0x10000) mod 0x400 < 0x400)%N)
    by (apply N.mod_lt; discriminate).
  pose proof (N.div_mod' (a - 0x10000) 0x400) as Hd.
  remember ((a - 0x10000) / 0x400)%N as q.
  remember ((a - 0x10000) mod 0x400)%N as m.
  rewrite codePoints_pair.
  - f_equal. lia.
  - unfold isHighSurrogate, isLowSurrogate.
    rewrite !andb_true_iff, !N.leb_le. lia.
Qed.

Lemma codePoints_codeUnits (l : list N) :
  separate l -> codePoints (codeUnits l) = l.
Proof.
  induction l as [|a r IH]; intros H; [reflexivity|].
  destruct H as [H1 H2]. unfold codeUnits. cbn [flat_map].
  fold (codeUnits r).
  destruct (N.leb_spec 0x10000 a) as [Ha|Ha];
    [destruct (N.leb_spec a 0x10FFFF) as [Hb|Hb]|].
  - rewrite codePoints_codeUnitsOf, IH; auto.
  - unfold codeUnitsOf.
    destruct (N.leb_spec 0x10000 a); [|exfalso; lia].
    destruct (N.leb_spec a 0x10FFFF); [exfalso; lia|].
    cbn [andb app]. rewrite codePoints_single, IH; auto.
    rewrite startsLow_codeUnits. exact H1.
  - unfold codeUnitsOf.
    destruct (N.leb_spec 0x10000 a); [exfalso; lia|].
    cbn [andb app]. rewrite codePoints_single, IH; auto.
    rewrite startsLow_codeUnits. exact H1.
Qed.

Lemma startsLow_upper (l : list N) :
  startsLow (flat_map upperCodePoint l) = startsLow l.
Proof.
  destruct l as [|b r]; [reflexivity|]. cbn [flat_map startsLow].
  destruct (isSurrogate b) eqn:E.
  - rewrite (upperCodePoint_surrogate b E). reflexivity.
  - pose proof (upperCodePoint_scalar b E) as Hs.
    pose proof (upperCodePoint_nonempty b) as Hn.
    destruct (upperCodePoint b) as [|x u]; [contradiction|].
    cbn [app startsLow].
    rewrite (proj2 (not_surrogate _ (Hs x (or_introl eq_refl)))).
    symmetry. apply (not_surrogate _ E).
Qed.

Lemma separate_scalars (u l : list N) :
  (forall x, In x u -> isSurrogate x = false) ->
  separate l -> separate (u ++ l).
Proof.
  induction u as [|x u IH]; intros Hs Hl; [exact Hl|].
  cbn [app separate]. split.
  - rewrite (proj1 (not_surrogate _ (Hs x (or_introl eq_refl)))). reflexivity.
  - apply IH; [|exact Hl]. intros y Hy. apply Hs. right. exact Hy.
Qed.

Lemma separate_upper (l : list N) :
  separate l -> separate (flat_map upperCodePoint l).
Proof.
  induction l as [|a r IH]; intros H; [exact I|].
  destruct H as [H1 H2]. cbn [flat_map].
  destruct (isSurrogate a) eqn:E.
  - rewrite (upperCodePoint_surrogate a E). cbn [app separate].
    rewrite startsLow_upper. split; [exact H1 | apply IH; exact H2].
  - apply separate_scalars; [apply upperCodePoint_scalar; exact E|].
    apply IH. exact H2.
Qed.

Lemma upper_idempotent (l : list N) :
  flat_map upperCodePoint (flat_map upperCodePoint l)
  = flat_map upperCodePoint l.
Proof.
  induction l as [|a r IH]; [reflexivity|].
  cbn [flat_map]. rewrite flat_map_app, IH, upperCodePoint_idempotent.
  reflexivity.
Qed.

Lemma toUpperCase_idempotent (s : str) :
  toUpperCase (toUpperCase s) = toUpperCase s.
Proof.
  unfold toUpperCase.
  rewrite codePoints_codeUnits, upper_idempotent; [reflexivity|].
  apply separate_upper, codePoints_separate.
Qed.

(** Spaces. *)

Lemma removeSpaces_app (a b : str) :
  removeSpaces (a ++ b) = removeSpaces a ++ removeSpaces b.
Proof. unfold removeSpaces. apply filter_app. Qed.

Lemma removeSpaces_idempotent (s : str) :
  removeSpaces (removeSpaces s) = removeSpaces s.
Proof.
  unfold removeSpaces. induction s as [|c s IH]; [reflexivity|].
  simpl. destruct (c =? space)%N eqn:E; simpl; [assumption|].
  rewrite E. simpl. f_equal. assumption.
Qed.

Lemma removeSpaces_codeUnitsOf (a : N) :
  removeSpaces (codeUnitsOf a)
  = if (a =? space)%N then [] else codeUnitsOf a.
Proof.
  unfold codeUnitsOf, removeSpaces, space.
  destruct (N.leb_spec 0x10000 a) as [H1|H1]; cbn [andb];
    [destruct (N.leb_spec a 0x10FFFF) as [H2|H2]|]; cbn [andb filter].
  - generalize ((a - 0x10000) / 0x400)%N ((a - 0x10000) mod 0x400)%N.
    intros q m.
    destruct (N.eqb_spec (0xD800 + q) 32); [exfalso; lia|].
    destruct (N.eqb_spec (0xDC00 + m) 32); [exfalso; lia|].
    destruct (N.eqb_spec a 32); [exfalso; lia | reflexivity].
  - destruct (a =? 32)%N; reflexivity.
  - destruct (a =? 32)%N; reflexivity.
Qed.

Lemma removeSpaces_codeUnits (l : list N) :
  removeSpaces (codeUnits l) = codeUnits (removeSpaces l).
Proof.
  induction l as [|a r IH]; [reflexivity|].
  unfold codeUnits in *. cbn [flat_map].
  rewrite removeSpaces_app, IH, removeSpaces_codeUnitsOf.
  unfold removeSpaces at 2. cbn [filter]. fold (removeSpaces r).
  destruct (a =? space)%N; reflexivity.
Qed.

Lemma removeSpaces_upper (l : list N) :
  removeSpaces (flat_map upperCodePoint l)
  = flat_map upperCodePoint (removeSpaces l).
Proof.
  induction l as [|a r IH]; [reflexivity|].
  cbn [flat_map]. rewrite removeSpaces_app, IH, upperCodePoint_spaces.
  unfold removeSpaces at 2. cbn [filter]. fold (removeSpaces r).
  destruct (a =? space)%N; reflexivity.
Qed.

Lemma surrogate_not_space (c : N) : isSurrogate c = true -> (c =? space)%N = false.
Proof.
  unfold isSurrogate, isHighSurrogate, isLowSurrogate, space. intros H.
  destruct (N.eqb_spec c 32) as [->|]; [discriminate H | reflexivity].
Qed.

(** In a well-formed string no two surrogates come together when the
    spaces between them are removed. *)
Lemma codePoints_removeSpaces (s : str) :
  isWellFormed s = true ->
  codePoints (removeSpaces s) = removeSpaces (codePoints s).
Proof.
  unfold isWellFormed.
  induction s as [|c r H IH|c d r H IH] using codePoints_ind; intros Hw.
  - reflexivity.
  - rewrite (codePoints_single c r H) in *. cbn [forallb] in Hw.
    apply andb_true_iff in Hw. destruct Hw as [Hc Hw].
    apply negb_true_iff in Hc.
    unfold removeSpaces in *. cbn [filter].
    destruct (negb (c =? space)%N); [|apply IH; exact Hw].
    rewrite codePoints_single, (IH Hw); [reflexivity|].
    rewrite (proj1 (not_surrogate _ Hc)). reflexivity.
  - rewrite (codePoints_pair c d r H) in *. cbn [forallb] in Hw.
    apply andb_true_iff in Hw. destruct Hw as [_ Hw].
    pose proof H as H'. apply andb_true_iff in H'. destruct H' as [Hc Hd].
    unfold removeSpaces in *. cbn [filter].
    rewrite (surrogate_not_space c), (surrogate_not_space d);
      [|unfold isSurrogate; rewrite Hd; apply orb_true_r
       |unfold isSurrogate; rewrite Hc; reflexivity].
    cbn [negb]. rewrite (codePoints_pair c d _ H), (IH Hw).
    destruct (N.eqb_spec (0x10000 + (c - 0xD800) * 0x400 + (d - 0xDC00)) space)
      as [E|_]; [unfold space in E; exfalso; lia | reflexivity].
Qed.

Lemma In_space_codePoints (s : str) : In space (codePoints s) <-> In space s.
Proof.
  induction s as [|c r H IH|c d r H IH] using codePoints_ind.
  - reflexivity.
  - rewrite (codePoints_single c r H). cbn [In]. rewrite IH. reflexivity.
  - rewrite (codePoints_pair c d r H). cbn [In]. rewrite IH.
    apply andb_true_iff in H. destruct H as [Hc Hd].
    pose proof (surrogate_not_space c) as Sc.
    pose proof (surrogate_not_space d) as Sd.
    unfold isSurrogate in Sc, Sd. rewrite Hc in Sc. rewrite Hd, orb_true_r in Sd.
    specialize (Sc eq_refl). specialize (Sd eq_refl).
    apply N.eqb_neq in Sc, Sd. unfold space in *.
    split; [intros [E|E]; [exfalso; lia | tauto] | intros [E|[E|E]]; [congruence | congruence | tauto]].
Qed.

Lemma In_space_codeUnitsOf (a : N) :
  In space (codeUnitsOf a) <-> a = space.
Proof.
  unfold codeUnitsOf, space.
  destruct (N.leb_spec 0x10000 a) as [H1|H1]; cbn [andb];
    [destruct (N.leb_spec a 0x10FFFF) as [H2|H2]|]; cbn [andb In];
    [|tauto|tauto].
  generalize ((a - 0x10000) / 0x400)%N ((a - 0x10000) mod 0x400)%N.
  intros q m. split; [intros [H|[H|[]]] | intros H]; exfalso; lia.
Qed.

Lemma In_space_codeUnits (l : list N) : In space (codeUnits l) <-> In space l.
Proof.
  induction l as [|a r IH]; [reflexivity|].
  unfold codeUnits in *. cbn [flat_map In].
  rewrite in_app_iff, IH, In_space_codeUnitsOf. reflexivity.
Qed.

Lemma In_space_upper (l : list N) :
  In space (flat_map upperCodePoint l) <-> In space l.
Proof.
  induction l as [|a r IH]; [reflexivity|].
  cbn [flat_map In]. rewrite in_app_iff, IH.
  assert (Ha : In space (upperCodePoint a) <-> a = space).
  { pose proof (upperCodePoint_spaces a) as H.
    pose proof (upperCodePoint_nonempty a) as Hn.
    destruct (N.eqb_spec a space) as [->|Hne].
    - split; [reflexivity|]. intros _.
      destruct (upperCodePoint space) as [|x u]; [contradiction|].
      unfold removeSpaces in H. cbn [filter] in H.
      destruct (N.eqb_spec x space) as [->|Hx]; [left; reflexivity|].
      discriminate H.
    - split; [|intros E; exfalso; apply Hne; exact E].
      intros Hin. exfalso. rewrite <- H in Hin. unfold removeSpaces in Hin.
      apply filter_In in Hin. destruct Hin as [_ Hin].
      rewrite N.eqb_refl in Hin. discriminate Hin. }
  tauto.
Qed.

Lemma mergeKey_upper (s : str) : mergeKey (toUpperCase s) = mergeKey s.
Proof. unfold mergeKey. rewrite toUpperCase_idempotent. reflexivity. Qed.

Lemma toUpperCase_removeSpaces (s : str) :
  isWellFormed s = true ->
  toUpperCase (removeSpaces s) = removeSpaces (toUpperCase s).
Proof.
  intros H. unfold toUpperCase.
  rewrite (codePoints_removeSpaces s H), removeSpaces_codeUnits,
    removeSpaces_upper.
  reflexivity.
Qed.

Lemma mergeKey_spaces (s : str) :
  isWellFormed s = true -> mergeKey (removeSpaces s) = mergeKey s.
Proof.
  intros H. unfold mergeKey.
  rewrite (toUpperCase_removeSpaces s H). apply removeSpaces_idempotent.
Qed.

Lemma toUpperCase_spaces (s : str) :
  In space (toUpperCase s) <-> In space s.
Proof.
  unfold toUpperCase.
  rewrite In_space_codeUnits, In_space_upper, In_space_codePoints.
  reflexivity.
Qed.

Lemma mergeKey_no_space (s : str) : ~ In space (mergeKey s).
Proof.
  unfold mergeKey, removeSpaces. intros H. apply filter_In in H.
  destruct H as [_ H]. rewrite N.eqb_refl in H. discriminate H.
Qed.

(** *** The tokenizer *)

Lemma splitLoop_length (line : str) :
  forall result current inQuote,
    List.length (splitLoop line result current inQuote)
    = List.length result + S (separatorsFrom inQuote line).
Proof.
  induction line as [|c rest IH]; intros result current inQuote; simpl.
  - rewrite length_app. reflexivity.
  - destruct (c =? quote)%N; [apply IH|].
    destruct ((c =? comma)%N && negb inQuote).
    + rewrite IH, length_app. simpl. lia.
    + apply IH.
Qed.

Lemma separatorsFrom_index (suf : str) :
  forall pre,
    separatorsFrom (Nat.odd (count_occ N.eq_dec pre quote)) suf
    = List.length (filter (isUnquotedSeparator (pre ++ suf))
                          (seq (List.length pre) (List.length suf))).
Proof.
  induction suf as [|c suf IH]; intros pre; [reflexivity|].
  specialize (IH (pre ++ [c])).
  rewrite <- app_assoc, length_app, Nat.add_1_r, count_occ_app in IH.
  simpl app in IH.
  cbn [List.length seq filter separatorsFrom].
  assert (Hhead : isUnquotedSeparator (pre ++ c :: suf) (List.length pre)
                  = (c =? comma)%N
                    && Nat.even (count_occ N.eq_dec pre quote)).
  { unfold isUnquotedSeparator, quotesBefore.
    rewrite nth_middle, firstn_app, firstn_all, Nat.sub_diag, app_nil_r.
    reflexivity. }
  rewrite Hhead. clear Hhead.
  cbn [count_occ] in IH. rewrite <- Nat.negb_odd.
  destruct (N.eq_dec c quote) as [->|Hq].
  - rewrite N.eqb_refl. change ((quote =? comma)%N) with false.
    cbn [andb]. rewrite <- IH, Nat.add_1_r, Nat.odd_succ, <- Nat.negb_odd.
    reflexivity.
  - destruct (N.eqb_spec c quote) as [|_]; [contradiction|].
    rewrite Nat.add_0_r in IH.
    destruct ((c =? comma)%N && negb (Nat.odd (count_occ N.eq_dec pre quote)));
      cbn [List.length]; rewrite IH; reflexivity.
Qed.

Lemma splitLoop_quoted (inner : str) :
  ~ In quote inner ->
  forall rest result current,
    splitLoop (inner ++ rest) result current true
    = splitLoop rest result (current ++ inner) true.
Proof.
  induction inner as [|c inner IH]; intros Hq rest result current.
  - rewrite app_nil_r. reflexivity.
  - simpl. destruct (N.eqb_spec c quote) as [->|_].
    + exfalso. apply Hq. left. reflexivity.
    + rewrite andb_false_r, IH, <- app_assoc; [reflexivity|].
      intros H. apply Hq. right. exact H.
Qed.

(** C9.  [splitCsvLine] is a total function from lines to lists of
    fields (it has no failing case, and always returns at least one
    field); a line with N commas outside double quotes gives exactly
    N+1 fields; a quoted text without inner quotes
    is one field however many commas it holds; and the line
    a, quote b,c quote, d gives the three fields a / b,c / d. *)
Theorem splitCsvLine_field_count :
  (forall line : str,
      List.length (splitCsvLine line) = unquotedSeparators line + 1)
  /\ (forall line : str,
         exists first rest, splitCsvLine line = first :: rest)
  /\ (forall inner : str,
         ~ In quote inner ->
         splitCsvLine (quote :: inner ++ [quote]) = [field inner])
  /\ splitCsvLine (lit "a," ++ quote :: lit "b,c" ++ quote :: lit ",d")
     = [lit "a"; lit "b,c"; lit "d"].
Proof.
  assert (Hcount : forall line : str,
             List.length (splitCsvLine line) = unquotedSeparators line + 1).
  { intros line. unfold splitCsvLine, unquotedSeparators.
    rewrite splitLoop_length.
    change (separatorsFrom false line)
      with (separatorsFrom (Nat.odd (count_occ N.eq_dec (@nil N) quote)) line).
    rewrite (separatorsFrom_index line []). simpl. lia. }
  split; [exact Hcount|]. split; [|split].
  - intros line. specialize (Hcount line).
    destruct (splitCsvLine line) as [|first rest].
    + simpl in Hcount. lia.
    + exists first, rest. reflexivity.
  - intros inner Hq. unfold splitCsvLine. simpl.
    rewrite (splitLoop_quoted inner Hq). reflexivity.
  - vm_compute. reflexivity.
Qed.

Lemma splitCsvLine_field_count_witness :
  ~ In quote (lit "b,c")
  /\ splitCsvLine (quote :: lit "b,c" ++ [quote]) = [field (lit "b,c")].
Proof.
  assert (H : ~ In quote (lit "b,c")).
  { vm_compute. intros [H|[H|[H|[]]]]; discriminate H. }
  split; [exact H|].
  exact (proj1 (proj2 (proj2 splitCsvLine_field_count)) (lit "b,c") H).
Defined.

(** *** The merge key *)

(** C5, as stated, fails for periodic reconciliation: the keys of
    SN 123 and sn123 agree in the wording of the specification, but the
    route compares the upper-cased serials with their spaces, so the
    request for sn123 does not meet the stored SN 123 and is inserted as
    a new row. *)
Lemma reconcile_key_keeps_spaces :
  Spec.mergeKey (lit "SN 123") = Spec.mergeKey (lit "sn123")
  /\ upperOf (VStr (lit "SN 123")) <> upperOf (VStr (lit "sn123"))
  /\ runStatements Examples.dbSpaced Examples.admin Examples.requestUnspaced
     = Ok [Insert
             [ ("serial", VStr (lit "sn123"));
               ("usuarioAtual", VStr (lit "Bob"));
               ("status", VStr emUso);
               ("approval_status", VStr approved);
               ("created_by_id", VNum 1) ]%string
             VUndefined].
Proof.
  split; [|split].
  - vm_compute. reflexivity.
  - vm_compute. intros H. discriminate H.
  - vm_compute. reflexivity.
Qed.

(** *** The record parser *)

Lemma filterMap_Forall {A B : Type} (f : A -> option B) (P : B -> Prop) :
  (forall a b, f a = Some b -> P b) ->
  forall l, Forall P (filterMap f l).
Proof.
  intros H l. induction l as [|a l IH]; simpl; [constructor|].
  destruct (f a) eqn:E; [constructor; [apply (H a); exact E | exact IH] | exact IH].
Qed.

Lemma parseRow_serial (mappings : Mappings) (header : list str) (row : str)
      (entry : PartialEquipment) :
  parseRow mappings header row = Some entry -> serialPresent entry.
Proof.
  unfold parseRow, serialPresent.
  destruct (isEmpty (trim row)); [discriminate|].
  destruct (field_get _ "serial") as [serial|] eqn:E; [|discriminate].
  destruct (isEmpty serial || isEmpty (trim serial)) eqn:B; [discriminate|].
  intros H. injection H as <-. exists serial. split; [exact E|].
  apply orb_false_elim in B. destruct B as [_ B].
  destruct (trim serial); [discriminate B | discriminate].
Qed.

Lemma parseRow_blank_serial (mappings : Mappings) (header : list str)
      (row : str) :
  (forall serial,
      field_get (fillEntry mappings (splitCsvLine row) header 0 []) "serial"
      = Some serial -> trim serial = []) ->
  parseRow mappings header row = None.
Proof.
  intros H. unfold parseRow.
  destruct (isEmpty (trim row)); [reflexivity|].
  destruct (field_get _ "serial") as [serial|] eqn:E; [|reflexivity].
  rewrite (H serial eq_refl). rewrite orb_true_r. reflexivity.
Qed.

(** C8.  Every record [parseCsv] returns, for any text and any column
    table, has a serial that is not empty after trimming, and so has
    every record of [parseAbsoluteCsv]; a row whose serial is missing,
    empty or blank yields no record; the CSV with header
    SERIAL,EQUIPAMENTO and the single data row with an empty first cell
    and My PC in quotes gives no record at all, with either column
    table. *)
Theorem parseCsv_serial_required :
  (forall (fileText : str) (mappings : Mappings)
          (records : list PartialEquipment),
      parseCsv fileText mappings = Ok records ->
      Forall serialPresent records)
  /\ (forall (fileText : str) (records : list PartialEquipment),
         parseAbsoluteCsv fileText = Ok records ->
         Forall serialPresent records)
  /\ (forall (mappings : Mappings) (header : list str) (row : str),
         (forall serial,
             field_get (fillEntry mappings (splitCsvLine row) header 0 [])
                       "serial" = Some serial ->
             trim serial = []) ->
         parseRow mappings header row = None)
  /\ parseCsv Examples.csvWithoutSerial baseMappings = Ok []
  /\ parseAbsoluteCsv Examples.csvWithoutSerial = Ok [].
Proof.
  assert (H : forall fileText mappings records,
             parseCsv fileText mappings = Ok records ->
             Forall serialPresent records).
  { intros fileText mappings records. unfold parseCsv.
    destruct (List.length (splitLines (trim fileText)) <? 2)%nat;
      [discriminate|].
    intros E. injection E as <-.
    apply filterMap_Forall. intros a b. apply parseRow_serial. }
  split; [exact H|]. split; [|split; [|split]].
  - intros fileText records. apply H.
  - apply parseRow_blank_serial.
  - vm_compute. reflexivity.
  - vm_compute. reflexivity.
Qed.

Lemma parseCsv_serial_required_witness :
  parseAbsoluteCsv Examples.absoluteReport = Ok [Examples.absoluteRecord]
  /\ Forall serialPresent [Examples.absoluteRecord].
Proof.
  assert (H : parseAbsoluteCsv Examples.absoluteReport
              = Ok [Examples.absoluteRecord]).
  { vm_compute. reflexivity. }
  split; [exact H|].
  exact (proj1 (proj2 parseCsv_serial_required) Examples.absoluteReport
               [Examples.absoluteRecord] H).
Defined.

(** *** Objects and maps *)

Section AssocFacts.
Context {K V : Type} (eqb : K -> K -> bool).
Hypothesis eqb_eq : forall a b, eqb a b = true <-> a = b.

Lemma eqb_same (a : K) : eqb a a = true.
Proof. apply eqb_eq. reflexivity. Qed.

Lemma eqb_differ (a b : K) : a <> b -> eqb a b = false.
Proof.
  intros H. destruct (eqb a b) eqn:E; [|reflexivity].
  apply eqb_eq in E. contradiction.
Qed.

Lemma get_set_same (o : list (K * V)) (k : K) (v : V) :
  Assoc.get eqb (Assoc.set eqb o k v) k = Some v.
Proof.
  induction o as [|[k' v'] o IH]; simpl.
  - rewrite eqb_same. reflexivity.
  - destruct (eqb k k') eqn:E; simpl; rewrite E; [reflexivity | exact IH].
Qed.

Lemma get_set_other (o : list (K * V)) (k k' : K) (v : V) :
  k <> k' -> Assoc.get eqb (Assoc.set eqb o k v) k' = Assoc.get eqb o k'.
Proof.
  intros H. induction o as [|[k0 v0] o IH]; simpl.
  - rewrite (eqb_differ _ _ (not_eq_sym H)). reflexivity.
  - destruct (eqb k k0) eqn:E; simpl.
    + apply eqb_eq in E. subst k0.
      rewrite (eqb_differ _ _ (not_eq_sym H)). reflexivity.
    + destruct (eqb k' k0); [reflexivity | exact IH].
Qed.

Lemma get_absent (o : list (K * V)) (k : K) :
  ~ In k (Assoc.keys o) -> Assoc.get eqb o k = None.
Proof.
  induction o as [|[k' v'] o IH]; simpl; intros H; [reflexivity|].
  destruct (eqb k k') eqn:E.
  - apply eqb_eq in E. exfalso. apply H. left. symmetry. exact E.
  - apply IH. intros H'. apply H. right. exact H'.
Qed.

Lemma get_present (o : list (K * V)) (k : K) (v : V) :
  Assoc.get eqb o k = Some v -> In k (Assoc.keys o).
Proof.
  induction o as [|[k' v'] o IH]; simpl; [discriminate|].
  destruct (eqb k k') eqn:E.
  - apply eqb_eq in E. intros _. left. symmetry. exact E.
  - intros H. right. apply IH. exact H.
Qed.

Lemma keys_set (o : list (K * V)) (k : K) (v : V) :
  Assoc.keys (Assoc.set eqb o k v)
  = if existsb (eqb k) (Assoc.keys o) then Assoc.keys o
    else Assoc.keys o ++ [k].
Proof.
  induction o as [|[k' v'] o IH]; simpl; [reflexivity|].
  destruct (eqb k k'); simpl; [reflexivity|].
  rewrite IH. destruct (existsb (eqb k) (Assoc.keys o)); reflexivity.
Qed.

Lemma set_uniqueKeys (o : list (K * V)) (k : K) (v : V) :
  NoDup (Assoc.keys o) -> NoDup (Assoc.keys (Assoc.set eqb o k v)).
Proof.
  intros H. rewrite keys_set.
  destruct (existsb (eqb k) (Assoc.keys o)) eqn:E; [exact H|].
  apply NoDup_app; [exact H | repeat constructor; intros [] |].
  intros x Hx [<-|[]].
  assert (existsb (eqb k) (Assoc.keys o) = true); [|congruence].
  apply existsb_exists. exists k. split; [exact Hx | apply eqb_same].
Qed.

(** The shallow merge: a key of [b] takes the value [b] gives it, any
    other key keeps the value of [a]. *)
Lemma get_spread (b : list (K * V)) :
  NoDup (Assoc.keys b) ->
  forall (a : list (K * V)) (k : K),
    Assoc.get eqb (Assoc.spread eqb a b) k
    = match Assoc.get eqb b k with
      | Some v => Some v
      | None => Assoc.get eqb a k
      end.
Proof.
  unfold Assoc.spread.
  induction b as [|[k1 v1] b IH]; intros Hb a k; [reflexivity|].
  simpl in Hb. inversion Hb as [|? ? Hk1 Hb']; subst.
  simpl. rewrite (IH Hb').
  destruct (eqb k k1) eqn:E.
  - apply eqb_eq in E. subst k1.
    rewrite (get_absent b k Hk1). apply get_set_same.
  - destruct (Assoc.get eqb b k); [reflexivity|].
    apply get_set_other. intros ->. rewrite eqb_same in E. discriminate.
Qed.
End AssocFacts.

Lemma string_eqb_eq (a b : string) : String.eqb a b = true <-> a = b.
Proof. apply String.eqb_eq. Qed.

(** *** Consolidation *)

Lemma lastOf_cons {A : Type} (a : A) (l : list A) :
  lastOf (a :: l) = match lastOf l with Some x => Some x | None => Some a end.
Proof.
  unfold lastOf. simpl. destruct (rev l); reflexivity.
Qed.

Lemma insertBase_get (baseData : list PartialEquipment) :
  forall m m',
    insertBase baseData m = Ok m' ->
    forall k,
      Assoc.get str_eqb m' k
      = match lastOf (withKey k baseData) with
        | Some b => Some b
        | None => Assoc.get str_eqb m k
        end.
Proof.
  induction baseData as [|b rest IH]; intros m m' H k; simpl in H.
  - injection H as <-. reflexivity.
  - unfold withKey. simpl. unfold hasKey at 1.
    destruct (keyOf b) as [kb|] eqn:Eb; simpl in H; [|discriminate].
    rewrite (IH _ m' H k). fold (withKey k rest).
    destruct (str_eqb kb k) eqn:E.
    + apply str_eqb_eq in E. subst kb. rewrite lastOf_cons.
      destruct (lastOf (withKey k rest)); [reflexivity|].
      apply (get_set_same str_eqb str_eqb_eq).
    + destruct (lastOf (withKey k rest)); [reflexivity|].
      apply (get_set_other str_eqb str_eqb_eq). apply str_eqb_neq. exact E.
Qed.

Lemma overlayAbsolute_get (absoluteData : list PartialEquipment) :
  forall m m',
    overlayAbsolute absoluteData m = Ok m' ->
    forall k,
      Assoc.get str_eqb m' k
      = match withKey k absoluteData with
        | [] => Assoc.get str_eqb m k
        | overlays =>
            Some (fold_left (Assoc.spread String.eqb) overlays
                            (orEmpty (Assoc.get str_eqb m k)))
        end.
Proof.
  induction absoluteData as [|a rest IH]; intros m m' H k; simpl in H.
  - injection H as <-. reflexivity.
  - unfold withKey. simpl. unfold hasKey at 1.
    destruct (keyOf a) as [ka|] eqn:Ea; simpl in H; [|discriminate].
    rewrite (IH _ m' H k). fold (withKey k rest).
    destruct (str_eqb ka k) eqn:E.
    + apply str_eqb_eq in E. subst ka.
      rewrite (get_set_same str_eqb str_eqb_eq).
      fold (orEmpty (Assoc.get str_eqb m k)).
      destruct (withKey k rest); reflexivity.
    + rewrite (get_set_other str_eqb str_eqb_eq); [reflexivity|].
      apply str_eqb_neq. exact E.
Qed.

Lemma fillEntry_uniqueKeys (mappings : Mappings) (values : list str)
      (header : list str) :
  forall index entry,
    uniqueKeys entry ->
    uniqueKeys (fillEntry mappings values header index entry).
Proof.
  induction header as [|colName rest IH]; intros index entry H; simpl;
    [exact H|].
  apply IH. destruct (truthyName _) as [key|]; [|exact H].
  destruct (index <? List.length values)%nat; [|exact H].
  apply (set_uniqueKeys String.eqb string_eqb_eq). exact H.
Qed.

Lemma parseRow_uniqueKeys (mappings : Mappings) (header : list str)
      (row : str) (entry : PartialEquipment) :
  parseRow mappings header row = Some entry -> uniqueKeys entry.
Proof.
  unfold parseRow. destruct (isEmpty (trim row)); [discriminate|].
  destruct (field_get _ "serial") as [serial|]; [|discriminate].
  destruct (isEmpty serial || isEmpty (trim serial)); [discriminate|].
  intros H. injection H as <-. apply fillEntry_uniqueKeys. constructor.
Qed.

Lemma parseCsv_uniqueKeys (fileText : str) (mappings : Mappings)
      (records : list PartialEquipment) :
  parseCsv fileText mappings = Ok records -> Forall uniqueKeys records.
Proof.
  unfold parseCsv.
  destruct (List.length (splitLines (trim fileText)) <? 2)%nat;
    [discriminate|].
  intros E. injection E as <-.
  apply filterMap_Forall. intros a b. apply parseRow_uniqueKeys.
Qed.

(** *** The import route *)

Lemma importLoop_rows (equipmentList : list jsobj) :
  forall db,
    equipment (importLoop equipmentList db)
    = equipment db ++ importRows (auto_increment db) equipmentList
    /\ equipment_history (importLoop equipmentList db) = equipment_history db
    /\ auto_increment (importLoop equipmentList db)
       = (auto_increment db + Z.of_nat (List.length equipmentList))%Z.
Proof.
  induction equipmentList as [|item rest IH]; intros db.
  - simpl. rewrite app_nil_r, Z.add_0_r. auto.
  - cbn [importLoop importRows].
    destruct (IH {| equipment := equipment db ++ [importRow (auto_increment db) item];
                    equipment_history := equipment_history db;
                    auto_increment := (auto_increment db + 1)%Z;
                    app_config := app_config db |}) as [Hr [Hh Ha]].
    rewrite Hr, Hh, Ha. cbn [equipment equipment_history auto_increment].
    rewrite <- app_assoc. cbn [app List.length].
    split; [reflexivity|]. split; [reflexivity|].
    rewrite Nat2Z.inj_succ. clear. lia.
Qed.

Lemma importRows_length (equipmentList : list jsobj) :
  forall id, List.length (importRows id equipmentList) = List.length equipmentList.
Proof.
  induction equipmentList as [|item rest IH]; intros id; simpl;
    [reflexivity | rewrite IH; reflexivity].
Qed.

Lemma importRows_nth (equipmentList : list jsobj) :
  forall id i item,
    nth_error equipmentList i = Some item ->
    nth_error (importRows id equipmentList) i
    = Some (importRow (id + Z.of_nat i) item).
Proof.
  induction equipmentList as [|x rest IH]; intros id i item H.
  - destruct i; discriminate H.
  - destruct i as [|i]; simpl in H.
    + injection H as <-. simpl. rewrite Z.add_0_r. reflexivity.
    + cbn [importRows nth_error]. rewrite (IH (id + 1)%Z i item H).
      do 2 f_equal. lia.
Qed.

Lemma toSql_idempotent (v : value) : toSql (toSql v) = toSql v.
Proof. destruct v; reflexivity. Qed.

Lemma toSql_orNull (v : value) : toSql (orNull v) = orNull v.
Proof. destruct v; try reflexivity; unfold orNull; simpl.
  - destruct (negb (n =? 0)%Z); reflexivity.
  - destruct (negb (isEmpty s)); reflexivity.
Qed.

Lemma importRow_copied (id : Z) (item : jsobj) (c : string) :
  In c copiedColumns -> column (importRow id item) c = toSql (prop item c).
Proof.
  unfold copiedColumns. intros H.
  repeat (destruct H as [<-|H]; [apply toSql_idempotent|]).
  destruct H.
Qed.

Lemma importLoop_config (equipmentList : list jsobj) :
  forall db, app_config (importLoop equipmentList db) = app_config db.
Proof.
  induction equipmentList as [|item rest IH]; intros db; [reflexivity|].
  cbn [importLoop]. rewrite IH. reflexivity.
Qed.

(** The loop of the inserts outside a transaction: every row it has
    written is durable, and it stops at the first record refused. *)
Lemma importInserts_durable (equipmentList : list jsobj) :
  forall c,
    inTransaction c = false -> pending c = stored c ->
    pending (fst (importInserts equipmentList c))
    = stored (fst (importInserts equipmentList c))
    /\ exists k,
        stored (fst (importInserts equipmentList c))
        = importLoop (firstn k equipmentList) (stored c)
        /\ match snd (importInserts equipmentList c) with
           | Ok _ => k = List.length equipmentList
           | Throw message =>
               (k < List.length equipmentList)%nat
               /\ refusal
                    (equipment (stored (fst (importInserts equipmentList c))))
                    (importRow
                       (auto_increment
                          (stored (fst (importInserts equipmentList c))))
                       (nth k equipmentList []))
                  = Some message
           end.
Proof.
  induction equipmentList as [|item rest IH]; intros c Ht Hp.
  - split; [exact Hp|]. exists 0%nat. split; reflexivity.
  - cbn [importInserts].
    destruct (refusal _ _) as [message|] eqn:Er.
    + cbn [fst snd]. split; [exact Hp|]. exists 0%nat.
      split; [reflexivity|]. split; [apply Nat.lt_0_succ|].
      cbn [nth]. rewrite <- Hp. exact Er.
    + destruct (IH (query (importLoop [item]) c)) as [Hp' [k [Hs Hr]]].
      * unfold query. cbn [inTransaction]. exact Ht.
      * unfold query. cbn [pending stored]. rewrite Ht. reflexivity.
      * split; [exact Hp'|]. exists (S k). cbn [List.length firstn nth].
        split.
        -- rewrite Hs. unfold query. cbn [stored]. rewrite Ht, Hp.
           reflexivity.
        -- destruct (snd (importInserts rest (query (importLoop [item]) c)));
             [f_equal; exact Hr|].
           destruct Hr as [Hk Hm].
           split; [apply -> Nat.succ_lt_mono; exact Hk | exact Hm].
Qed.

(** What the route leaves in the store: after the [ALTER TABLE] the
    emptied tables are durable, and so is every row inserted since. *)
Lemma importRoute_stored (db : Db) (equipmentList : list jsobj) (now : str) :
  (snd (importRoute db equipmentList now) = Ok tt
   /\ fst (importRoute db equipmentList now)
      = importEquipment db equipmentList now)
  \/ (exists message k,
         snd (importRoute db equipmentList now) = Throw message
         /\ (k < List.length equipmentList)%nat
         /\ fst (importRoute db equipmentList now)
            = importLoop (firstn k equipmentList)
                {| equipment := []; equipment_history := [];
                   auto_increment := 1; app_config := app_config db |}
         /\ refusal (equipment (fst (importRoute db equipmentList now)))
                    (importRow
                       (auto_increment (fst (importRoute db equipmentList now)))
                       (nth k equipmentList []))
            = Some message).
Proof.
  unfold importRoute.
  set (c := alterTable resetCounter
              (query deleteEquipment
                 (query deleteHistory (beginTransaction (getConnection db))))).
  destruct (importInserts_durable equipmentList c eq_refl eq_refl)
    as [Hp [k [Hs Hr]]].
  change (stored c)
    with {| equipment := []; equipment_history := [];
            auto_increment := 1; app_config := app_config db |} in Hs.
  destruct (importInserts equipmentList c) as [c' [[]|message]];
    cbn [fst snd] in *.
  - left. split; [reflexivity|].
    unfold commit, query, setConfig. cbn [stored pending].
    subst k. rewrite firstn_all in Hs. rewrite Hp, Hs. reflexivity.
  - right. exists message, k. destruct Hr as [Hk Hm].
    split; [reflexivity|]. split; [exact Hk|]. split; [exact Hs | exact Hm].
Qed.

(** X21.  When the import route answers with success, the store holds
    what [importEquipment] describes: no history, and one row per
    record of the list and nothing else, in the order of the list, with
    identifiers 1, 2, ...  The row of a record carries approval_status
    approved and created_by_id 1; a text column of the statement takes
    the text of the record, and NULL where the record has none;
    dataEntregaUsuario takes the text of the record when it is not
    empty and NULL otherwise.  (The row of the model holds what the
    statement gives the column; the store keeps a DATE column as the
    date the text denotes.) *)
Theorem import_replaces_everything :
  forall (db : Db) (equipmentList : list jsobj) (now : str) (db' : Db),
    importRoute db equipmentList now = (db', Ok tt) ->
    db' = importEquipment db equipmentList now
    /\ equipment_history db' = []
    /\ List.length (equipment db') = List.length equipmentList
    /\ auto_increment db' = (1 + Z.of_nat (List.length equipmentList))%Z
    /\ forall (i : nat) (item : jsobj),
        nth_error equipmentList i = Some item ->
        exists row,
          nth_error (equipment db') i = Some row
          /\ column row "id" = VNum (Z.of_nat i + 1)
          /\ column row "approval_status" = VStr approved
          /\ column row "created_by_id" = VNum 1
          /\ (forall c s, In c copiedColumns -> prop item c = VStr s ->
                          column row c = VStr s)
          /\ (forall c, In c copiedColumns ->
                        prop item c = VUndefined \/ prop item c = VNull ->
                        column row c = VNull)
          /\ (forall s, prop item "dataEntregaUsuario" = VStr s -> s <> [] ->
                        column row "dataEntregaUsuario" = VStr s)
          /\ (prop item "dataEntregaUsuario" = VUndefined
              \/ prop item "dataEntregaUsuario" = VNull
              \/ prop item "dataEntregaUsuario" = VStr [] ->
              column row "dataEntregaUsuario" = VNull).
Proof.
  intros db equipmentList now db' H.
  destruct (importRoute_stored db equipmentList now)
    as [[_ Hdb]|[message [k [Hthrow _]]]];
    [|rewrite H in Hthrow; discriminate Hthrow].
  rewrite H in Hdb. cbn [fst] in Hdb. subst db'.
  split; [reflexivity|].
  unfold importEquipment. cbn [equipment equipment_history auto_increment].
  destruct (importLoop_rows equipmentList
              {| equipment := []; equipment_history := [];
                 auto_increment := 1; app_config := app_config db |})
    as [Hr [Hh Ha]].
  cbn [equipment equipment_history auto_increment app] in Hr, Hh, Ha.
  rewrite Hr, Hh, Ha, importRows_length.
  split; [reflexivity|]. split; [reflexivity|]. split; [reflexivity|].
  intros i item Hi. exists (importRow (1 + Z.of_nat i) item).
  split; [apply importRows_nth; exact Hi|].
  replace (1 + Z.of_nat i)%Z with (Z.of_nat i + 1)%Z by lia.
  split; [reflexivity|].
  split; [reflexivity|]. split; [reflexivity|].
  split; [|split; [|split]].
  - intros c s Hc Hs. rewrite (importRow_copied _ item c Hc), Hs. reflexivity.
  - intros c Hc [Hs|Hs]; rewrite (importRow_copied _ item c Hc), Hs;
      reflexivity.
  - intros s Hs Hne.
    change (column (importRow (Z.of_nat i + 1) item) "dataEntregaUsuario")
      with (toSql (orNull (prop item "dataEntregaUsuario"))).
    rewrite Hs. destruct s; [contradiction | reflexivity].
  - intros [Hs|[Hs|Hs]];
      change (column (importRow (Z.of_nat i + 1) item) "dataEntregaUsuario")
        with (toSql (orNull (prop item "dataEntregaUsuario")));
      rewrite Hs; reflexivity.
Qed.

Lemma import_replaces_everything_witness :
  exists db' row,
    importRoute Examples.usedDb [Examples.importItem] Examples.now
    = (db', Ok tt)
    /\ equipment_history db' = []
    /\ nth_error (equipment db') 0 = Some row
    /\ column row "id" = VNum 1
    /\ column row "dataEntregaUsuario" = VNull
    /\ column row "serial" = VStr (lit "ABC").
Proof.
  assert (E : importRoute Examples.usedDb [Examples.importItem] Examples.now
              = (importEquipment Examples.usedDb [Examples.importItem]
                                 Examples.now, Ok tt))
    by (vm_compute; reflexivity).
  destruct (import_replaces_everything _ _ _ _ E) as [_ [Hh [_ [_ Hrows]]]].
  destruct (Hrows 0%nat Examples.importItem eq_refl)
    as [row [Hrow [Hid [_ [_ [Hc [_ [_ Hd]]]]]]]].
  exists (importEquipment Examples.usedDb [Examples.importItem] Examples.now),
    row.
  split; [exact E|]. split; [exact Hh|]. split; [exact Hrow|].
  split; [exact Hid|]. split.
  - apply Hd. right. right. reflexivity.
  - apply (Hc "serial"%string (lit "ABC")); [|reflexivity].
    unfold copiedColumns. simpl. tauto.
Defined.

(** X22.  When the import route answers with an error, the store is not
    what it was before the request: the history is empty, the equipment
    table holds nothing but the rows of the records that precede the
    one refused, and the configuration is untouched.  The rollback of
    the route restores nothing, the [ALTER TABLE] having committed the
    two [DELETE] statements. *)
Theorem failed_import_empties_store :
  forall (db : Db) (equipmentList : list jsobj) (now : str) (db' : Db)
         (message : string),
    importRoute db equipmentList now = (db', Throw message) ->
    equipment_history db' = []
    /\ app_config db' = app_config db
    /\ exists k,
        (k < List.length equipmentList)%nat
        /\ equipment db' = importRows 1 (firstn k equipmentList)
        /\ refusal (equipment db')
                   (importRow (auto_increment db')
                              (nth k equipmentList [])) = Some message.
Proof.
  intros db equipmentList now db' message H.
  destruct (importRoute_stored db equipmentList now)
    as [[Hok _]|[message' [k [Hthrow [Hk [Hdb Hm]]]]]];
    [rewrite H in Hok; discriminate Hok|].
  rewrite H in Hthrow, Hdb, Hm. cbn [fst snd] in Hthrow, Hdb, Hm.
  injection Hthrow as <-.
  destruct (importLoop_rows (firstn k equipmentList)
              {| equipment := []; equipment_history := [];
                 auto_increment := 1; app_config := app_config db |})
    as [Hr [Hh Ha]].
  cbn [equipment equipment_history auto_increment app] in Hr, Hh, Ha.
  rewrite <- Hdb in Hr, Hh.
  split; [exact Hh|]. split.
  - rewrite Hdb, importLoop_config. reflexivity.
  - exists k. split; [exact Hk|]. split; [exact Hr | exact Hm].
Qed.

Lemma failed_import_empties_store_witness :
  exists db',
    importRoute Examples.usedDb Examples.requestNoAsset Examples.now
    = (db', Throw duplicateEntry)
    /\ equipment_history db' = []
    /\ app_config db' = app_config Examples.usedDb.
Proof.
  destruct (importRoute Examples.usedDb Examples.requestNoAsset Examples.now)
    as [db' response] eqn:E.
  assert (Hr : response = Throw duplicateEntry).
  { apply (f_equal snd) in E. vm_compute in E. symmetry. exact E. }
  subst response. exists db'.
  destruct (failed_import_empties_store _ _ _ _ _ E) as [Hh [Hc _]].
  split; [reflexivity|]. split; [exact Hh | exact Hc].
Defined.

(** C10 at a failing input.  The store holds a row and its history.
    The front end sends the records of an Absolute report that has no
    column for the device name: the record has no equipamento, the
    INSERT is refused, the route rolls back and answers 500, and the
    store is left with both tables empty, not as it was before the
    request.  Likewise for a base sheet whose two devices have no
    asset number: the second INSERT repeats the empty patrimonio, the
    route answers 500, and the store is left with the first device
    alone.  The import is not inside one transaction. *)
Theorem import_not_atomic :
  handleConsolidate None (Some Examples.reportWithoutDevice)
  = Ok [[ ("serial", lit "ABC"); ("usuarioAtual", lit "Bob");
          ("status", lit "Em Uso") ]]%string
  /\ importRoute Examples.usedDb Examples.requestWithoutDevice Examples.now
     = ({| equipment := []; equipment_history := [];
           auto_increment := 1; app_config := [] |},
        Throw cannotBeNull)
  /\ List.length (equipment Examples.usedDb) = 1%nat
  /\ List.length (equipment_history Examples.usedDb) = 1%nat
  /\ handleConsolidate (Some Examples.baseFileNoAsset) None
     = Ok [ [ ("serial", lit "A"); ("equipamento", lit "PC1");
              ("patrimonio", []) ];
            [ ("serial", lit "B"); ("equipamento", lit "PC2");
              ("patrimonio", []) ] ]%string
  /\ exists db',
      importRoute Examples.usedDb Examples.requestNoAsset Examples.now
      = (db', Throw duplicateEntry)
      /\ map (fun row => column row "serial") (equipment db')
         = [VStr (lit "A")]
      /\ equipment_history db' = [].
Proof.
  split; [vm_compute; reflexivity|].
  split; [vm_compute; reflexivity|].
  split; [reflexivity|]. split; [reflexivity|].
  split; [vm_compute; reflexivity|].
  eexists. split; [vm_compute; reflexivity|].
  split; vm_compute; reflexivity.
Qed.



(** *** The periodic update: rows without a counterpart *)

Lemma sqlEq_eq (a b : value) : sqlEq a b = true -> a = b.
Proof.
  unfold sqlEq, strictEq.
  destruct a, b; try discriminate;
    match goal with
    | |- context [value_eq_dec ?x ?y] => destruct (value_eq_dec x y)
    end; congruence.
Qed.

Lemma NoDup_map_injective {A B : Type} (f : A -> B) (l : list A) :
  NoDup (map f l) ->
  forall a b, In a l -> In b l -> f a = f b -> a = b.
Proof.
  induction l as [|x l IH]; intros Hnd a b Ha Hb Hf; [destruct Ha|].
  simpl in Hnd. inversion Hnd as [|? ? Hx Hl]; subst.
  destruct Ha as [<-|Ha], Hb as [<-|Hb].
  - reflexivity.
  - exfalso. apply Hx. rewrite Hf. apply in_map. exact Hb.
  - exfalso. apply Hx. rewrite <- Hf. apply in_map. exact Ha.
  - apply IH; assumption.
Qed.

Lemma buildMap_sound (persisted : list jsobj) (l : list jsobj) :
  forall m m',
    incl l persisted ->
    buildMap (map selectRow l) m = Ok m' ->
    mapSound persisted m -> mapSound persisted m'.
Proof.
  induction l as [|row l IH]; intros m m' Hl H Hm; simpl in H.
  - injection H as <-. exact Hm.
  - change (prop (selectRow row) "serial") with (column row "serial") in H.
    destruct (upperOf (column row "serial")) as [key|] eqn:Ek; simpl in H;
      [|discriminate].
    apply (IH _ m' (fun x Hx => Hl x (or_intror Hx)) H).
    intros k e Hg.
    destruct (list_eq_dec N.eq_dec key k) as [<-|Hne].
    + rewrite (get_set_same str_eqb str_eqb_eq) in Hg. injection Hg as <-.
      exists row. split; [apply Hl; left; reflexivity|]. split; [reflexivity|].
      exact Ek.
    + rewrite (get_set_other str_eqb str_eqb_eq _ _ _ _ Hne) in Hg.
      apply Hm. exact Hg.
Qed.

Lemma buildMap_complete (l : list jsobj) :
  forall m m',
    buildMap (map selectRow l) m = Ok m' ->
    (forall k e, Assoc.get str_eqb m k = Some e ->
                 exists e', Assoc.get str_eqb m' k = Some e')
    /\ (forall row k, In row l -> upperOf (column row "serial") = Ok k ->
                      exists e', Assoc.get str_eqb m' k = Some e')
    /\ Forall (fun row => stringSerial (column row "serial")) l.
Proof.
  induction l as [|a l IH]; intros m m' H.
  - injection H as <-. split; [|split; [|constructor]].
    + intros k e Hg. exists e. exact Hg.
    + intros row k [].
  - cbn [map buildMap] in H.
    change (prop (selectRow a) "serial") with (column a "serial") in H.
    destruct (upperOf (column a "serial")) as [key|] eqn:Ek; simpl in H;
      [|discriminate].
    destruct (IH _ m' H) as [Hkeep [Hrows Hstr]].
    assert (Hset : forall k e, Assoc.get str_eqb m k = Some e ->
                     exists e', Assoc.get str_eqb
                                  (Assoc.set str_eqb m key (selectRow a)) k
                                = Some e').
    { intros k e Hg. destruct (list_eq_dec N.eq_dec key k) as [<-|Hne].
      - rewrite (get_set_same str_eqb str_eqb_eq). eexists. reflexivity.
      - rewrite (get_set_other str_eqb str_eqb_eq _ _ _ _ Hne).
        exists e. exact Hg. }
    split; [|split].
    + intros k e Hg. destruct (Hset k e Hg) as [e1 H1]. exact (Hkeep k e1 H1).
    + intros row k [<-|Hin] Hk.
      * rewrite Ek in Hk. injection Hk as <-.
        apply (Hkeep key (selectRow a)).
        apply (get_set_same str_eqb str_eqb_eq).
      * exact (Hrows row k Hin Hk).
    + constructor; [|exact Hstr].
      unfold upperOf in Ek. destruct (column a "serial") as [| |n|s];
        try discriminate Ek. exists s. reflexivity.
Qed.

(** *** The join keys *)

Lemma consolidateBoth_pair (b a : PartialEquipment) (s t : str) :
  field_get b "serial" = Some s -> field_get a "serial" = Some t ->
  consolidateBoth [b] [a]
  = Ok (if str_eqb (mergeKey t) (mergeKey s)
        then [deriveStatus (Assoc.spread String.eqb b a)]
        else [deriveStatus b; deriveStatus (Assoc.spread String.eqb [] a)]).
Proof.
  intros Hb Ha. unfold consolidateBoth, consolidatedMapOf.
  cbn [insertBase overlayAbsolute]. unfold keyOf. rewrite Hb, Ha.
  cbn [bind Assoc.set Assoc.get].
  destruct (str_eqb (mergeKey t) (mergeKey s)); reflexivity.
Qed.

(** The map of the route has an entry under a key exactly when some
    persisted serial has that upper-case form. *)
Lemma buildMap_meets (persisted : list jsobj) (m : ExistingMap) (k : str) :
  buildMap (map selectRow persisted) [] = Ok m ->
  (exists existing, Assoc.get str_eqb m k = Some existing)
  <-> (exists row t, In row persisted /\ column row "serial" = VStr t
                     /\ toUpperCase t = k).
Proof.
  intros Hm. split.
  - intros [e He].
    destruct (buildMap_sound persisted persisted [] m (incl_refl _) Hm
                (fun k' e' Hg => ltac:(discriminate Hg)) k e He)
      as [row [Hin [_ Hk]]].
    unfold upperOf in Hk.
    destruct (column row "serial") as [| |n|t] eqn:E; try discriminate Hk.
    injection Hk as <-. exists row, t. auto.
  - intros [row [t [Hin [Hc <-]]]].
    destruct (buildMap_complete persisted [] m Hm) as [_ [Hrows _]].
    apply (Hrows row _ Hin). rewrite Hc. reflexivity.
Qed.

(** C5 (amended).  In consolidation the merge key of a serial is the
    serial upper-cased with every space removed.  It does not change
    when the serial is upper-cased first, nor, for a well-formed string
    (the text of a file is one), when the serial is stripped of spaces
    first; a base record and an absolute record are merged into one
    exactly when their keys are equal, so SN 123 and sn123 fall on one
    key and give one record.  In periodic reconciliation the key is the
    serial upper-cased, spaces kept: it does not change when the serial
    is upper-cased first, it holds a space exactly when the serial does,
    and an incoming record meets a persisted row, and is not inserted,
    exactly when a persisted serial has the same upper-case form, as the
    stored abc and the incoming ABC have. *)
Theorem mergeKey_stable :
  (forall s : str,
      mergeKey s = removeSpaces (toUpperCase s)
      /\ ~ In space (mergeKey s)
      /\ mergeKey (toUpperCase s) = mergeKey s)
  /\ (forall s : str,
         isWellFormed s = true -> mergeKey (removeSpaces s) = mergeKey s)
  /\ mergeKey (removeSpaces [0xD801; 0x20; 0xDC28]%N)
     <> mergeKey [0xD801; 0x20; 0xDC28]%N
  /\ (forall (item : PartialEquipment) (s : str),
         field_get item "serial" = Some s -> keyOf item = Ok (mergeKey s))
  /\ (forall (b a : PartialEquipment) (s t : str),
         field_get b "serial" = Some s -> field_get a "serial" = Some t ->
         (mergeKey s = mergeKey t ->
          consolidateBoth [b] [a]
          = Ok [deriveStatus (Assoc.spread String.eqb b a)])
         /\ (mergeKey s <> mergeKey t ->
             consolidateBoth [b] [a]
             = Ok [deriveStatus b;
                   deriveStatus (Assoc.spread String.eqb [] a)]))
  /\ mergeKey (lit "SN 123") = mergeKey (lit "sn123")
  /\ consolidateBoth
       [[("serial", lit "SN 123"); ("brand", lit "Dell")]]%string
       [[("serial", lit "sn123"); ("model", lit "G5")]]%string
     = Ok [[("serial", lit "sn123"); ("brand", lit "Dell");
            ("model", lit "G5")]]%string
  /\ (forall s : str,
         upperOf (VStr s) = Ok (toUpperCase s)
         /\ upperOf (VStr (toUpperCase s)) = upperOf (VStr s)
         /\ (In space (toUpperCase s) <-> In space s))
  /\ (forall (db : Db) (username : value) (item : jsobj) (s : str)
             (sts : list Statement),
         prop item "serial" = VStr s ->
         runStatements db username [item] = Ok sts ->
         ((exists row t, In row (equipment db)
                         /\ column row "serial" = VStr t
                         /\ toUpperCase t = toUpperCase s)
          <-> Forall (fun st => ~ isInsert st) sts))
  /\ runStatements Examples.dbLower Examples.admin Examples.requestUpper
     = Ok [].
Proof.
  split; [|split; [|split; [|split; [|split; [|split; [|split;
    [|split; [|split]]]]]]]].
  - intros s. split; [reflexivity|].
    split; [apply mergeKey_no_space | apply mergeKey_upper].
  - apply mergeKey_spaces.
  - vm_compute. discriminate.
  - intros item s H. unfold keyOf. rewrite H. reflexivity.
  - intros b a s t Hb Ha. rewrite (consolidateBoth_pair b a s t Hb Ha).
    split; intros H.
    + rewrite H, str_eqb_refl. reflexivity.
    + destruct (str_eqb (mergeKey t) (mergeKey s)) eqn:E; [|reflexivity].
      apply str_eqb_eq in E. exfalso. apply H. symmetry. exact E.
  - vm_compute. reflexivity.
  - vm_compute. reflexivity.
  - intros s. split; [reflexivity|]. split.
    + cbn [upperOf]. rewrite toUpperCase_idempotent. reflexivity.
    + apply toUpperCase_spaces.
  - intros db username item s sts Hs H.
    unfold runStatements, reconcile in H.
    destruct (buildMap (map selectRow (equipment db)) []) as [m|] eqn:Em;
      cbn [bind] in H; [|discriminate].
    pose proof (buildMap_meets (equipment db) m (toUpperCase s) Em) as Hmeet.
    cbn [reconcileLoop] in H. unfold reconcileItem in H.
    rewrite Hs in H. cbn [upperOf bind] in H.
    destruct (newStatusOf item) as [newStatus|]; cbn [bind] in H;
      [|discriminate].
    destruct (Assoc.get str_eqb m (toUpperCase s)) as [existing|] eqn:Eg;
      cbn [bind statements app] in H; injection H as <-.
    + split; [|intros _; apply Hmeet; exists existing; reflexivity].
      intros _. destruct (hasChanges _).
      * constructor; [intros [] | constructor].
      * constructor.
    + split.
      * intros Hrow. apply Hmeet in Hrow. destruct Hrow as [e He].
        discriminate He.
      * intros Hno. inversion Hno as [|? ? Hst _]. exfalso. apply Hst. exact I.
  - vm_compute. reflexivity.
Qed.

Lemma mergeKey_stable_witness :
  field_get [("serial", lit "SN 123"); ("brand", lit "Dell")]%string "serial"
  = Some (lit "SN 123")
  /\ mergeKey (lit "SN 123") = mergeKey (lit "sn123")
  /\ consolidateBoth
       [[("serial", lit "SN 123"); ("brand", lit "Dell")]]%string
       [[("serial", lit "sn123"); ("model", lit "G5")]]%string
     = Ok [deriveStatus
             (Assoc.spread String.eqb
                [("serial", lit "SN 123"); ("brand", lit "Dell")]%string
                [("serial", lit "sn123"); ("model", lit "G5")]%string)].
Proof.
  assert (Hb : field_get [("serial", lit "SN 123"); ("brand", lit "Dell")]%string
                         "serial" = Some (lit "SN 123")) by reflexivity.
  assert (Ha : field_get [("serial", lit "sn123"); ("model", lit "G5")]%string
                         "serial" = Some (lit "sn123")) by reflexivity.
  assert (Hk : mergeKey (lit "SN 123") = mergeKey (lit "sn123"))
    by (vm_compute; reflexivity).
  split; [exact Hb|]. split; [exact Hk|].
  exact (proj1 (proj1 (proj2 (proj2 (proj2 (proj2 mergeKey_stable))))
                  _ _ _ _ Hb Ha) Hk).
Defined.

Lemma reconcileItem_targets (persisted equipmentList : list jsobj)
      (username : value) (m : ExistingMap) (item : jsobj) (plan plan' : Plan) :
  mapSound persisted m ->
  In item equipmentList ->
  reconcileItem username m item plan = Ok plan' ->
  Forall (targetsMatched persisted equipmentList) (statements plan) ->
  Forall (targetsMatched persisted equipmentList) (statements plan').
Proof.
  intros Hm Hin H Hplan. unfold reconcileItem in H.
  destruct (upperOf (prop item "serial")) as [upperSerial|] eqn:Es;
    simpl in H; [|discriminate].
  destruct (newStatusOf item) as [newStatus|]; simpl in H; [|discriminate].
  destruct (Assoc.get str_eqb m upperSerial) as [existing|] eqn:Eg;
    injection H as <-; cbn [statements].
  - destruct (hasChanges _); [|exact Hplan].
    apply Forall_app. split; [exact Hplan|]. constructor; [|constructor].
    destruct (Hm _ _ Eg) as [row [Hrow [-> Hkey]]].
    exists row, item. split; [exact Hrow|]. split; [exact Hin|].
    split; [|reflexivity].
    exists upperSerial. split; assumption.
  - apply Forall_app. split; [exact Hplan|]. constructor; [exact I|constructor].
Qed.

Lemma reconcileLoop_targets (persisted equipmentList : list jsobj)
      (username : value) (m : ExistingMap) (l : list jsobj) :
  mapSound persisted m ->
  incl l equipmentList ->
  forall plan plan',
    reconcileLoop username m l plan = Ok plan' ->
    Forall (targetsMatched persisted equipmentList) (statements plan) ->
    Forall (targetsMatched persisted equipmentList) (statements plan').
Proof.
  intros Hm. induction l as [|item l IH]; intros Hl plan plan' H Hplan;
    simpl in H.
  - injection H as <-. exact Hplan.
  - destruct (reconcileItem username m item plan) as [plan1|] eqn:E1;
      simpl in H; [|discriminate].
    apply (IH (fun x Hx => Hl x (or_intror Hx)) plan1 plan' H).
    apply (reconcileItem_targets persisted equipmentList username m item
             plan plan1 Hm (Hl item (or_introl eq_refl)) E1 Hplan).
Qed.

Lemma reconcile_targets (persisted equipmentList : list jsobj)
      (username : value) (plan : Plan) :
  reconcile persisted username equipmentList = Ok plan ->
  Forall (targetsMatched persisted equipmentList) (statements plan).
Proof.
  unfold reconcile. intros H.
  destruct (buildMap (map selectRow persisted) []) as [m|] eqn:Em;
    simpl in H; [|discriminate].
  apply (reconcileLoop_targets persisted equipmentList username m
           equipmentList
           (buildMap_sound persisted persisted [] m (incl_refl _) Em
              (fun k e Hg => ltac:(discriminate Hg)))
           (incl_refl _) _ plan H).
  constructor.
Qed.

Lemma execute_frame (username : value) (sts : list Statement) :
  forall table auto created i row,
    nth_error table i = Some row ->
    Forall (spares row) sts ->
    nth_error (fst (fst (execute username sts table auto created))) i
    = Some row.
Proof.
  induction sts as [|st sts IH]; intros table auto created i row Hi Hs.
  - exact Hi.
  - inversion Hs as [|? ? Hst Hrest]; subst.
    destruct st as [updates id|newItem equipamento]; cbn [execute].
    + apply IH; [|exact Hrest].
      unfold updateWhereId. rewrite nth_error_map, Hi. simpl.
      simpl in Hst. rewrite Hst. reflexivity.
    + unfold insertSet. apply IH; [|exact Hrest].
      rewrite nth_error_app1; [exact Hi|].
      apply nth_error_Some. rewrite Hi. discriminate.
Qed.

Lemma execute_length (username : value) (sts : list Statement) :
  forall table auto created,
    (List.length table
     <= List.length (fst (fst (execute username sts table auto created))))%nat.
Proof.
  induction sts as [|st sts IH]; intros table auto created; [apply le_n|].
  destruct st as [updates id|newItem equipamento]; cbn [execute].
  - eapply Nat.le_trans; [|apply IH].
    unfold updateWhereId. rewrite length_map. apply le_n.
  - unfold insertSet. eapply Nat.le_trans; [|apply IH].
    rewrite length_app. simpl. lia.
Qed.

(** C7.  In a store whose identifiers are distinct (the primary key), a
    successful periodic update deletes nothing, and every persisted row
    whose serial is not the serial, up to case, of any incoming record is
    afterwards at the same place of the table with the same content. *)
Theorem periodicUpdate_frame :
  forall (db : Db) (username : value) (equipmentList : list jsobj)
         (now : str) (db' : Db),
    NoDup (ids (equipment db)) ->
    periodicUpdate db username equipmentList now = Ok db' ->
    (List.length (equipment db) <= List.length (equipment db'))%nat
    /\ forall (i : nat) (row : jsobj),
        nth_error (equipment db) i = Some row ->
        (forall item, In item equipmentList -> ~ corresponds row item) ->
        nth_error (equipment db') i = Some row.
Proof.
  intros db username equipmentList now db' Hnd H.
  unfold periodicUpdate in H.
  destruct (reconcile (equipment db) username equipmentList) as [plan|] eqn:Ep;
    simpl in H; [|discriminate].
  pose proof (execute_length username (statements plan) (equipment db)
                (auto_increment db) []) as Hlen.
  pose proof (execute_frame username (statements plan) (equipment db)
                (auto_increment db) []) as Hframe.
  destruct (execute username (statements plan) (equipment db)
              (auto_increment db) []) as [[table auto] created].
  injection H as <-. cbn [equipment fst] in *.
  split; [exact Hlen|].
  intros i row Hi Hnone. apply Hframe; [exact Hi|].
  apply (Forall_impl _ (P := targetsMatched (equipment db) equipmentList));
    [|exact (reconcile_targets _ _ _ _ Ep)].
  intros [updates id|newItem equipamento] Hst; [|exact I].
  destruct Hst as [row' [item [Hrow' [Hitem [Hc ->]]]]].
  simpl. destruct (sqlEq (column row "id") (column row' "id")) eqn:E;
    [|reflexivity].
  exfalso. apply (Hnone item Hitem).
  apply sqlEq_eq in E.
  assert (row = row') as ->; [|exact Hc].
  apply (NoDup_map_injective (fun r => column r "id") (equipment db) Hnd);
    [eapply nth_error_In; exact Hi | exact Hrow' | exact E].
Qed.

Lemma periodicUpdate_frame_witness :
  exists db',
    periodicUpdate Examples.twoRows Examples.admin Examples.requestAbc
                   Examples.now = Ok db'
    /\ nth_error (equipment db') 1
       = Some (Examples.storedRow 2 (lit "XYZ") (VStr (lit "Eve")) (VStr emUso)).
Proof.
  destruct (periodicUpdate Examples.twoRows Examples.admin Examples.requestAbc
                           Examples.now) as [db'|] eqn:E;
    [|vm_compute in E; discriminate E].
  exists db'. split; [reflexivity|].
  assert (Hnd : NoDup (ids (equipment Examples.twoRows))).
  { vm_compute. repeat constructor; simpl; intuition discriminate. }
  apply (proj2 (periodicUpdate_frame Examples.twoRows Examples.admin
                  Examples.requestAbc Examples.now db' Hnd E) 1%nat).
  - reflexivity.
  - intros item [<-|[]] [key [H1 H2]].
    vm_compute in H1, H2. congruence.
Defined.

(** *** The periodic update: what is staged for a matched record *)

Lemma strictEq_eq (a b : value) : strictEq a b = true <-> a = b.
Proof.
  unfold strictEq. destruct (value_eq_dec a b); split; congruence.
Qed.

Lemma fieldChanged_spec (item existing : jsobj) (key : string) :
  fieldChanged item existing key = true
  <-> key <> "serial"%string /\ prop item key <> prop existing key.
Proof.
  unfold fieldChanged. rewrite andb_true_iff, !negb_true_iff.
  split; intros [H1 H2]; split.
  - intros ->. discriminate H1.
  - intros E. apply strictEq_eq in E. congruence.
  - destruct (String.eqb key "serial") eqn:E; [|reflexivity].
    apply String.eqb_eq in E. contradiction.
  - destruct (strictEq (prop item key) (prop existing key)) eqn:E;
      [|reflexivity].
    apply strictEq_eq in E. contradiction.
Qed.

Lemma filter_none {A : Type} (f : A -> bool) (l : list A) :
  (forall x, In x l -> f x = false) -> filter f l = [].
Proof.
  induction l as [|x l IH]; intros H; simpl; [reflexivity|].
  rewrite (H x (or_introl eq_refl)). apply IH.
  intros y Hy. apply H. right. exact Hy.
Qed.

Lemma compareKeys_pushed (username : value) (item existing : jsobj)
      (keys : list string) :
  forall st,
    pushed (compareKeys username item existing keys st)
    = pushed st
        ++ map (changeEntry username item existing)
               (filter (fieldChanged item existing) keys).
Proof.
  induction keys as [|key keys IH]; intros st; simpl.
  - rewrite app_nil_r. reflexivity.
  - fold (fieldChanged item existing key).
    destruct (fieldChanged item existing key); rewrite IH; [|reflexivity].
    cbn [pushed map]. rewrite <- app_assoc. reflexivity.
Qed.

Lemma compareKeys_hasChanges (username : value) (item existing : jsobj)
      (keys : list string) :
  forall st,
    hasChanges (compareKeys username item existing keys st)
    = hasChanges st || existsb (fieldChanged item existing) keys.
Proof.
  induction keys as [|key keys IH]; intros st; simpl.
  - rewrite orb_false_r. reflexivity.
  - fold (fieldChanged item existing key).
    destruct (fieldChanged item existing key); rewrite IH; simpl.
    + rewrite orb_true_r. reflexivity.
    + reflexivity.
Qed.

Lemma compareKeys_other_key (username : value) (item existing : jsobj)
      (keys : list string) (k : string) :
  ~ In k keys ->
  forall st,
    Assoc.get String.eqb (updates (compareKeys username item existing keys st)) k
    = Assoc.get String.eqb (updates st) k.
Proof.
  induction keys as [|key keys IH]; intros Hk st; simpl; [reflexivity|].
  assert (Hne : key <> k) by (intros ->; apply Hk; left; reflexivity).
  assert (Hk' : ~ In k keys) by (intros H; apply Hk; right; exact H).
  destruct (_ && _); rewrite (IH Hk'); [|reflexivity].
  cbn [updates]. unfold assign.
  apply (get_set_other String.eqb string_eqb_eq _ _ _ _ Hne).
Qed.

Lemma stageExisting_pushed (username : value) (item existing : jsobj)
      (newStatus : value) :
  pushed (stageExisting username item existing newStatus)
  = map (changeEntry username item existing)
        (filter (fieldChanged item existing) (Assoc.keys item))
    ++ (if negb (strictEq newStatus (prop existing "status"))
           && negb (existsb (fieldChanged item existing) (Assoc.keys item))
        then [statusEntry username existing newStatus]
        else []).
Proof.
  unfold stageExisting, checkStatus. fold nothingStaged.
  destruct (strictEq newStatus (prop existing "status"));
    cbn [negb andb pushed].
  - rewrite compareKeys_pushed, app_nil_r. reflexivity.
  - rewrite compareKeys_hasChanges, compareKeys_pushed.
    cbn [hasChanges pushed nothingStaged orb app].
    destruct (existsb _ _); cbn [negb]; [rewrite app_nil_r|]; reflexivity.
Qed.

Lemma nothing_changed (item existing : jsobj) (keys : list string) :
  existsb (fieldChanged item existing) keys = false
  <-> (forall k, In k keys -> k <> "serial"%string ->
                 prop item k = prop existing k).
Proof.
  split.
  - intros H k Hin Hs.
    destruct (value_eq_dec (prop item k) (prop existing k)) as [E|E];
      [exact E|].
    assert (Hc : existsb (fieldChanged item existing) keys = true).
    { apply existsb_exists. exists k. split; [exact Hin|].
      apply fieldChanged_spec. split; assumption. }
    rewrite H in Hc. discriminate Hc.
  - intros H. destruct (existsb _ _) eqn:E; [|reflexivity].
    apply existsb_exists in E. destruct E as [k [Hin Hc]].
    apply fieldChanged_spec in Hc. destruct Hc as [Hs Hd].
    exfalso. apply Hd. apply H; assumption.
Qed.

(** C4 (amended).  For a matched record an entry is pushed for a key
    exactly in two cases: the key is a key of the incoming record other
    than serial and the incoming value is not strictly equal to the
    value the row object holds; or the key is status, the derived
    status is not strictly equal to the persisted one and no key of the
    record other than serial differs from the row.  An entry carries
    the value of the row and the incoming value (the derived status in
    the second case) as they are.  Nothing is normalised: where the row
    holds null and the record the empty string, an entry is pushed.
    These entries are what the route adds to its history for the
    record. *)
Theorem field_change_strict :
  forall (username : value) (item existing : jsobj) (newStatus : value),
    let st := stageExisting username item existing newStatus in
    (forall key : string,
        (exists e, In e (pushed st) /\ changeType e = key)
        <-> ((In key (Assoc.keys item) /\ key <> "serial"%string
              /\ prop item key <> prop existing key)
             \/ (key = "status"%string
                 /\ newStatus <> prop existing "status"
                 /\ forall k, In k (Assoc.keys item) -> k <> "serial"%string ->
                              prop item k = prop existing k)))
    /\ (forall e, In e (pushed st) ->
                  from_value e = prop existing (changeType e)
                  /\ (to_value e = prop item (changeType e)
                      \/ (changeType e = "status"%string
                          /\ to_value e = newStatus)))
    /\ (forall key : string,
           In key (Assoc.keys item) -> key <> "serial"%string ->
           prop existing key = VNull -> prop item key = VStr [] ->
           In (changeEntry username item existing key) (pushed st))
    /\ (forall (m : ExistingMap) (plan : Plan) (upperSerial : str),
           upperOf (prop item "serial") = Ok upperSerial ->
           newStatusOf item = Ok newStatus ->
           Assoc.get str_eqb m upperSerial = Some existing ->
           exists plan',
             reconcileItem username m item plan = Ok plan'
             /\ historyEntries plan' = historyEntries plan ++ pushed st).
Proof.
  intros username item existing newStatus st. subst st.
  rewrite stageExisting_pushed.
  split; [|split; [|split]].
  - intros key. split.
    + intros [e [He Hk]]. apply in_app_or in He. destruct He as [He|He].
      * left. apply in_map_iff in He. destruct He as [k [<- Hin]].
        simpl in Hk. subst k. apply filter_In in Hin.
        destruct Hin as [Hin Hc]. apply fieldChanged_spec in Hc. tauto.
      * right.
        destruct (strictEq newStatus (prop existing "status")) eqn:Es;
          [destruct He|]. cbn [negb andb] in He.
        destruct (existsb (fieldChanged item existing) (Assoc.keys item))
          eqn:Ex; [destruct He|].
        destruct He as [<-|[]]. simpl in Hk. subst key.
        split; [reflexivity|]. split.
        -- intros E. apply strictEq_eq in E. rewrite E in Es. discriminate Es.
        -- apply nothing_changed. exact Ex.
    + intros [[Hin [Hs Hd]]|[-> [Hne Hsame]]].
      * exists (changeEntry username item existing key).
        split; [|reflexivity]. apply in_or_app. left.
        apply in_map. apply filter_In. split; [exact Hin|].
        apply fieldChanged_spec. tauto.
      * exists (statusEntry username existing newStatus).
        split; [|reflexivity]. apply in_or_app. right.
        assert (Es : strictEq newStatus (prop existing "status") = false).
        { destruct (strictEq _ _) eqn:E; [|reflexivity].
          apply strictEq_eq in E. contradiction. }
        rewrite Es, (proj2 (nothing_changed item existing _) Hsame).
        left. reflexivity.
  - intros e He. apply in_app_or in He. destruct He as [He|He].
    + apply in_map_iff in He. destruct He as [k [<- _]].
      split; [reflexivity | left; reflexivity].
    + destruct (negb _ && negb _); [|destruct He].
      destruct He as [<-|[]]. split; [reflexivity|]. right. split; reflexivity.
  - intros key Hin Hs Hex Hit. apply in_or_app. left.
    apply in_map. apply filter_In.
    split; [exact Hin|]. apply fieldChanged_spec. split; [exact Hs|].
    rewrite Hex, Hit. discriminate.
  - intros m plan upperSerial Hu Hn Hg. unfold reconcileItem.
    rewrite Hu, Hn. cbn [bind]. rewrite Hg. eexists. split; [reflexivity|].
    cbn [historyEntries]. rewrite stageExisting_pushed. reflexivity.
Qed.

Lemma field_change_strict_witness :
  (exists e,
      In e (pushed
              (stageExisting Examples.admin
                 [ ("serial", VStr (lit "ABC")); ("status", VStr emUso) ]%string
                 (selectRow (Examples.storedRow 1 (lit "ABC") VNull (VStr emUso)))
                 (VStr estoque)))
      /\ changeType e = "status"%string)
  /\ In (changeEntry Examples.admin
           [ ("serial", VStr (lit "ABC")); ("usuarioAtual", VStr []) ]%string
           (selectRow (Examples.storedRow 1 (lit "ABC") VNull (VStr estoque)))
           "usuarioAtual")
        (pushed
           (stageExisting Examples.admin
              [ ("serial", VStr (lit "ABC")); ("usuarioAtual", VStr []) ]%string
              (selectRow (Examples.storedRow 1 (lit "ABC") VNull (VStr estoque)))
              (VStr estoque))).
Proof.
  split.
  - apply (proj1 (field_change_strict Examples.admin
                    [ ("serial", VStr (lit "ABC")); ("status", VStr emUso) ]%string
                    (selectRow (Examples.storedRow 1 (lit "ABC") VNull
                                                   (VStr emUso)))
                    (VStr estoque)) "status"%string).
    right. split; [reflexivity|]. split.
    + vm_compute. discriminate.
    + intros k [<-|[<-|[]]] Hk; [exfalso; apply Hk; reflexivity | reflexivity].
  - apply (proj1 (proj2 (proj2
             (field_change_strict Examples.admin
                [ ("serial", VStr (lit "ABC")); ("usuarioAtual", VStr []) ]%string
                (selectRow (Examples.storedRow 1 (lit "ABC") VNull (VStr estoque)))
                (VStr estoque))))
             "usuarioAtual"%string).
    + simpl. tauto.
    + discriminate.
    + reflexivity.
    + reflexivity.
Defined.

(** C4, as stated, fails: the row holds NULL for usuarioAtual and the
    record the empty string, which are equal once normalised, and the
    route still records a change of usuarioAtual. *)
Lemma null_and_empty_differ :
  Spec.differ VNull (VStr []) = false
  /\ runHistory Examples.dbNullUser Examples.admin Examples.requestNoUser
     = Ok [ {| equipment_id := VNum 1; changedBy := Examples.admin;
               changeType := "usuarioAtual";
               from_value := VNull; to_value := VStr [] |} ].
Proof.
  split; vm_compute; reflexivity.
Qed.

(** C3 (amended).  For a matched record whose derived status differs
    from the persisted one, the status is always staged in the update
    set.  The history entry of the status is pushed when no other field
    changed, and it is then the only entry; when some other field
    changed, the entries pushed are those of the changed fields alone,
    so that a record without a status key of its own leaves no status
    entry. *)
Theorem status_change_staged :
  forall (username : value) (item existing : jsobj) (newStatus : value),
    newStatus <> prop existing "status" ->
    let st := stageExisting username item existing newStatus in
    prop (updates st) "status" = newStatus
    /\ hasChanges st = true
    /\ ((forall key, In key (Assoc.keys item) -> key <> "serial"%string ->
                     prop item key = prop existing key) ->
        pushed st = [statusEntry username existing newStatus])
    /\ ((exists key, In key (Assoc.keys item) /\ key <> "serial"%string
                     /\ prop item key <> prop existing key) ->
        pushed st
        = pushed (compareKeys username item existing (Assoc.keys item)
                              nothingStaged)
        /\ (~ In "status"%string (Assoc.keys item) ->
            forall e, In e (pushed st) -> changeType e <> "status"%string)).
Proof.
  intros username item existing newStatus Hne st. subst st.
  unfold stageExisting, checkStatus. fold nothingStaged.
  assert (Hs : strictEq newStatus (prop existing "status") = false).
  { destruct (strictEq _ _) eqn:E; [|reflexivity].
    apply strictEq_eq in E. contradiction. }
  rewrite Hs. cbn [negb updates hasChanges pushed].
  rewrite compareKeys_hasChanges, compareKeys_pushed.
  cbn [hasChanges pushed nothingStaged orb app].
  split; [|split; [reflexivity|split]].
  - unfold prop, assign.
    rewrite (get_set_same String.eqb string_eqb_eq). reflexivity.
  - intros Hsame.
    assert (Hf : filter (fieldChanged item existing) (Assoc.keys item) = []).
    { apply filter_none. intros key Hin.
      destruct (fieldChanged item existing key) eqn:E; [|reflexivity].
      apply fieldChanged_spec in E. destruct E as [E1 E2].
      exfalso. apply E2. apply Hsame; assumption. }
    assert (He : existsb (fieldChanged item existing) (Assoc.keys item) = false).
    { destruct (existsb _ _) eqn:E; [|reflexivity].
      apply existsb_exists in E. destruct E as [key [Hin Hc]].
      assert (In key (filter (fieldChanged item existing) (Assoc.keys item)))
        by (apply filter_In; split; assumption).
      rewrite Hf in H. destruct H. }
    rewrite He, Hf. reflexivity.
  - intros [key [Hin [Hk Hd]]].
    assert (He : existsb (fieldChanged item existing) (Assoc.keys item) = true).
    { apply existsb_exists. exists key. split; [exact Hin|].
      apply fieldChanged_spec. split; assumption. }
    rewrite He. cbn [negb]. split; [reflexivity|].
    intros Hns e Hine. apply in_map_iff in Hine.
    destruct Hine as [k [<- Hk']]. apply filter_In in Hk'.
    simpl. intros ->. apply Hns. tauto.
Qed.

Lemma status_change_staged_witness :
  VStr estoque
  <> prop (selectRow (Examples.storedRow 1 (lit "ABC") (VStr (lit "Bob"))
                                         (VStr emUso))) "status"
  /\ prop (updates
             (stageExisting Examples.admin
                [ ("serial", VStr (lit "ABC")); ("usuarioAtual", VStr []) ]%string
                (selectRow (Examples.storedRow 1 (lit "ABC")
                                               (VStr (lit "Bob")) (VStr emUso)))
                (VStr estoque)))
          "status"
     = VStr estoque.
Proof.
  assert (H : VStr estoque
              <> prop (selectRow (Examples.storedRow 1 (lit "ABC")
                                    (VStr (lit "Bob")) (VStr emUso))) "status").
  { vm_compute. discriminate. }
  split; [exact H|].
  exact (proj1 (status_change_staged Examples.admin
                  [ ("serial", VStr (lit "ABC")); ("usuarioAtual", VStr []) ]%string
                  (selectRow (Examples.storedRow 1 (lit "ABC")
                                (VStr (lit "Bob")) (VStr emUso)))
                  (VStr estoque) H)).
Defined.

(** C3, as stated, fails on the end-to-end scenario: Bob holds ABC and
    the report shows ABC without occupant.  The row ends with an empty
    usuarioAtual and status Estoque, and the history receives the entry
    of usuarioAtual only: the status transition is not recorded. *)
Lemma status_entry_suppressed :
  exists db',
    periodicUpdate Examples.dbBob Examples.admin Examples.requestNoUser
                   Examples.now = Ok db'
    /\ equipment db'
       = [Examples.storedRow 1 (lit "ABC") (VStr []) (VStr estoque)]
    /\ equipment_history db'
       = [ {| equipment_id := VNum 1; changedBy := Examples.admin;
              changeType := "usuarioAtual";
              from_value := VStr (lit "Bob"); to_value := VStr [] |} ]
    /\ ~ exists e, In e (equipment_history db')
                   /\ changeType e = "status"%string.
Proof.
  eexists. split; [vm_compute; reflexivity|].
  split; [vm_compute; reflexivity|]. split; [reflexivity|].
  intros [e [[<-|[]] H]]. discriminate H.
Qed.

(** *** Status derivation *)

Lemma trim_nil : trim [] = [].
Proof. reflexivity. Qed.

Lemma isEmpty_false (s : str) : s <> [] -> isEmpty s = false.
Proof. destruct s; [contradiction | reflexivity]. Qed.

Lemma isEmpty_true (s : str) : s = [] -> isEmpty s = true.
Proof. intros ->. reflexivity. Qed.

Lemma status_staged (username : value) (item existing : jsobj)
      (newStatus : value) :
  newStatus <> prop existing "status" ->
  prop (updates (stageExisting username item existing newStatus)) "status"
  = newStatus
  /\ hasChanges (stageExisting username item existing newStatus) = true.
Proof.
  intros Hne. unfold stageExisting, checkStatus.
  destruct (strictEq newStatus (prop existing "status")) eqn:E.
  - apply strictEq_eq in E. contradiction.
  - cbn [negb updates hasChanges]. split; [|reflexivity].
    unfold prop, assign.
    rewrite (get_set_same String.eqb string_eqb_eq). reflexivity.
Qed.

Lemma status_not_staged (username : value) (item existing : jsobj)
      (newStatus : value) :
  newStatus = prop existing "status" ->
  ~ In "status"%string (Assoc.keys item) ->
  Assoc.get String.eqb
    (updates (stageExisting username item existing newStatus)) "status"%string
  = None.
Proof.
  intros He Hk. unfold stageExisting, checkStatus.
  rewrite (proj2 (strictEq_eq _ _) He). cbn [negb].
  rewrite (compareKeys_other_key username item existing (Assoc.keys item)
             "status"%string Hk).
  reflexivity.
Qed.

(** C1 (amended).  Periodic reconciliation derives the new status from
    the incoming usuarioAtual alone: Em Uso when it is not blank,
    Estoque when it is missing, null, empty or blank.  For a matched
    record this status is staged for the update whenever it differs from
    the persisted status, whatever the persisted status is (no status is
    protected), and a record without a status key leaves the status
    alone when they agree; a new record is inserted with it.
    Consolidation sets Em Uso on a record whose usuarioAtual is not
    blank, changing nothing else, and returns a record whose
    usuarioAtual is missing or blank as it is. *)
Theorem status_derivation :
  (forall (item : jsobj) (u : str),
      prop item "usuarioAtual" = VStr u -> trim u <> [] ->
      newStatusOf item = Ok (VStr emUso))
  /\ (forall item : jsobj,
         blankUser (prop item "usuarioAtual") ->
         newStatusOf item = Ok (VStr estoque))
  /\ (forall (username : value) (item existing : jsobj) (newStatus : value),
         newStatus <> prop existing "status" ->
         prop (updates (stageExisting username item existing newStatus))
              "status" = newStatus
         /\ hasChanges (stageExisting username item existing newStatus) = true)
  /\ (forall (username : value) (item existing : jsobj) (newStatus : value),
         newStatus = prop existing "status" ->
         ~ In "status"%string (Assoc.keys item) ->
         Assoc.get String.eqb
           (updates (stageExisting username item existing newStatus))
           "status"%string
         = None)
  /\ (forall (item : jsobj) (newStatus : value),
         prop (newItemOf item newStatus) "status" = newStatus)
  /\ (forall (item : PartialEquipment) (u : str),
         field_get item "usuarioAtual" = Some u -> trim u <> [] ->
         field_get (deriveStatus item) "status" = Some emUso
         /\ forall k, k <> "status"%string ->
                      field_get (deriveStatus item) k = field_get item k)
  /\ (forall item : PartialEquipment,
         (field_get item "usuarioAtual" = None
          \/ exists u, field_get item "usuarioAtual" = Some u /\ trim u = []) ->
         deriveStatus item = item).
Proof.
  split; [|split; [|split; [|split; [|split; [|split]]]]].
  - intros item u Hu Ht. unfold newStatusOf. rewrite Hu.
    assert (u <> []) by (intros ->; apply Ht; reflexivity).
    simpl. rewrite (isEmpty_false u H). simpl.
    rewrite (isEmpty_false (trim u) Ht). reflexivity.
  - intros item Hb. unfold newStatusOf.
    destruct (prop item "usuarioAtual") as [| |n|u]; simpl in *;
      try reflexivity; [destruct Hb|].
    destruct u as [|c u]; [reflexivity|]. simpl.
    rewrite (isEmpty_true _ Hb). reflexivity.
  - apply status_staged.
  - apply status_not_staged.
  - intros item newStatus. unfold newItemOf, prop, assign.
    rewrite !(get_set_other String.eqb string_eqb_eq) by discriminate.
    rewrite (get_set_same String.eqb string_eqb_eq). reflexivity.
  - intros item u Hu Ht. unfold deriveStatus, hasCurrentUser. rewrite Hu.
    assert (u <> []) by (intros ->; apply Ht; reflexivity).
    rewrite (isEmpty_false u H), (isEmpty_false (trim u) Ht). simpl.
    unfold field_get, field_set. split.
    + apply (get_set_same String.eqb string_eqb_eq).
    + intros k Hk.
      apply (get_set_other String.eqb string_eqb_eq). congruence.
  - intros item [Hn|[u [Hu Ht]]]; unfold deriveStatus, hasCurrentUser.
    + rewrite Hn. reflexivity.
    + rewrite Hu, (isEmpty_true _ Ht), andb_false_r. reflexivity.
Qed.

Lemma status_derivation_witness :
  prop [ ("serial", VStr (lit "ABC")); ("usuarioAtual", VStr (lit "Bob")) ]%string
       "usuarioAtual" = VStr (lit "Bob")
  /\ trim (lit "Bob") <> []
  /\ newStatusOf
       [ ("serial", VStr (lit "ABC")); ("usuarioAtual", VStr (lit "Bob")) ]%string
     = Ok (VStr emUso).
Proof.
  assert (H : trim (lit "Bob") <> []) by (vm_compute; discriminate).
  split; [reflexivity|]. split; [exact H|].
  exact (proj1 status_derivation
           [ ("serial", VStr (lit "ABC")); ("usuarioAtual", VStr (lit "Bob")) ]%string
           (lit "Bob") eq_refl H).
Defined.

(** C1, as stated, fails twice.  In periodic reconciliation a row under
    maintenance whose report shows no occupant is set to Estoque, where
    the specification keeps Manutenção; in consolidation a record
    without occupant comes out without any status, where the
    specification gives Estoque. *)
Lemma protected_status_overwritten :
  (exists db',
      periodicUpdate Examples.dbMaintenance Examples.admin
                     Examples.requestNoUser Examples.now = Ok db'
      /\ map (fun row => column row "status") (equipment db')
         = [VStr estoque])
  /\ Spec.statusDerivation (Some (VStr Examples.manutencao)) (VStr [])
     = VStr Examples.manutencao
  /\ VStr estoque <> VStr Examples.manutencao
  /\ (exists record,
         handleConsolidate None (Some Examples.absoluteReportNoUser)
         = Ok [record]
         /\ field_get record "usuarioAtual" = Some []
         /\ field_get record "status" = None)
  /\ Spec.statusDerivation None (VStr []) = VStr estoque.
Proof.
  split; [|split; [|split; [|split]]].
  - eexists. split; vm_compute; reflexivity.
  - vm_compute. reflexivity.
  - vm_compute. discriminate.
  - eexists. split; [vm_compute; reflexivity|]. split; reflexivity.
  - vm_compute. reflexivity.
Qed.

(** *** Running the periodic update twice *)

(** C2 at a failing input.  The empty store receives the report with
    device ABC twice.  The first run inserts the row; the second run,
    with the same request, sends an UPDATE for it and adds a history
    entry: the fetched row has no equipamento column to compare with. *)
Lemma second_run_repeats :
  parseAbsoluteCsv Examples.absoluteReport = Ok [Examples.absoluteRecord]
  /\ exists db1,
      periodicUpdate Examples.emptyDb Examples.admin Examples.requestReport
                     Examples.now = Ok db1
      /\ runStatements db1 Examples.admin Examples.requestReport
         = Ok [Update [("equipamento", VStr (lit "PC"))]%string (VNum 1)]
      /\ runHistory db1 Examples.admin Examples.requestReport
         = Ok [ {| equipment_id := VNum 1; changedBy := Examples.admin;
                   changeType := "equipamento";
                   from_value := VNull; to_value := VStr (lit "PC") |} ].
Proof.
  split; [vm_compute; reflexivity|].
  eexists. split; [vm_compute; reflexivity|].
  split; vm_compute; reflexivity.
Qed.


(** *** More on the tokenizer *)

Lemma trimStart_In (c : N) (s : str) : In c (trimStart s) -> In c s.
Proof.
  induction s as [|a s IH]; simpl; [tauto|].
  destruct (isWhiteSpace a); intros H; [right; apply IH; exact H | exact H].
Qed.

Lemma trimEnd_In (c : N) (s : str) : In c (trimEnd s) -> In c s.
Proof.
  unfold trimEnd. intros H. rewrite <- in_rev in H.
  apply trimStart_In in H. rewrite <- in_rev in H. exact H.
Qed.

Lemma trim_In (c : N) (s : str) : In c (trim s) -> In c s.
Proof.
  unfold trim. intros H. apply trimStart_In. apply trimEnd_In. exact H.
Qed.

Lemma stripLeadingQuote_In (c : N) (s : str) :
  In c (stripLeadingQuote s) -> In c s.
Proof.
  destruct s as [|a s]; simpl; [tauto|].
  destruct (a =? quote)%N; intros H; [right; exact H | exact H].
Qed.

Lemma field_In (c : N) (s : str) : In c (field s) -> In c s.
Proof.
  unfold field, stripQuotes, stripTrailingQuote. intros H.
  rewrite <- in_rev in H. apply stripLeadingQuote_In in H.
  rewrite <- in_rev in H. apply stripLeadingQuote_In in H.
  apply trim_In. exact H.
Qed.

Lemma trimStart_cases (s : str) :
  trimStart s = []
  \/ exists c r, trimStart s = c :: r /\ isWhiteSpace c = false.
Proof.
  induction s as [|a s IH]; simpl; [left; reflexivity|].
  destruct (isWhiteSpace a) eqn:E; [exact IH|].
  right. exists a, s. split; [reflexivity | exact E].
Qed.

Lemma trimStart_snoc (a : str) (c : N) :
  isWhiteSpace c = false -> trimStart (a ++ [c]) = trimStart a ++ [c].
Proof.
  intros Hc. induction a as [|x a IH]; simpl.
  - rewrite Hc. reflexivity.
  - destruct (isWhiteSpace x); [exact IH | reflexivity].
Qed.

Lemma trimEnd_cons (c : N) (r : str) :
  isWhiteSpace c = false -> trimEnd (c :: r) = c :: trimEnd r.
Proof.
  intros Hc. unfold trimEnd. simpl.
  rewrite (trimStart_snoc _ c Hc), rev_app_distr. reflexivity.
Qed.

Lemma trimEnd_idempotent (s : str) : trimEnd (trimEnd s) = trimEnd s.
Proof.
  unfold trimEnd. rewrite rev_involutive.
  destruct (trimStart_cases (rev s)) as [E|[c [r [E Hc]]]]; rewrite E.
  - reflexivity.
  - simpl. rewrite Hc. reflexivity.
Qed.

Lemma trim_idempotent (s : str) : trim (trim s) = trim s.
Proof.
  unfold trim at 2 3.
  destruct (trimStart_cases s) as [E|[c [r [E Hc]]]]; rewrite E.
  - reflexivity.
  - rewrite (trimEnd_cons c r Hc). unfold trim. simpl. rewrite Hc.
    rewrite (trimEnd_cons c _ Hc), trimEnd_idempotent. reflexivity.
Qed.

Lemma stripLeadingQuote_plain (s : str) :
  ~ In quote s -> stripLeadingQuote s = s.
Proof.
  destruct s as [|a s]; simpl; [reflexivity|]. intros H.
  destruct (N.eqb_spec a quote) as [->|_]; [|reflexivity].
  exfalso. apply H. left. reflexivity.
Qed.

Lemma stripQuotes_plain (s : str) : ~ In quote s -> stripQuotes s = s.
Proof.
  intros H. unfold stripQuotes, stripTrailingQuote.
  rewrite (stripLeadingQuote_plain s H).
  rewrite stripLeadingQuote_plain, rev_involutive; [reflexivity|].
  rewrite <- in_rev. exact H.
Qed.

Lemma field_clean (current : str) :
  ~ In quote current -> cleanCell (field current).
Proof.
  intros H. unfold cleanCell.
  assert (Ht : ~ In quote (trim current))
    by (intros Hq; apply H; apply trim_In; exact Hq).
  unfold field. rewrite (stripQuotes_plain _ Ht).
  split; [apply trim_idempotent | exact Ht].
Qed.

Lemma splitLoop_clean (line : str) :
  forall result current inQuote,
    ~ In quote current ->
    Forall cleanCell result ->
    Forall cleanCell (splitLoop line result current inQuote).
Proof.
  induction line as [|c rest IH]; intros result current inQuote Hc Hr; simpl.
  - apply Forall_app. split; [exact Hr|].
    constructor; [apply field_clean; exact Hc | constructor].
  - destruct (N.eqb_spec c quote) as [_|Hq]; [apply IH; assumption|].
    destruct ((c =? comma)%N && negb inQuote).
    + apply IH; [intros []|].
      apply Forall_app. split; [exact Hr|].
      constructor; [apply field_clean; exact Hc | constructor].
    + apply IH; [|exact Hr].
      intros H. apply in_app_or in H. destruct H as [H|[H|[]]];
        [apply Hc; exact H | apply Hq; exact H].
Qed.

Lemma splitCsvLine_clean (line : str) : Forall cleanCell (splitCsvLine line).
Proof.
  unfold splitCsvLine. apply splitLoop_clean; [intros [] | constructor].
Qed.

(** X1.  No field [splitCsvLine] returns holds a double quote: every
    quote of the line is consumed as a toggle, escaped or not. *)
Theorem splitCsvLine_drops_quotes :
  forall (line f : str), In f (splitCsvLine line) -> ~ In quote f.
Proof.
  intros line f Hf.
  pose proof (splitCsvLine_clean line) as H.
  rewrite Forall_forall in H. exact (proj2 (H f Hf)).
Qed.

Lemma splitCsvLine_drops_quotes_witness :
  In (lit "b,c") (splitCsvLine (lit "a," ++ quote :: lit "b,c" ++ quote :: lit ",d"))
  /\ ~ In quote (lit "b,c").
Proof.
  assert (H : In (lit "b,c")
                 (splitCsvLine (lit "a," ++ quote :: lit "b,c"
                                   ++ quote :: lit ",d"))).
  { vm_compute. right. left. reflexivity. }
  split; [exact H|].
  exact (splitCsvLine_drops_quotes _ _ H).
Defined.

(** X2.  Every field [splitCsvLine] returns is already trimmed: trimming
    it again, as the record parser does, changes nothing. *)
Theorem splitCsvLine_trimmed :
  forall (line f : str), In f (splitCsvLine line) -> trim f = f.
Proof.
  intros line f Hf.
  pose proof (splitCsvLine_clean line) as H.
  rewrite Forall_forall in H. exact (proj1 (H f Hf)).
Qed.

Lemma splitCsvLine_trimmed_witness :
  In (lit "x y") (splitCsvLine (lit "  x y  , z "))
  /\ trim (lit "x y") = lit "x y".
Proof.
  assert (H : In (lit "x y") (splitCsvLine (lit "  x y  , z "))).
  { vm_compute. left. reflexivity. }
  split; [exact H|].
  exact (splitCsvLine_trimmed _ _ H).
Defined.

Lemma trim_plain (s : str) :
  (forall c, In c s -> isWhiteSpace c = false) -> trim s = s.
Proof.
  intros H.
  assert (Hs : forall t : str,
             (forall c, In c t -> isWhiteSpace c = false) -> trimStart t = t).
  { intros [|a t] Ht; simpl; [reflexivity|].
    rewrite (Ht a (or_introl eq_refl)). reflexivity. }
  unfold trim, trimEnd. rewrite (Hs s H), Hs, rev_involutive; [reflexivity|].
  intros c Hc. apply H. rewrite in_rev. exact Hc.
Qed.

Lemma joinFields_merge (R : list str) (a b : str) :
  joinFields (R ++ [a; b]) = joinFields (R ++ [a ++ comma :: b]).
Proof.
  induction R as [|x R IH]; [reflexivity|].
  cbn [app joinFields].
  destruct R as [|y R]; [reflexivity|].
  cbn [app] in *. rewrite IH. reflexivity.
Qed.

Lemma splitLoop_join (line : str) :
  forall (R : list str) (current : str),
    (forall c, In c line -> c <> quote /\ isWhiteSpace c = false) ->
    (forall c, In c current -> c <> quote /\ isWhiteSpace c = false) ->
    joinFields (splitLoop line R current false)
    = joinFields (R ++ [current ++ line]).
Proof.
  assert (Hfield : forall cur : str,
             (forall c, In c cur -> c <> quote /\ isWhiteSpace c = false) ->
             field cur = cur).
  { intros cur H. unfold field.
    rewrite (trim_plain cur (fun c Hc => proj2 (H c Hc))).
    apply stripQuotes_plain. intros Hq. exact (proj1 (H quote Hq) eq_refl). }
  induction line as [|c rest IH]; intros R current Hl Hc; simpl.
  - rewrite (Hfield current Hc), app_nil_r. reflexivity.
  - destruct (N.eqb_spec c quote) as [E|_].
    + exfalso. exact (proj1 (Hl c (or_introl eq_refl)) E).
    + assert (Hrest : forall x, In x rest ->
                                x <> quote /\ isWhiteSpace x = false)
        by (intros x Hx; apply Hl; right; exact Hx).
      rewrite andb_true_r. destruct (N.eqb_spec c comma) as [->|_].
      * rewrite (IH _ [] Hrest (fun x (Hx : In x []) => match Hx with end)).
        rewrite (Hfield current Hc), <- app_assoc. apply joinFields_merge.
      * rewrite (IH R (current ++ [c]) Hrest).
        -- rewrite <- app_assoc. reflexivity.
        -- intros x Hx. apply in_app_or in Hx.
           destruct Hx as [Hx|[<-|[]]];
             [apply Hc; exact Hx | apply Hl; left; reflexivity].
Qed.

(** X3.  For a line without double quotes and without white space, the
    fields joined again by commas give back the line. *)
Theorem splitCsvLine_join :
  forall line : str,
    ~ In quote line ->
    (forall c, In c line -> isWhiteSpace c = false) ->
    joinFields (splitCsvLine line) = line.
Proof.
  intros line Hq Hw. unfold splitCsvLine.
  rewrite splitLoop_join.
  - reflexivity.
  - intros c Hc. split; [intros ->; exact (Hq Hc) | exact (Hw c Hc)].
  - intros c [].
Qed.

Lemma splitCsvLine_join_witness :
  joinFields (splitCsvLine (lit "ABC,,Dell,")) = lit "ABC,,Dell,".
Proof.
  apply splitCsvLine_join.
  - vm_compute. intuition discriminate.
  - intros c Hc. vm_compute in Hc.
    repeat (destruct Hc as [<-|Hc]; [reflexivity|]). destruct Hc.
Defined.

(** *** More on the record parser *)

Lemma splitLinesFrom_length (n : nat) :
  forall (s current : str),
    (List.length s <= n)%nat ->
    List.length (splitLinesFrom current s) = S (count_occ N.eq_dec s LF).
Proof.
  induction n as [|n IH]; intros s current Hn.
  - destruct s; [reflexivity | simpl in Hn; lia].
  - destruct s as [|c r]; [reflexivity|].
    simpl in Hn. cbn [splitLinesFrom count_occ].
    destruct (N.eqb_spec c LF) as [->|Hc].
    + destruct (N.eq_dec LF LF) as [_|E]; [|contradiction].
      cbn [List.length]. rewrite IH by lia. reflexivity.
    + destruct (N.eq_dec c LF) as [E|_]; [contradiction|].
      destruct (c =? CR)%N; [|apply IH; lia].
      destruct r as [|d r']; [apply IH; simpl; lia|].
      destruct (N.eqb_spec d LF) as [->|Hd]; [|apply IH; lia].
      cbn [List.length count_occ].
      destruct (N.eq_dec LF LF) as [_|E]; [|contradiction].
      simpl in Hn. rewrite IH by lia. reflexivity.
Qed.

Lemma splitLines_length (s : str) :
  List.length (splitLines s) = S (count_occ N.eq_dec s LF).
Proof.
  unfold splitLines. apply (splitLinesFrom_length (List.length s)). apply le_n.
Qed.

Lemma filterMap_length {A B : Type} (f : A -> option B) (l : list A) :
  (List.length (filterMap f l) <= List.length l)%nat.
Proof.
  induction l as [|a l IH]; simpl; [apply le_n|].
  destruct (f a); simpl; lia.
Qed.

(** X4.  [parseCsv] throws, with the message about the missing rows,
    exactly when the trimmed text holds no line feed (an empty file, a
    header alone, trailing line breaks only); otherwise it returns, and
    never more records than there are line feeds in the trimmed text,
    that is than there are data lines. *)
Theorem parseCsv_needs_two_lines :
  forall (fileText : str) (mappings : Mappings),
    (parseCsv fileText mappings = Throw missingRows
     <-> ~ In LF (trim fileText))
    /\ (In LF (trim fileText) ->
        exists records,
          parseCsv fileText mappings = Ok records
          /\ (List.length records
              <= count_occ N.eq_dec (trim fileText) LF)%nat).
Proof.
  intros fileText mappings. unfold parseCsv.
  pose proof (splitLines_length (trim fileText)) as Hlen.
  assert (Htl : List.length (tl (splitLines (trim fileText)))
                = count_occ N.eq_dec (trim fileText) LF).
  { destruct (splitLines (trim fileText)); simpl in *; lia. }
  destruct (Nat.ltb_spec (List.length (splitLines (trim fileText))) 2)
    as [Hlt|Hge].
  - assert (Hno : ~ In LF (trim fileText)).
    { apply (count_occ_not_In N.eq_dec). lia. }
    split; [split; [intros _; exact Hno | reflexivity]|].
    intros Hin. contradiction.
  - assert (Hin : In LF (trim fileText)).
    { apply (count_occ_In N.eq_dec). lia. }
    split; [split; [discriminate | intros Hno; contradiction]|].
    intros _. eexists. split; [reflexivity|].
    rewrite <- Htl. apply filterMap_length.
Qed.

Lemma parseCsv_needs_two_lines_witness :
  In LF (trim Examples.absoluteReport)
  /\ exists records,
      parseAbsoluteCsv Examples.absoluteReport = Ok records
      /\ (List.length records <= 1)%nat.
Proof.
  assert (H : In LF (trim Examples.absoluteReport)).
  { vm_compute. do 57 right. left. reflexivity. }
  split; [exact H|].
  destruct (proj2 (parseCsv_needs_two_lines Examples.absoluteReport
                     absoluteMappings) H) as [records [Hr Hl]].
  exists records. split; [exact Hr|].
  replace 1%nat with (count_occ N.eq_dec (trim Examples.absoluteReport) LF)
    by (vm_compute; reflexivity).
  exact Hl.
Defined.

Section MoreAssocFacts.
Context {K V : Type} (eqb : K -> K -> bool).
Hypothesis eqb_eq : forall a b, eqb a b = true <-> a = b.

Lemma get_In (o : list (K * V)) (k : K) (v : V) :
  Assoc.get eqb o k = Some v -> In (k, v) o.
Proof.
  induction o as [|[k' v'] o IH]; simpl; [discriminate|].
  destruct (eqb k k') eqn:E.
  - apply eqb_eq in E. subst k'. intros H. injection H as ->.
    left. reflexivity.
  - intros H. right. apply IH. exact H.
Qed.

Lemma set_Forall (P : K * V -> Prop) (o : list (K * V)) (k : K) (v : V) :
  Forall P o -> P (k, v) -> Forall P (Assoc.set eqb o k v).
Proof.
  intros Ho Hkv. induction o as [|[k' v'] o IH]; simpl.
  - constructor; [exact Hkv | constructor].
  - inversion Ho as [|? ? Hk' Ho']; subst.
    destruct (eqb k k') eqn:E.
    + apply eqb_eq in E. subst k'. constructor; assumption.
    + constructor; [exact Hk' | apply IH; exact Ho'].
Qed.

Lemma set_In_values (o : list (K * V)) (k : K) (v x : V) :
  In x (Assoc.values (Assoc.set eqb o k v)) ->
  x = v \/ In x (Assoc.values o).
Proof.
  induction o as [|[k' v'] o IH]; simpl.
  - intros [<-|[]]. left. reflexivity.
  - destruct (eqb k k'); simpl.
    + intros [<-|H]; [left; reflexivity | right; right; exact H].
    + intros [<-|H]; [right; left; reflexivity|].
      destruct (IH H) as [->|H']; [left; reflexivity | right; right; exact H'].
Qed.
End MoreAssocFacts.

Lemma orName_source (a b : option string) (key : string) :
  truthyName (orName a b) = Some key -> a = Some key \/ b = Some key.
Proof.
  unfold truthyName, orName.
  destruct a as [[|c a]|]; destruct b as [[|d b]|]; simpl;
    intros H; try discriminate; auto.
Qed.

Lemma fillEntry_fromTable (mappings : Mappings) (values : list str)
      (header : list str) :
  Forall cleanCell values ->
  forall index entry,
    Forall (fromTable mappings) entry ->
    Forall (fromTable mappings)
           (fillEntry mappings values header index entry).
Proof.
  intros Hv. induction header as [|colName rest IH]; intros index entry H;
    simpl; [exact H|].
  apply IH.
  destruct (truthyName _) as [key|] eqn:Ek; [|exact H].
  destruct (Nat.ltb_spec index (List.length values)) as [Hi|_]; [|exact H].
  apply (set_Forall String.eqb string_eqb_eq); [exact H|].
  assert (Hc : cleanCell (nth index values [])).
  { rewrite Forall_forall in Hv. apply Hv. apply nth_In. exact Hi. }
  split; simpl.
  - apply orName_source in Ek. unfold mapping_get in Ek.
    destruct Ek as [Ek|Ek]; apply (get_In str_eqb str_eqb_eq) in Ek;
      eexists; exact Ek.
  - destruct Hc as [Ht Hq]. rewrite Ht. split; assumption.
Qed.

(** X5.  A record [parseCsv] returns has no field but those the column
    table names (header cells the table does not know are ignored), and
    every value is a trimmed text without double quotes. *)
Theorem parseCsv_fields_from_table :
  forall (fileText : str) (mappings : Mappings)
         (records : list PartialEquipment),
    parseCsv fileText mappings = Ok records ->
    forall record key v,
      In record records -> In (key, v) record ->
      (exists cell, In (cell, key) mappings)
      /\ trim v = v /\ ~ In quote v.
Proof.
  intros fileText mappings records H record key v Hrec Hkv.
  assert (Hall : Forall (Forall (fromTable mappings)) records).
  { unfold parseCsv in H.
    destruct (List.length (splitLines (trim fileText)) <? 2)%nat;
      [discriminate|].
    injection H as <-. apply filterMap_Forall. intros row entry.
    unfold parseRow. destruct (isEmpty (trim row)); [discriminate|].
    destruct (field_get _ "serial") as [serial|]; [|discriminate].
    destruct (isEmpty serial || isEmpty (trim serial)); [discriminate|].
    intros E. injection E as <-.
    apply fillEntry_fromTable; [apply splitCsvLine_clean | constructor]. }
  rewrite Forall_forall in Hall. specialize (Hall record Hrec).
  rewrite Forall_forall in Hall. exact (Hall (key, v) Hkv).
Qed.

Lemma parseCsv_fields_from_table_witness :
  exists cell, In (cell, "equipamento"%string) absoluteMappings.
Proof.
  assert (H : parseAbsoluteCsv Examples.absoluteReport
              = Ok [Examples.absoluteRecord]) by (vm_compute; reflexivity).
  apply (proj1 (parseCsv_fields_from_table Examples.absoluteReport
                  absoluteMappings [Examples.absoluteRecord] H
                  Examples.absoluteRecord "equipamento"%string (lit "PC")
                  (or_introl eq_refl) (or_intror (or_introl eq_refl)))).
Defined.

(** *** More on consolidation *)

Lemma dedupeInto_app (a b : list str) :
  forall seen, dedupeInto seen (a ++ b) = dedupeInto (dedupeInto seen a) b.
Proof.
  induction a as [|k a IH]; intros seen; simpl; [reflexivity | apply IH].
Qed.

Lemma existsb_str_In (k : str) (l : list str) :
  existsb (str_eqb k) l = true <-> In k l.
Proof.
  rewrite existsb_exists. split.
  - intros [x [Hx E]]. apply str_eqb_eq in E. subst x. exact Hx.
  - intros H. exists k. split; [exact H | apply str_eqb_refl].
Qed.

Lemma dedupeInto_NoDup (l : list str) :
  forall seen, NoDup seen -> NoDup (dedupeInto seen l).
Proof.
  induction l as [|k l IH]; intros seen H; simpl; [exact H|].
  apply IH. destruct (existsb (str_eqb k) seen) eqn:E; [exact H|].
  apply NoDup_app; [exact H | repeat constructor; intros [] |].
  intros x Hx [<-|[]].
  apply existsb_str_In in Hx. congruence.
Qed.

Lemma dedupeInto_In (l : list str) (k : str) :
  forall seen, In k (dedupeInto seen l) <-> In k seen \/ In k l.
Proof.
  induction l as [|x l IH]; intros seen; simpl; [tauto|].
  rewrite IH. destruct (existsb (str_eqb x) seen) eqn:E.
  - apply existsb_str_In in E. split; [tauto|].
    intros [H|[<-|H]]; tauto.
  - rewrite in_app_iff. simpl. tauto.
Qed.

Lemma insertBase_keys (baseData : list PartialEquipment) :
  forall m m',
    insertBase baseData m = Ok m' ->
    Assoc.keys m' = dedupeInto (Assoc.keys m) (keysOf baseData)
    /\ List.length (keysOf baseData) = List.length baseData.
Proof.
  induction baseData as [|b rest IH]; intros m m' H; simpl in H.
  - injection H as <-. split; reflexivity.
  - unfold keysOf. simpl.
    destruct (keyOf b) as [kb|]; simpl in H; [|discriminate].
    destruct (IH _ m' H) as [Hk Hl]. fold (keysOf rest).
    rewrite Hk, (keys_set str_eqb). simpl. rewrite Hl.
    split; reflexivity.
Qed.

Lemma overlayAbsolute_keys (absoluteData : list PartialEquipment) :
  forall m m',
    overlayAbsolute absoluteData m = Ok m' ->
    Assoc.keys m' = dedupeInto (Assoc.keys m) (keysOf absoluteData)
    /\ List.length (keysOf absoluteData) = List.length absoluteData.
Proof.
  induction absoluteData as [|a rest IH]; intros m m' H; simpl in H.
  - injection H as <-. split; reflexivity.
  - unfold keysOf. simpl.
    destruct (keyOf a) as [ka|]; simpl in H; [|discriminate].
    destruct (IH _ m' H) as [Hk Hl]. fold (keysOf rest).
    rewrite Hk, (keys_set str_eqb). simpl. rewrite Hl.
    split; reflexivity.
Qed.

Lemma keysOf_app (a b : list PartialEquipment) :
  keysOf (a ++ b) = keysOf a ++ keysOf b.
Proof.
  unfold keysOf. induction a as [|x a IH]; simpl; [reflexivity|].
  destruct (keyOf x); simpl; rewrite IH; reflexivity.
Qed.

Lemma keysOf_In (data : list PartialEquipment) (k : str) :
  In k (keysOf data) <-> exists item, In item data /\ keyOf item = Ok k.
Proof.
  unfold keysOf. induction data as [|x data IH]; simpl.
  - split; [intros [] | intros [item [[] _]]].
  - destruct (keyOf x) as [kx|msg] eqn:E; simpl; rewrite IH; split.
    + intros [<-|[item [Hi Hk]]]; [exists x | exists item]; tauto.
    + intros [item [[<-|Hi] Hk]].
      * left. congruence.
      * right. exists item. tauto.
    + intros [item [Hi Hk]]. exists item. tauto.
    + intros [item [[<-|Hi] Hk]]; [congruence | exists item; tauto].
Qed.

Lemma consolidatedMapOf_keys (baseData absoluteData : list PartialEquipment)
      (m : ConsolidatedMap) :
  consolidatedMapOf baseData absoluteData = Ok m ->
  Assoc.keys m = dedupe (keysOf (baseData ++ absoluteData))
  /\ List.length (keysOf (baseData ++ absoluteData))
     = (List.length baseData + List.length absoluteData)%nat.
Proof.
  intros H. unfold consolidatedMapOf in H.
  destruct (insertBase baseData []) as [m1|] eqn:E1; simpl in H;
    [|discriminate].
  destruct (insertBase_keys baseData [] m1 E1) as [K1 L1].
  destruct (overlayAbsolute_keys absoluteData m1 m H) as [K2 L2].
  unfold dedupe. rewrite keysOf_app, dedupeInto_app, K2, K1, length_app, L1, L2.
  split; reflexivity.
Qed.

Lemma parseCsv_present (fileText : str) (mappings : Mappings)
      (records : list PartialEquipment) :
  parseCsv fileText mappings = Ok records -> Forall serialPresent records.
Proof.
  unfold parseCsv.
  destruct (List.length (splitLines (trim fileText)) <? 2)%nat;
    [discriminate|].
  intros E. injection E as <-.
  apply filterMap_Forall. intros a b. apply parseRow_serial.
Qed.

(** X6.  The merge leaves one entry per merge key, in the order in which
    the keys first occur when the base records are read before the
    absolute ones: the result of [consolidateBoth] has as many records
    as there are distinct keys, never more than the two inputs
    together, and a key is present exactly when some input record has
    it. *)
Theorem consolidation_deduplicates :
  forall (baseData absoluteData : list PartialEquipment)
         (m : ConsolidatedMap),
    consolidatedMapOf baseData absoluteData = Ok m ->
    Assoc.keys m = dedupe (keysOf (baseData ++ absoluteData))
    /\ NoDup (Assoc.keys m)
    /\ (forall k, In k (Assoc.keys m)
                  <-> exists item, In item (baseData ++ absoluteData)
                                   /\ keyOf item = Ok k)
    /\ (List.length (Assoc.keys m)
        <= List.length baseData + List.length absoluteData)%nat
    /\ consolidateBoth baseData absoluteData
       = Ok (map deriveStatus (Assoc.values m))
    /\ List.length (map deriveStatus (Assoc.values m))
       = List.length (dedupe (keysOf (baseData ++ absoluteData))).
Proof.
  intros baseData absoluteData m H.
  assert (Hboth : consolidateBoth baseData absoluteData
                  = Ok (map deriveStatus (Assoc.values m))).
  { unfold consolidateBoth. rewrite H. reflexivity. }
  destruct (consolidatedMapOf_keys baseData absoluteData m H) as [Hkeys Hlen].
  split; [exact Hkeys|]. split; [|split; [|split; [|split]]].
  - rewrite Hkeys. apply dedupeInto_NoDup. constructor.
  - intros k. rewrite Hkeys. unfold dedupe. rewrite dedupeInto_In.
    rewrite keysOf_In. simpl. tauto.
  - assert (Hle : forall l seen,
               (List.length (dedupeInto seen l)
                <= List.length seen + List.length l)%nat).
    { induction l as [|x l IH]; intros seen; simpl; [lia|].
      specialize (IH (if existsb (str_eqb x) seen then seen else seen ++ [x])).
      destruct (existsb (str_eqb x) seen);
        [|rewrite length_app in IH; simpl in IH]; lia. }
    rewrite Hkeys. unfold dedupe.
    specialize (Hle (keysOf (baseData ++ absoluteData)) []).
    rewrite Hlen in Hle. exact Hle.
  - exact Hboth.
  - rewrite <- Hkeys. unfold Assoc.keys, Assoc.values.
    rewrite !length_map. reflexivity.
Qed.

Lemma consolidation_deduplicates_witness :
  exists m,
    consolidatedMapOf [Examples.baseX; Examples.baseX] [Examples.absoluteX]
    = Ok m
    /\ Assoc.keys m = [lit "X"].
Proof.
  destruct (consolidatedMapOf [Examples.baseX; Examples.baseX]
                              [Examples.absoluteX]) as [m|] eqn:E;
    [|vm_compute in E; discriminate E].
  exists m. split; [reflexivity|].
  rewrite (proj1 (consolidation_deduplicates _ _ m E)).
  vm_compute. reflexivity.
Defined.

Lemma deriveStatus_serial (item : PartialEquipment) :
  field_get (deriveStatus item) "serial" = field_get item "serial".
Proof.
  unfold deriveStatus. destruct (hasCurrentUser item); [|reflexivity].
  unfold field_get, field_set.
  apply (get_set_other String.eqb string_eqb_eq). discriminate.
Qed.

(** An entry of the merge map: filed under the merge key of its own
    serial, which is not blank. *)
Lemma mapEntry_set (m : ConsolidatedMap) (k : str) (r : PartialEquipment) :
  Forall (fun kr => keyOf (snd kr) = Ok (fst kr) /\ serialPresent (snd kr)) m ->
  keyOf r = Ok k -> serialPresent r ->
  Forall (fun kr => keyOf (snd kr) = Ok (fst kr) /\ serialPresent (snd kr))
         (Assoc.set str_eqb m k r).
Proof.
  intros Hm Hk Hs. apply (set_Forall str_eqb str_eqb_eq); [exact Hm|].
  split; assumption.
Qed.

Lemma insertBase_entries (baseData : list PartialEquipment) :
  Forall serialPresent baseData ->
  forall m m',
    insertBase baseData m = Ok m' ->
    Forall (fun kr => keyOf (snd kr) = Ok (fst kr) /\ serialPresent (snd kr)) m ->
    Forall (fun kr => keyOf (snd kr) = Ok (fst kr) /\ serialPresent (snd kr)) m'.
Proof.
  induction baseData as [|b rest IH]; intros Hb m m' H Hm; simpl in H.
  - injection H as <-. exact Hm.
  - inversion Hb as [|? ? Hb1 Hb2]; subst.
    destruct (keyOf b) as [kb|] eqn:E; simpl in H; [|discriminate].
    apply (IH Hb2 _ m' H). apply mapEntry_set; assumption.
Qed.

Lemma overlayAbsolute_entries (absoluteData : list PartialEquipment) :
  Forall serialPresent absoluteData ->
  Forall uniqueKeys absoluteData ->
  forall m m',
    overlayAbsolute absoluteData m = Ok m' ->
    Forall (fun kr => keyOf (snd kr) = Ok (fst kr) /\ serialPresent (snd kr)) m ->
    Forall (fun kr => keyOf (snd kr) = Ok (fst kr) /\ serialPresent (snd kr)) m'.
Proof.
  induction absoluteData as [|a rest IH]; intros Hs Hu m m' H Hm; simpl in H.
  - injection H as <-. exact Hm.
  - inversion Hs as [|? ? Hs1 Hs2]; subst.
    inversion Hu as [|? ? Hu1 Hu2]; subst.
    destruct (keyOf a) as [ka|] eqn:E; simpl in H; [|discriminate].
    apply (IH Hs2 Hu2 _ m' H).
    assert (Hser : forall e,
               field_get (Assoc.spread String.eqb e a) "serial"
               = field_get a "serial").
    { intros e. unfold field_get.
      rewrite (get_spread String.eqb string_eqb_eq a Hu1).
      destruct Hs1 as [serial [Hg _]]. unfold field_get in Hg.
      rewrite Hg. reflexivity. }
    apply mapEntry_set; [exact Hm | |].
    + unfold keyOf. rewrite Hser. exact E.
    + unfold serialPresent. rewrite Hser. exact Hs1.
Qed.

Lemma NoDup_map_Ok (l : list str) :
  NoDup l -> NoDup (map (@Ok str) l).
Proof.
  induction 1 as [|k l Hk Hl IH]; simpl; constructor; [|exact IH].
  intros H. apply in_map_iff in H. destruct H as [x [E Hx]].
  injection E as ->. contradiction.
Qed.

Lemma deriveStatus_present (data : list PartialEquipment) :
  Forall serialPresent data -> Forall serialPresent (map deriveStatus data).
Proof.
  intros H. apply Forall_map. apply (Forall_impl _ (P := serialPresent));
    [|exact H].
  intros r Hr. unfold serialPresent. rewrite deriveStatus_serial. exact Hr.
Qed.

Lemma consolidatedMapOf_entries (baseData absoluteData : list PartialEquipment)
      (m : ConsolidatedMap) :
  Forall serialPresent baseData ->
  Forall serialPresent absoluteData ->
  Forall uniqueKeys absoluteData ->
  consolidatedMapOf baseData absoluteData = Ok m ->
  Forall (fun kr => keyOf (snd kr) = Ok (fst kr) /\ serialPresent (snd kr)) m.
Proof.
  intros Hb Ha Hu Em. unfold consolidatedMapOf in Em.
  destruct (insertBase baseData []) as [m1|] eqn:E1; simpl in Em;
    [|discriminate].
  exact (overlayAbsolute_entries absoluteData Ha Hu m1 m Em
           (insertBase_entries baseData Hb [] m1 E1 (Forall_nil _))).
Qed.

Lemma handleConsolidate_present (baseFile absoluteFile : option str)
      (out : list PartialEquipment) :
  handleConsolidate baseFile absoluteFile = Ok out -> Forall serialPresent out.
Proof.
  destruct baseFile as [baseText|], absoluteFile as [absoluteText|];
    intros H; simpl in H; [| | |discriminate H].
  - destruct (parseCsv baseText baseMappings) as [baseData|] eqn:Eb;
      simpl in H; [|discriminate].
    destruct (parseCsv absoluteText absoluteMappings) as [absoluteData|] eqn:Ea;
      simpl in H; [|discriminate].
    unfold consolidateBoth in H.
    destruct (consolidatedMapOf baseData absoluteData) as [m|] eqn:Em;
      simpl in H; [|discriminate].
    injection H as <-.
    pose proof (consolidatedMapOf_entries baseData absoluteData m
                  (parseCsv_present _ _ _ Eb) (parseCsv_present _ _ _ Ea)
                  (parseCsv_uniqueKeys _ _ _ Ea) Em) as Hent.
    apply deriveStatus_present. unfold Assoc.values. apply Forall_map.
    apply (Forall_impl _ (P := fun kr => keyOf (snd kr) = Ok (fst kr)
                                        /\ serialPresent (snd kr)));
      [intros kr Hkr; exact (proj2 Hkr) | exact Hent].
  - destruct (parseCsv baseText baseMappings) as [baseData|] eqn:Eb;
      simpl in H; [|discriminate].
    injection H as <-. apply deriveStatus_present.
    exact (parseCsv_present _ _ _ Eb).
  - destruct (parseCsv absoluteText absoluteMappings) as [absoluteData|] eqn:Ea;
      simpl in H; [|discriminate].
    injection H as <-. apply deriveStatus_present.
    exact (parseCsv_present _ _ _ Ea).
Qed.

Lemma insertBase_returns (baseData : list PartialEquipment) :
  Forall serialPresent baseData ->
  forall m, exists m', insertBase baseData m = Ok m'.
Proof.
  induction 1 as [|b rest [serial [Hs _]] _ IH]; intros m;
    [exists m; reflexivity|].
  cbn [insertBase]. unfold keyOf. rewrite Hs. cbn [bind]. apply IH.
Qed.

Lemma overlayAbsolute_returns (absoluteData : list PartialEquipment) :
  Forall serialPresent absoluteData ->
  forall m, exists m', overlayAbsolute absoluteData m = Ok m'.
Proof.
  induction 1 as [|a rest [serial [Hs _]] _ IH]; intros m;
    [exists m; reflexivity|].
  cbn [overlayAbsolute]. unfold keyOf. rewrite Hs. cbn [bind]. apply IH.
Qed.

Lemma consolidatedMapOf_merged (baseData absoluteData : list PartialEquipment)
      (m : ConsolidatedMap) :
  consolidatedMapOf baseData absoluteData = Ok m ->
  forall k, Assoc.get str_eqb m k = mergedAt k baseData absoluteData.
Proof.
  intros Em k. unfold consolidatedMapOf in Em.
  destruct (insertBase baseData []) as [m1|] eqn:E1; simpl in Em;
    [|discriminate].
  rewrite (overlayAbsolute_get absoluteData m1 m Em k),
    (insertBase_get baseData [] m1 E1 k).
  unfold mergedAt. simpl.
  destruct (lastOf (withKey k baseData)); reflexivity.
Qed.

(** C6.  The overlay is a shallow merge by field: a field the absolute
    record has takes its value, any other field keeps the value of the
    entry underneath.  Whenever both files parse, [handleConsolidate]
    returns the records of the merge map of the two parsed lists with
    the status derived, and that map holds, under each key, the last
    base record of that key overlaid by the absolute records of that
    key in their order (base goes in first, absolute on top); where a
    key has one base and one absolute record, each field of the merged
    record is the absolute record's if it has the field and the base
    record's otherwise.  Base serial X, brand Dell, with absolute serial
    X, brand HP, usuarioAtual Alice gives the one record serial X, brand
    HP, usuarioAtual Alice, status Em Uso, from the records and from the
    two files alike; a base sheet that also has a patrimonio column keeps
    that field in the merged record.  (The records the parser returns
    have each key once, so the merge law applies to them.) *)
Theorem consolidation_precedence :
  (forall (existingItem absoluteItem : PartialEquipment) (key : string),
      uniqueKeys absoluteItem ->
      field_get (Assoc.spread String.eqb existingItem absoluteItem) key
      = match field_get absoluteItem key with
        | Some v => Some v
        | None => field_get existingItem key
        end)
  /\ (forall (baseData absoluteData out : list PartialEquipment),
         consolidateBoth baseData absoluteData = Ok out ->
         exists m,
           consolidatedMapOf baseData absoluteData = Ok m
           /\ out = map deriveStatus (Assoc.values m)
           /\ forall k,
               Assoc.get str_eqb m k = mergedAt k baseData absoluteData)
  /\ (forall (baseText absoluteText : str)
             (baseData absoluteData : list PartialEquipment),
         parseCsv baseText baseMappings = Ok baseData ->
         parseCsv absoluteText absoluteMappings = Ok absoluteData ->
         exists m,
           consolidatedMapOf baseData absoluteData = Ok m
           /\ handleConsolidate (Some baseText) (Some absoluteText)
              = Ok (map deriveStatus (Assoc.values m))
           /\ forall k,
               Assoc.get str_eqb m k = mergedAt k baseData absoluteData)
  /\ (forall (baseData absoluteData : list PartialEquipment)
             (m : ConsolidatedMap) (k : str) (b a : PartialEquipment),
         consolidatedMapOf baseData absoluteData = Ok m ->
         lastOf (withKey k baseData) = Some b ->
         withKey k absoluteData = [a] ->
         uniqueKeys a ->
         exists r,
           Assoc.get str_eqb m k = Some r
           /\ forall f, field_get r f
                        = match field_get a f with
                          | Some v => Some v
                          | None => field_get b f
                          end)
  /\ consolidateBoth [Examples.baseX] [Examples.absoluteX]
     = Ok [[ ("serial", lit "X"); ("brand", lit "HP");
             ("usuarioAtual", lit "Alice"); ("status", lit "Em Uso") ]]%string
  /\ handleConsolidate (Some Examples.baseFileX) (Some Examples.absoluteFileX)
     = Ok [[ ("serial", lit "X"); ("brand", lit "HP");
             ("usuarioAtual", lit "Alice"); ("status", lit "Em Uso") ]]%string
  /\ handleConsolidate (Some Examples.baseFileKept)
                       (Some Examples.absoluteFileX)
     = Ok [[ ("serial", lit "X"); ("brand", lit "HP");
             ("patrimonio", lit "P-1");
             ("usuarioAtual", lit "Alice"); ("status", lit "Em Uso") ]]%string
  /\ (forall (fileText : str) (mappings : Mappings)
             (records : list PartialEquipment),
         parseCsv fileText mappings = Ok records ->
         Forall uniqueKeys records).
Proof.
  split; [|split; [|split; [|split; [|split; [|split; [|split]]]]]];
    [| | | |vm_compute; reflexivity|vm_compute; reflexivity
     |vm_compute; reflexivity|exact parseCsv_uniqueKeys].
  - intros existingItem absoluteItem key H.
    apply (get_spread String.eqb string_eqb_eq absoluteItem H).
  - intros baseData absoluteData out H. unfold consolidateBoth in H.
    destruct (consolidatedMapOf baseData absoluteData) as [m|] eqn:Em;
      simpl in H; [|discriminate].
    injection H as <-. exists m. split; [reflexivity|]. split; [reflexivity|].
    apply consolidatedMapOf_merged. exact Em.
  - intros baseText absoluteText baseData absoluteData Eb Ea.
    destruct (insertBase_returns baseData (parseCsv_present _ _ _ Eb) [])
      as [m1 E1].
    destruct (overlayAbsolute_returns absoluteData
                (parseCsv_present _ _ _ Ea) m1) as [m Em].
    assert (Hm : consolidatedMapOf baseData absoluteData = Ok m).
    { unfold consolidatedMapOf. rewrite E1. exact Em. }
    exists m. split; [exact Hm|]. split.
    + cbn [handleConsolidate]. rewrite Eb, Ea. cbn [bind].
      unfold consolidateBoth. rewrite Hm. reflexivity.
    + apply consolidatedMapOf_merged. exact Hm.
  - intros baseData absoluteData m k b a Em Hb Ha Hu.
    exists (Assoc.spread String.eqb b a). split.
    + rewrite (consolidatedMapOf_merged baseData absoluteData m Em k).
      unfold mergedAt. rewrite Hb, Ha. reflexivity.
    + intros f. apply (get_spread String.eqb string_eqb_eq a Hu).
Qed.

Lemma consolidation_precedence_witness :
  uniqueKeys Examples.absoluteX
  /\ field_get (Assoc.spread String.eqb Examples.baseX Examples.absoluteX)
               "brand"
     = Some (lit "HP")
  /\ (exists m,
         consolidatedMapOf [Examples.baseX] [Examples.absoluteX] = Ok m
         /\ Assoc.get str_eqb m (lit "X")
            = mergedAt (lit "X") [Examples.baseX] [Examples.absoluteX])
  /\ parseCsv Examples.baseFileKept baseMappings
     = Ok [[ ("serial", lit "X"); ("brand", lit "Dell");
             ("patrimonio", lit "P-1") ]]%string
  /\ parseCsv Examples.absoluteFileX absoluteMappings
     = Ok [Examples.absoluteX]
  /\ exists m,
      handleConsolidate (Some Examples.baseFileKept)
                        (Some Examples.absoluteFileX)
      = Ok (map deriveStatus (Assoc.values m))
      /\ Assoc.get str_eqb m (lit "X")
         = mergedAt (lit "X")
             [[ ("serial", lit "X"); ("brand", lit "Dell");
                ("patrimonio", lit "P-1") ]]%string
             [Examples.absoluteX].
Proof.
  assert (U : uniqueKeys Examples.absoluteX).
  { unfold uniqueKeys. simpl. repeat constructor; simpl; intuition discriminate. }
  assert (Eb : parseCsv Examples.baseFileKept baseMappings
               = Ok [[ ("serial", lit "X"); ("brand", lit "Dell");
                       ("patrimonio", lit "P-1") ]]%string)
    by (vm_compute; reflexivity).
  assert (Ea : parseCsv Examples.absoluteFileX absoluteMappings
               = Ok [Examples.absoluteX]) by (vm_compute; reflexivity).
  split; [exact U|]. split; [|split; [|split; [exact Eb|split; [exact Ea|]]]].
  - rewrite (proj1 consolidation_precedence Examples.baseX Examples.absoluteX "brand"%string U).
    reflexivity.
  - destruct (proj1 (proj2 consolidation_precedence)
                [Examples.baseX] [Examples.absoluteX] _
                (proj1 (proj2 (proj2 (proj2 (proj2 consolidation_precedence))))))
      as [m [Hm [_ Hk]]].
    exists m. split; [exact Hm | apply Hk].
  - destruct (proj1 (proj2 (proj2 consolidation_precedence))
                Examples.baseFileKept Examples.absoluteFileX _ _ Eb Ea)
      as [m [_ [Hh Hk]]].
    exists m. split; [exact Hh | apply Hk].
Defined.

(** X7.  Whatever files are chosen, every record [handleConsolidate]
    produces has a serial that is not blank; and when both files are
    chosen no two records of the result have the same merge key. *)
Theorem handleConsolidate_serials :
  forall (baseFile absoluteFile : option str) (out : list PartialEquipment),
    handleConsolidate baseFile absoluteFile = Ok out ->
    Forall serialPresent out
    /\ (baseFile <> None -> absoluteFile <> None -> NoDup (map keyOf out)).
Proof.
  intros baseFile absoluteFile out H.
  split; [exact (handleConsolidate_present baseFile absoluteFile out H)|].
  destruct baseFile as [baseText|]; [|intros E; contradiction].
  destruct absoluteFile as [absoluteText|]; [|intros _ E; contradiction].
  intros _ _. simpl in H.
  destruct (parseCsv baseText baseMappings) as [baseData|] eqn:Eb;
    simpl in H; [|discriminate].
  destruct (parseCsv absoluteText absoluteMappings) as [absoluteData|] eqn:Ea;
    simpl in H; [|discriminate].
  unfold consolidateBoth in H.
  destruct (consolidatedMapOf baseData absoluteData) as [m|] eqn:Em;
    simpl in H; [|discriminate].
  injection H as <-.
  pose proof (consolidatedMapOf_entries baseData absoluteData m
                (parseCsv_present _ _ _ Eb) (parseCsv_present _ _ _ Ea)
                (parseCsv_uniqueKeys _ _ _ Ea) Em) as Hent.
  replace (map keyOf (map deriveStatus (Assoc.values m)))
    with (map (@Ok str) (Assoc.keys m)).
  - apply NoDup_map_Ok.
    rewrite (proj1 (consolidatedMapOf_keys _ _ _ Em)).
    apply dedupeInto_NoDup. constructor.
  - unfold Assoc.keys, Assoc.values. rewrite !map_map.
    apply map_ext_in. intros kr Hkr.
    rewrite Forall_forall in Hent. destruct (Hent kr Hkr) as [Hk _].
    unfold keyOf in *. rewrite deriveStatus_serial. symmetry. exact Hk.
Qed.

Lemma handleConsolidate_serials_witness :
  exists out,
    handleConsolidate (Some Examples.baseFileX) (Some Examples.absoluteFileX)
    = Ok out
    /\ Forall serialPresent out.
Proof.
  destruct (handleConsolidate (Some Examples.baseFileX)
                              (Some Examples.absoluteFileX)) as [out|] eqn:E;
    [|vm_compute in E; discriminate E].
  exists out. split; [reflexivity|].
  exact (proj1 (handleConsolidate_serials _ _ out E)).
Defined.

(** *** More on the store: what the periodic update writes *)

Section KeyFacts.
Context {K V : Type} (eqb : K -> K -> bool).
Hypothesis eqb_eq : forall a b, eqb a b = true <-> a = b.

Lemma keys_set_In (o : list (K * V)) (k x : K) (v : V) :
  In x (Assoc.keys (Assoc.set eqb o k v)) -> x = k \/ In x (Assoc.keys o).
Proof.
  rewrite keys_set. destruct (existsb (eqb k) (Assoc.keys o)).
  - intros H. right. exact H.
  - intros H. apply in_app_or in H. destruct H as [H|[<-|[]]];
      [right; exact H | left; reflexivity].
Qed.

Lemma keys_set_keeps (o : list (K * V)) (k x : K) (v : V) :
  In x (Assoc.keys o) -> In x (Assoc.keys (Assoc.set eqb o k v)).
Proof.
  rewrite keys_set. destruct (existsb (eqb k) (Assoc.keys o)); intros H;
    [exact H | apply in_or_app; left; exact H].
Qed.
End KeyFacts.

Lemma setColumns_other (upd : jsobj) (k : string) :
  ~ In k (Assoc.keys upd) ->
  forall row, prop (setColumns row upd) k = prop row k.
Proof.
  unfold setColumns.
  induction upd as [|[k1 v1] upd IH]; intros Hk row; [reflexivity|].
  simpl. rewrite IH by (intros H; apply Hk; right; exact H).
  unfold prop, assign.
  rewrite (get_set_other String.eqb string_eqb_eq); [reflexivity|].
  intros ->. apply Hk. left. reflexivity.
Qed.

Lemma compareKeys_updates_keys (username : value) (item existing : jsobj)
      (keys : list string) (k : string) :
  forall st,
    In k (Assoc.keys (updates (compareKeys username item existing keys st))) ->
    In k (Assoc.keys (updates st)) \/ (In k keys /\ k <> "serial"%string).
Proof.
  induction keys as [|key keys IH]; intros st H; simpl in H; [left; exact H|].
  destruct (negb (String.eqb key "serial")) eqn:Es; simpl in H.
  - destruct (negb (strictEq (prop item key) (prop existing key))).
    + destruct (IH _ H) as [H'|[H' Hs]]; [|right; split; [right|]; assumption].
      cbn [updates] in H'. unfold assign in H'.
      apply keys_set_In in H'. destruct H' as [->|H']; [|left; exact H'].
      right. split; [left; reflexivity|].
      intros ->. discriminate Es.
    + destruct (IH _ H) as [H'|[H' Hs]];
        [left; exact H' | right; split; [right|]; assumption].
  - destruct (IH _ H) as [H'|[H' Hs]];
      [left; exact H' | right; split; [right|]; assumption].
Qed.

Lemma stageExisting_keys (username : value) (item existing : jsobj)
      (newStatus : value) (k : string) :
  In k (Assoc.keys (updates (stageExisting username item existing newStatus))) ->
  k = "status"%string \/ (In k (Assoc.keys item) /\ k <> "serial"%string).
Proof.
  unfold stageExisting, checkStatus. intros H.
  destruct (negb (strictEq newStatus (prop existing "status"))).
  - cbn [updates] in H. unfold assign in H. apply keys_set_In in H.
    destruct H as [->|H]; [left; reflexivity|].
    apply compareKeys_updates_keys in H. destruct H as [[]|H].
    right. exact H.
  - apply compareKeys_updates_keys in H. destruct H as [[]|H].
    right. exact H.
Qed.

Lemma newItemOf_keys (item : jsobj) (newStatus : value) (k : string) :
  In k (Assoc.keys (newItemOf item newStatus)) ->
  In k ["status"; "approval_status"; "created_by_id"]%string
  \/ In k (Assoc.keys item).
Proof.
  unfold newItemOf, assign. intros H.
  apply keys_set_In in H. destruct H as [->|H]; [left; simpl; tauto|].
  apply keys_set_In in H. destruct H as [->|H]; [left; simpl; tauto|].
  apply keys_set_In in H. destruct H as [->|H]; [left; simpl; tauto|].
  right. exact H.
Qed.

Lemma reconcileItem_touches (equipmentList : list jsobj) (username : value)
      (m : ExistingMap) (item : jsobj) (plan plan' : Plan) :
  In item equipmentList ->
  reconcileItem username m item plan = Ok plan' ->
  Forall (touchesOnly equipmentList) (statements plan) ->
  Forall (touchesOnly equipmentList) (statements plan').
Proof.
  intros Hin H Hplan. unfold reconcileItem in H.
  destruct (upperOf (prop item "serial")) as [upperSerial|];
    simpl in H; [|discriminate].
  destruct (newStatusOf item) as [newStatus|]; simpl in H; [|discriminate].
  destruct (Assoc.get str_eqb m upperSerial) as [existing|];
    injection H as <-; cbn [statements].
  - destruct (hasChanges _); [|exact Hplan].
    apply Forall_app. split; [exact Hplan|]. constructor; [|constructor].
    intros k Hk. apply stageExisting_keys in Hk.
    destruct Hk as [->|[Hk Hs]]; [left; reflexivity|].
    right. split; [exact Hs|]. exists item. split; assumption.
  - apply Forall_app. split; [exact Hplan|]. constructor; [|constructor].
    intros k Hk. apply newItemOf_keys in Hk.
    destruct Hk as [Hk|Hk]; [left; exact Hk|].
    right. exists item. split; assumption.
Qed.

Lemma reconcile_touches (persisted equipmentList : list jsobj)
      (username : value) (plan : Plan) :
  reconcile persisted username equipmentList = Ok plan ->
  Forall (touchesOnly equipmentList) (statements plan).
Proof.
  unfold reconcile. intros H.
  destruct (buildMap (map selectRow persisted) []) as [m|]; simpl in H;
    [|discriminate].
  assert (Hloop : forall l plan0 plan1,
             incl l equipmentList ->
             reconcileLoop username m l plan0 = Ok plan1 ->
             Forall (touchesOnly equipmentList) (statements plan0) ->
             Forall (touchesOnly equipmentList) (statements plan1)).
  { induction l as [|item l IH]; intros plan0 plan1 Hl Hr H0; simpl in Hr.
    - injection Hr as <-. exact H0.
    - destruct (reconcileItem username m item plan0) as [planm|] eqn:E;
        simpl in Hr; [|discriminate].
      apply (IH planm plan1 (fun x Hx => Hl x (or_intror Hx)) Hr).
      apply (reconcileItem_touches equipmentList username m item plan0 planm
               (Hl item (or_introl eq_refl)) E H0). }
  apply (Hloop equipmentList _ plan (incl_refl _) H). constructor.
Qed.

Lemma update_spares_column (equipmentList : list jsobj) (upd : jsobj)
      (id : value) (c : string) :
  touchesOnly equipmentList (Update upd id) ->
  untouched equipmentList c ->
  ~ In c (Assoc.keys upd).
Proof.
  intros Ht Hc Hin. destruct (Ht c Hin) as [->|[Hs [item [Hi Hk]]]].
  - destruct Hc as [Hc|[Hc _]]; [discriminate Hc | apply Hc; reflexivity].
  - destruct Hc as [->|[_ Hc]]; [apply Hs; reflexivity|].
    exact (Hc item Hi Hk).
Qed.

Lemma execute_columns (equipmentList : list jsobj) (username : value)
      (sts : list Statement) :
  Forall (touchesOnly equipmentList) sts ->
  forall table auto created i row,
    nth_error table i = Some row ->
    exists row',
      nth_error (fst (fst (execute username sts table auto created))) i
      = Some row'
      /\ forall c, untouched equipmentList c -> column row' c = column row c.
Proof.
  induction sts as [|st sts IH]; intros Hs table auto created i row Hi.
  - exists row. split; [exact Hi | reflexivity].
  - inversion Hs as [|? ? Hst Hrest]; subst.
    destruct st as [upd id|newItem equipamento]; cbn [execute].
    + destruct (IH Hrest (updateWhereId table upd id) auto created i
                  (if sqlEq (column row "id") id
                   then setColumns row upd else row))
        as [row' [Hn Hc]].
      { unfold updateWhereId. rewrite nth_error_map, Hi. reflexivity. }
      exists row'. split; [exact Hn|].
      intros c Huc. rewrite (Hc c Huc).
      destruct (sqlEq (column row "id") id); [|reflexivity].
      unfold column. rewrite setColumns_other; [reflexivity|].
      apply (update_spares_column equipmentList upd id c Hst Huc).
    + unfold insertSet. apply (IH Hrest).
      rewrite nth_error_app1; [exact Hi|].
      apply nth_error_Some. rewrite Hi. discriminate.
Qed.

(** X8.  A successful periodic update whose records are keyed by column
    names rewrites no persisted serial, and leaves alone every column,
    other than status, that no incoming record names: each persisted
    row is afterwards at its place with these columns as they were. *)
Theorem periodicUpdate_columns :
  forall (db : Db) (username : value) (equipmentList : list jsobj)
         (now : str) (db' : Db),
    Forall namesColumns equipmentList ->
    periodicUpdate db username equipmentList now = Ok db' ->
    forall (i : nat) (row : jsobj),
      nth_error (equipment db) i = Some row ->
      exists row',
        nth_error (equipment db') i = Some row'
        /\ column row' "serial" = column row "serial"
        /\ forall c, In c equipmentColumns -> c <> "status"%string ->
                     (forall item, In item equipmentList ->
                                   ~ In c (Assoc.keys item)) ->
                     column row' c = column row c.
Proof.
  intros db username equipmentList now db' _ H i row Hi.
  unfold periodicUpdate in H.
  destruct (reconcile (equipment db) username equipmentList) as [plan|] eqn:Ep;
    simpl in H; [|discriminate].
  destruct (execute_columns equipmentList username (statements plan)
              (reconcile_touches _ _ _ _ Ep)
              (equipment db) (auto_increment db) [] i row Hi)
    as [row' [Hn Hc]].
  destruct (execute username (statements plan) (equipment db)
              (auto_increment db) []) as [[table auto] created].
  injection H as <-. cbn [equipment fst] in *.
  exists row'. split; [exact Hn|]. split.
  - apply Hc. left. reflexivity.
  - intros c _ Hs Hnone. apply Hc. right. split; assumption.
Qed.

Lemma periodicUpdate_columns_witness :
  exists db' row',
    periodicUpdate Examples.dbLower Examples.admin
                   [[ ("serial", VStr (lit "ABC"));
                      ("usuarioAtual", VStr []) ]]%string
                   Examples.now = Ok db'
    /\ nth_error (equipment db') 0 = Some row'
    /\ column row' "serial" = VStr (lit "abc").
Proof.
  destruct (periodicUpdate Examples.dbLower Examples.admin
              [[ ("serial", VStr (lit "ABC"));
                 ("usuarioAtual", VStr []) ]]%string Examples.now)
    as [db'|] eqn:E; [|vm_compute in E; discriminate E].
  assert (Hk : Forall namesColumns
                      [[ ("serial", VStr (lit "ABC"));
                         ("usuarioAtual", VStr []) ]]%string).
  { constructor; [|constructor].
    intros k [<-|[<-|[]]]; unfold equipmentColumns; simpl; tauto. }
  destruct (periodicUpdate_columns _ _ _ _ db' Hk E 0%nat
              (Examples.storedRow 1 (lit "abc") (VStr (lit "Bob")) (VStr emUso))
              eq_refl) as [row' [Hn [Hs _]]].
  exists db', row'. split; [reflexivity|]. split; [exact Hn | exact Hs].
Defined.

(** *** The primary key *)

Lemma importRows_keyed (equipmentList : list jsobj) :
  forall id,
    NoDup (ids (importRows id equipmentList))
    /\ Forall (fun row =>
                 exists n, column row "id" = VNum n
                           /\ (id <= n < id + Z.of_nat (List.length equipmentList))%Z)
              (importRows id equipmentList).
Proof.
  induction equipmentList as [|item rest IH]; intros id.
  - split; constructor.
  - destruct (IH (id + 1)%Z) as [Hnd Hall].
    cbn [importRows ids map List.length].
    change (column (importRow id item) "id") with (VNum id).
    split.
    + constructor; [|exact Hnd].
      intros Hin. unfold ids in Hin. apply in_map_iff in Hin.
      destruct Hin as [row [Hid Hrow]].
      rewrite Forall_forall in Hall. destruct (Hall row Hrow) as [n [Hn Hb]].
      rewrite Hn in Hid. injection Hid as ->. lia.
    + constructor.
      * exists id. split; [reflexivity|]. lia.
      * apply (Forall_impl _ (P := fun row =>
                 exists n, column row "id" = VNum n
                           /\ (id + 1 <= n
                               < id + 1 + Z.of_nat (List.length rest))%Z));
          [|exact Hall].
        intros row [n [Hn Hb]]. exists n. split; [exact Hn|]. lia.
Qed.

Lemma execute_keyed (equipmentList : list jsobj) (username : value)
      (sts : list Statement) :
  Forall noId equipmentList ->
  Forall (touchesOnly equipmentList) sts ->
  forall table auto created,
    keyedTable table auto ->
    keyedTable (fst (fst (execute username sts table auto created)))
               (snd (fst (execute username sts table auto created))).
Proof.
  intros Hno.
  assert (Hid : untouched equipmentList "id").
  { right. split; [discriminate|]. rewrite Forall_forall in Hno. exact Hno. }
  induction sts as [|st sts IH]; intros Hs table auto created Hk;
    [exact Hk|].
  inversion Hs as [|? ? Hst Hrest]; subst.
  destruct st as [upd id|newItem equipamento]; cbn [execute].
  - apply (IH Hrest). destruct Hk as [Hnd Hall].
    assert (Hcol : forall row,
               column (if sqlEq (column row "id") id
                       then setColumns row upd else row) "id"
               = column row "id").
    { intros row. destruct (sqlEq (column row "id") id); [|reflexivity].
      unfold column. rewrite setColumns_other; [reflexivity|].
      apply (update_spares_column equipmentList upd id "id" Hst Hid). }
    split.
    + unfold ids, updateWhereId in *. rewrite map_map.
      rewrite (map_ext _ (fun row => column row "id"));
        [exact Hnd | exact Hcol].
    + unfold updateWhereId. apply Forall_map.
      apply (Forall_impl _ (P := fun row =>
               exists n, column row "id" = VNum n /\ (n < auto)%Z));
        [|exact Hall].
      intros row Hrow. rewrite Hcol. exact Hrow.
  - assert (Hnew : prop newItem "id" = VUndefined).
    { unfold prop.
      rewrite (get_absent String.eqb string_eqb_eq); [reflexivity|].
      intros Hin. destruct (Hst "id"%string Hin) as [H|[item [Hi Hki]]].
      - simpl in H. intuition discriminate.
      - rewrite Forall_forall in Hno. exact (Hno item Hi Hki). }
    unfold insertSet. rewrite Hnew. apply (IH Hrest).
    destruct Hk as [Hnd Hall].
    assert (Hrow : column (assign (setColumns [] newItem) "id" (VNum auto)) "id"
                   = VNum auto).
    { unfold column, prop, assign.
      rewrite (get_set_same String.eqb string_eqb_eq). reflexivity. }
    split.
    + unfold ids. rewrite map_app. cbn [map]. rewrite Hrow.
      apply NoDup_app; [exact Hnd | repeat constructor; intros [] |].
      intros x Hx [<-|[]]. apply in_map_iff in Hx.
      destruct Hx as [row [Hc Hin]].
      rewrite Forall_forall in Hall. destruct (Hall row Hin) as [n [Hn Hb]].
      rewrite Hn in Hc. injection Hc as ->. lia.
    + apply Forall_app. split.
      * apply (Forall_impl _ (P := fun row =>
                 exists n, column row "id" = VNum n /\ (n < auto)%Z));
          [|exact Hall].
        intros row [n [Hn Hb]]. exists n. split; [exact Hn|]. lia.
      * constructor; [|constructor]. exists auto. split; [exact Hrow|]. lia.
Qed.

(** X9.  The import leaves a store whose identifiers are pairwise
    distinct numbers below the counter; and a successful periodic update
    whose records name no identifier keeps a store like that: the
    primary key assumed of the store in C7 is established by the one
    route and kept by the other. *)
Theorem primary_key_kept :
  (forall (db : Db) (equipmentList : list jsobj) (now : str),
      keyed (importEquipment db equipmentList now))
  /\ (forall (db : Db) (username : value) (equipmentList : list jsobj)
             (now : str) (db' : Db),
         keyed db ->
         Forall noId equipmentList ->
         periodicUpdate db username equipmentList now = Ok db' ->
         keyed db').
Proof.
  split.
  - intros db equipmentList now. unfold keyed, importEquipment.
    cbn [equipment auto_increment].
    destruct (importLoop_rows equipmentList
                {| equipment := []; equipment_history := [];
                   auto_increment := 1; app_config := app_config db |})
      as [Hr [_ Ha]].
    cbn [equipment auto_increment app] in Hr, Ha. rewrite Hr, Ha.
    destruct (importRows_keyed equipmentList 1) as [Hnd Hall].
    split; [exact Hnd|].
    apply (Forall_impl _ (P := fun row =>
             exists n, column row "id" = VNum n
                       /\ (1 <= n < 1 + Z.of_nat (List.length equipmentList))%Z));
      [|exact Hall].
    intros row [n [Hn Hb]]. exists n. split; [exact Hn|]. lia.
  - intros db username equipmentList now db' Hk Hno H.
    unfold periodicUpdate in H.
    destruct (reconcile (equipment db) username equipmentList) as [plan|] eqn:Ep;
      simpl in H; [|discriminate].
    pose proof (execute_keyed equipmentList username (statements plan) Hno
                  (reconcile_touches _ _ _ _ Ep)
                  (equipment db) (auto_increment db) [] Hk) as Hx.
    destruct (execute username (statements plan) (equipment db)
                (auto_increment db) []) as [[table auto] created].
    injection H as <-. exact Hx.
Qed.

Lemma primary_key_kept_witness :
  exists db',
    periodicUpdate
      (importEquipment Examples.usedDb [Examples.importItem] Examples.now)
      Examples.admin Examples.requestUnspaced Examples.now = Ok db'
    /\ keyed db'.
Proof.
  destruct (periodicUpdate
              (importEquipment Examples.usedDb [Examples.importItem]
                               Examples.now)
              Examples.admin Examples.requestUnspaced Examples.now)
    as [db'|] eqn:E; [|vm_compute in E; discriminate E].
  exists db'. split; [reflexivity|].
  apply (proj2 primary_key_kept
           (importEquipment Examples.usedDb [Examples.importItem] Examples.now)
           Examples.admin Examples.requestUnspaced Examples.now db'
           (proj1 primary_key_kept Examples.usedDb [Examples.importItem]
                  Examples.now)); [|exact E].
  repeat constructor; unfold noId; simpl; intuition discriminate.
Defined.

(** *** When the periodic update throws, and when it cannot *)

Lemma buildMap_throws (l : list jsobj) :
  forall m,
    (exists row, In row l /\ ~ stringSerial (column row "serial")) ->
    buildMap (map selectRow l) m = Throw notAString.
Proof.
  induction l as [|a l IH]; intros m [row [Hin Hbad]]; [destruct Hin|].
  cbn [map buildMap].
  change (prop (selectRow a) "serial") with (column a "serial").
  destruct (column a "serial") as [| |n|s] eqn:E; try reflexivity.
  simpl. apply IH. exists row. split; [|exact Hbad].
  destruct Hin as [<-|Hin]; [|exact Hin].
  exfalso. apply Hbad. exists s. exact E.
Qed.

Lemma buildMap_returns (l : list jsobj) :
  Forall (fun row => stringSerial (column row "serial")) l ->
  forall m, exists m', buildMap (map selectRow l) m = Ok m'.
Proof.
  induction 1 as [|a l [s Hs] _ IH]; intros m; [exists m; reflexivity|].
  cbn [map buildMap].
  change (prop (selectRow a) "serial") with (column a "serial").
  rewrite Hs. simpl. apply IH.
Qed.

Lemma reconcileLoop_throws (username : value) (m : ExistingMap)
      (l : list jsobj) :
  (exists item, In item l /\ ~ stringSerial (prop item "serial")) ->
  forall plan, exists message, reconcileLoop username m l plan = Throw message.
Proof.
  induction l as [|a l IH]; intros [item [Hin Hbad]] plan; [destruct Hin|].
  cbn [reconcileLoop].
  destruct (reconcileItem username m a plan) as [plan'|message] eqn:E;
    [|exists message; reflexivity].
  simpl. apply IH. exists item. split; [|exact Hbad].
  destruct Hin as [<-|Hin]; [|exact Hin].
  exfalso. apply Hbad. unfold reconcileItem in E.
  destruct (prop a "serial") as [| |n|s]; try discriminate E.
  exists s. reflexivity.
Qed.

Lemma reconcileLoop_returns (username : value) (m : ExistingMap)
      (l : list jsobj) :
  Forall (fun item => stringSerial (prop item "serial")
                      /\ exists newStatus, newStatusOf item = Ok newStatus) l ->
  forall plan, exists plan', reconcileLoop username m l plan = Ok plan'.
Proof.
  induction 1 as [|a l [[s Hs] [newStatus Hn]] _ IH]; intros plan;
    [exists plan; reflexivity|].
  cbn [reconcileLoop]. unfold reconcileItem. rewrite Hs, Hn. simpl.
  destruct (Assoc.get str_eqb m (toUpperCase s)); simpl; apply IH.
Qed.

Lemma importRows_In (equipmentList : list jsobj) (item : jsobj) :
  In item equipmentList ->
  forall id, exists id', In (importRow id' item) (importRows id equipmentList).
Proof.
  induction equipmentList as [|a rest IH]; intros Hin id; [destruct Hin|].
  destruct Hin as [<-|Hin].
  - exists id. left. reflexivity.
  - destruct (IH Hin (id + 1)%Z) as [id' H]. exists id'. right. exact H.
Qed.

Lemma importEquipment_rows (db : Db) (equipmentList : list jsobj) (now : str) :
  equipment (importEquipment db equipmentList now) = importRows 1 equipmentList.
Proof.
  unfold importEquipment. cbn [equipment].
  destruct (importLoop_rows equipmentList
              {| equipment := []; equipment_history := [];
                 auto_increment := 1; app_config := app_config db |})
    as [Hr _].
  exact Hr.
Qed.

(** X10.  The periodic update throws, and so commits nothing, whenever a
    persisted row has NULL for serial, whatever the request, even an
    empty one; the import route accepts records without serial and
    stores such rows, after which every periodic update fails; and a
    request with a record whose serial is missing or not a string is
    refused as a whole. *)
Theorem periodicUpdate_throws :
  (forall (db : Db) (username : value) (equipmentList : list jsobj)
          (now : str),
      (exists row, In row (equipment db) /\ column row "serial" = VNull) ->
      exists message,
        periodicUpdate db username equipmentList now = Throw message)
  /\ (forall (db : Db) (imported : list jsobj) (now : str) (db1 : Db)
             (username : value) (equipmentList : list jsobj) (now' : str),
         importRoute db imported now = (db1, Ok tt) ->
         (exists item, In item imported
                       /\ isNull (prop item "serial") = true) ->
         exists message,
           periodicUpdate db1 username equipmentList now' = Throw message)
  /\ (forall (db : Db) (username : value) (equipmentList : list jsobj)
             (now : str),
         (exists item, In item equipmentList
                       /\ ~ stringSerial (prop item "serial")) ->
         exists message,
           periodicUpdate db username equipmentList now = Throw message).
Proof.
  assert (H1 : forall db username equipmentList now,
             (exists row, In row (equipment db)
                          /\ column row "serial" = VNull) ->
             exists message,
               periodicUpdate db username equipmentList now = Throw message).
  { intros db username equipmentList now [row [Hin Hnull]].
    unfold periodicUpdate, reconcile.
    rewrite (buildMap_throws (equipment db) []).
    - eexists. reflexivity.
    - exists row. split; [exact Hin|]. rewrite Hnull.
      intros [s Hs]. discriminate Hs. }
  split; [exact H1|]. split.
  - intros db imported now db1 username equipmentList now' Hok
           [item [Hin Hnull]].
    apply H1.
    destruct (importRoute_stored db imported now)
      as [[_ Hdb]|[message [k [Hthrow _]]]];
      [|rewrite Hok in Hthrow; discriminate Hthrow].
    rewrite Hok in Hdb. cbn [fst] in Hdb. subst db1.
    rewrite importEquipment_rows.
    destruct (importRows_In imported item Hin 1) as [id' Hrow].
    exists (importRow id' item). split; [exact Hrow|].
    change (column (importRow id' item) "serial")
      with (toSql (toSql (prop item "serial"))).
    destruct (prop item "serial"); try discriminate Hnull; reflexivity.
  - intros db username equipmentList now Hbad.
    unfold periodicUpdate, reconcile.
    destruct (buildMap (map selectRow (equipment db)) []) as [m|message];
      [|exists message; reflexivity].
    simpl.
    destruct (reconcileLoop_throws username m equipmentList Hbad
                {| statements := []; historyEntries := [] |}) as [message E].
    rewrite E. exists message. reflexivity.
Qed.

Lemma periodicUpdate_throws_witness :
  exists db1 message,
    importRoute Examples.emptyDb
                [[("equipamento", VStr (lit "PC"))]]%string Examples.now
    = (db1, Ok tt)
    /\ periodicUpdate db1 Examples.admin [] Examples.now = Throw message.
Proof.
  destruct (importRoute Examples.emptyDb
              [[("equipamento", VStr (lit "PC"))]]%string Examples.now)
    as [db1 response] eqn:E.
  assert (Hr : response = Ok tt).
  { apply (f_equal snd) in E. vm_compute in E. symmetry. exact E. }
  subst response.
  destruct (proj1 (proj2 periodicUpdate_throws) _ _ _ db1 Examples.admin []
              Examples.now E) as [message Hm].
  - exists [("equipamento", VStr (lit "PC"))]%string.
    split; [left; reflexivity | reflexivity].
  - exists db1, message. split; [reflexivity | exact Hm].
Defined.

Lemma prop_toBody (record : PartialEquipment) (k : string) :
  prop (map (fun kv => (fst kv, VStr (snd kv))) record) k
  = match field_get record k with
    | Some s => VStr s
    | None => VUndefined
    end.
Proof.
  unfold prop, field_get.
  induction record as [|[k' v'] record IH]; simpl; [reflexivity|].
  destruct (String.eqb k k'); [reflexivity | exact IH].
Qed.

Lemma toBody_strings (data : list PartialEquipment) :
  Forall serialPresent data ->
  Forall (fun item => stringSerial (prop item "serial")
                      /\ exists newStatus, newStatusOf item = Ok newStatus)
         (toBody data).
Proof.
  intros H. unfold toBody. apply Forall_map.
  apply (Forall_impl _ (P := serialPresent)); [|exact H].
  intros record [serial [Hs _]]. split.
  - exists serial. rewrite prop_toBody, Hs. reflexivity.
  - unfold newStatusOf. rewrite prop_toBody.
    destruct (field_get record "usuarioAtual") as [u|]; simpl.
    + destruct (negb (isEmpty u)); eexists; reflexivity.
    + eexists. reflexivity.
Qed.

Lemma importRows_serials (equipmentList : list jsobj) :
  Forall (fun item => stringSerial (prop item "serial")) equipmentList ->
  forall id,
    Forall (fun row => stringSerial (column row "serial"))
           (importRows id equipmentList).
Proof.
  induction 1 as [|item rest [s Hs] _ IH]; intros id; [constructor|].
  cbn [importRows]. constructor; [|apply IH].
  exists s.
  change (column (importRow id item) "serial")
    with (toSql (toSql (prop item "serial"))).
  rewrite Hs. reflexivity.
Qed.

(** X11.  The routes never throw on what the front end sends them: once
    the result of [handleConsolidate] has been imported, the periodic
    update of any report [parseAbsoluteCsv] accepts returns and commits,
    whatever the store held before the import. *)
Theorem pipeline_never_throws :
  forall (db : Db) (baseFile absoluteFile : option str)
         (consolidated : list PartialEquipment) (now : str)
         (report : str) (parsed : list PartialEquipment)
         (username : value) (now' : str),
    handleConsolidate baseFile absoluteFile = Ok consolidated ->
    parseAbsoluteCsv report = Ok parsed ->
    exists db',
      periodicUpdate (importEquipment db (toBody consolidated) now)
                     username (toBody parsed) now' = Ok db'.
Proof.
  intros db baseFile absoluteFile consolidated now report parsed username now'
         Hc Hp.
  unfold periodicUpdate, reconcile. rewrite importEquipment_rows.
  pose proof (toBody_strings consolidated
                (handleConsolidate_present _ _ _ Hc)) as Hrows.
  destruct (buildMap_returns (importRows 1 (toBody consolidated))
              (importRows_serials (toBody consolidated)
                 (Forall_impl _ (fun item H => proj1 H) Hrows) 1) [])
    as [m Hm].
  rewrite Hm. simpl.
  destruct (reconcileLoop_returns username m (toBody parsed)
              (toBody_strings parsed (parseCsv_present _ _ _ Hp))
              {| statements := []; historyEntries := [] |}) as [plan Hplan].
  rewrite Hplan. simpl.
  destruct (execute username (statements plan) _ _ []) as [[table auto] created].
  eexists. reflexivity.
Qed.

Lemma pipeline_never_throws_witness :
  exists db',
    periodicUpdate
      (importEquipment Examples.usedDb
         (toBody [ [ ("serial", lit "ABC"); ("equipamento", lit "PC");
                     ("usuarioAtual", lit "Bob");
                     ("status", lit "Em Uso") ]%string ])
         Examples.now)
      Examples.admin (toBody [Examples.absoluteRecord]) Examples.now = Ok db'.
Proof.
  assert (Hc : handleConsolidate None (Some Examples.absoluteReport)
               = Ok [ [ ("serial", lit "ABC"); ("equipamento", lit "PC");
                        ("usuarioAtual", lit "Bob");
                        ("status", lit "Em Uso") ]%string ])
    by (vm_compute; reflexivity).
  assert (Hp : parseAbsoluteCsv Examples.absoluteReport
               = Ok [Examples.absoluteRecord]) by (vm_compute; reflexivity).
  exact (pipeline_never_throws Examples.usedDb None
           (Some Examples.absoluteReport) _ Examples.now
           Examples.absoluteReport _ Examples.admin Examples.now Hc Hp).
Defined.

(** *** Records without a counterpart, and records that bring nothing new *)

Lemma reconcileLoop_inserts (username : value) (m : ExistingMap)
      (l : list jsobj) :
  (forall item k, In item l -> upperOf (prop item "serial") = Ok k ->
                  Assoc.get str_eqb m k = None) ->
  forall plan plan',
    reconcileLoop username m l plan = Ok plan' ->
    historyEntries plan' = historyEntries plan
    /\ exists inserts,
        statements plan' = statements plan ++ inserts
        /\ List.length inserts = List.length l
        /\ Forall isInsert inserts.
Proof.
  induction l as [|a l IH]; intros Hm plan plan' H; simpl in H.
  - injection H as <-. split; [reflexivity|].
    exists []. rewrite app_nil_r. repeat split. constructor.
  - unfold reconcileItem in H.
    destruct (upperOf (prop a "serial")) as [k|] eqn:Ek; simpl in H;
      [|discriminate].
    destruct (newStatusOf a) as [newStatus|]; simpl in H; [|discriminate].
    rewrite (Hm a k (or_introl eq_refl) Ek) in H.
    destruct (IH (fun item k' Hi => Hm item k' (or_intror Hi)) _ plan' H)
      as [Hh [inserts [Hs [Hl Hi]]]].
    cbn [historyEntries statements] in Hh, Hs.
    split; [exact Hh|].
    exists (Insert (newItemOf a newStatus) (prop a "equipamento") :: inserts).
    rewrite Hs, <- app_assoc. split; [reflexivity|].
    split; [simpl; rewrite Hl; reflexivity|].
    constructor; [exact I | exact Hi].
Qed.

Lemma execute_inserts (username : value) (sts : list Statement) :
  Forall isInsert sts ->
  forall table auto created,
    List.length (fst (fst (execute username sts table auto created)))
    = (List.length table + List.length sts)%nat
    /\ exists entries,
        snd (execute username sts table auto created) = created ++ entries
        /\ List.length entries = List.length sts
        /\ Forall (fun e => changeType e = "CREATE"%string) entries.
Proof.
  induction 1 as [|st sts Hst _ IH]; intros table auto created.
  - simpl. split; [lia|]. exists []. rewrite app_nil_r.
    repeat split. constructor.
  - destruct st as [upd id|newItem equipamento]; [destruct Hst|].
    cbn [execute]. unfold insertSet.
    match goal with
    | |- context [execute username sts ?t ?a ?c] =>
        destruct (IH t a c) as [Hl [entries [He [Hn Hc]]]]
    end.
    rewrite Hl, He, length_app. simpl. split; [lia|].
    eexists (_ :: entries). rewrite <- app_assoc. split; [reflexivity|].
    split; [simpl; rewrite Hn; reflexivity|].
    constructor; [reflexivity | exact Hc].
Qed.

(** X12.  When the records of the request have serials that differ from
    one another (serial is UNIQUE) and none has a counterpart in the
    store, a successful periodic update adds one row and one CREATE
    entry per incoming record and changes nothing else. *)
Theorem periodicUpdate_inserts_all :
  forall (db : Db) (username : value) (equipmentList : list jsobj)
         (now : str) (db' : Db),
    NoDup (map (fun item => prop item "serial") equipmentList) ->
    (forall row item, In row (equipment db) -> In item equipmentList ->
                      ~ corresponds row item) ->
    periodicUpdate db username equipmentList now = Ok db' ->
    List.length (equipment db')
    = (List.length (equipment db) + List.length equipmentList)%nat
    /\ (forall i row, nth_error (equipment db) i = Some row ->
                      nth_error (equipment db') i = Some row)
    /\ exists entries,
        equipment_history db' = equipment_history db ++ entries
        /\ List.length entries = List.length equipmentList
        /\ Forall (fun e => changeType e = "CREATE"%string) entries.
Proof.
  intros db username equipmentList now db' _ Hnone H.
  unfold periodicUpdate in H.
  destruct (reconcile (equipment db) username equipmentList) as [plan|] eqn:Ep;
    simpl in H; [|discriminate].
  unfold reconcile in Ep.
  destruct (buildMap (map selectRow (equipment db)) []) as [m|] eqn:Em;
    simpl in Ep; [|discriminate].
  pose proof (buildMap_sound (equipment db) (equipment db) [] m
                (incl_refl _) Em (fun k e Hg => ltac:(discriminate Hg)))
    as Hsound.
  destruct (reconcileLoop_inserts username m equipmentList) with
    (plan := {| statements := []; historyEntries := [] |}) (plan' := plan)
    as [Hh [inserts [Hs [Hl Hi]]]]; [|exact Ep|].
  { intros item k Hin Hk.
    destruct (Assoc.get str_eqb m k) as [e|] eqn:Eg; [|reflexivity].
    exfalso. destruct (Hsound k e Eg) as [row [Hrow [_ Hkey]]].
    apply (Hnone row item Hrow Hin). exists k. split; assumption. }
  cbn [statements historyEntries app] in Hh, Hs. rewrite Hs, Hh in H.
  destruct (execute_inserts username inserts Hi (equipment db)
              (auto_increment db) []) as [Hlen [entries [He [Hn Hc]]]].
  pose proof (execute_frame username inserts (equipment db)
                (auto_increment db) []) as Hframe.
  destruct (execute username inserts (equipment db) (auto_increment db) [])
    as [[table auto] created].
  injection H as <-. cbn [equipment equipment_history fst snd] in *.
  split; [rewrite Hlen, Hl; reflexivity|]. split.
  - intros i row Hrow. apply Hframe; [exact Hrow|].
    apply (Forall_impl _ (P := isInsert)); [|exact Hi].
    intros [upd id|newItem equipamento] Hst; [destruct Hst | exact I].
  - exists (map historyRow entries). rewrite He. cbn [app].
    split; [reflexivity|]. split; [rewrite length_map, Hn, Hl; reflexivity|].
    apply Forall_map. apply (Forall_impl _ (P := fun e => changeType e = "CREATE"%string));
      [intros e He'; exact He' | exact Hc].
Qed.

Lemma periodicUpdate_inserts_all_witness :
  exists db',
    periodicUpdate Examples.emptyDb Examples.admin
      [ [ ("serial", VStr (lit "ABC")); ("equipamento", VStr (lit "PC")) ];
        [ ("serial", VStr (lit "XYZ")); ("equipamento", VStr (lit "Mac")) ]
      ]%string Examples.now = Ok db'
    /\ List.length (equipment db') = 2%nat.
Proof.
  assert (Hnd : NoDup (map (fun item => prop item "serial")
                  [ [ ("serial", VStr (lit "ABC"));
                      ("equipamento", VStr (lit "PC")) ];
                    [ ("serial", VStr (lit "XYZ"));
                      ("equipamento", VStr (lit "Mac")) ] ]%string)).
  { constructor; [|constructor; [intros []|constructor]].
    intros [H|[]]. vm_compute in H. discriminate H. }
  destruct (periodicUpdate Examples.emptyDb Examples.admin
              [ [ ("serial", VStr (lit "ABC")); ("equipamento", VStr (lit "PC")) ];
                [ ("serial", VStr (lit "XYZ")); ("equipamento", VStr (lit "Mac")) ]
              ]%string Examples.now)
    as [db'|] eqn:E; [|vm_compute in E; discriminate E].
  exists db'. split; [reflexivity|].
  apply (proj1 (periodicUpdate_inserts_all Examples.emptyDb Examples.admin
                  _ Examples.now db' Hnd
                  (fun row item (Hrow : In row []) => match Hrow with end) E)).
Defined.

Lemma compareKeys_unchanged (username : value) (item existing : jsobj)
      (keys : list string) :
  (forall key, In key keys -> key <> "serial"%string ->
               prop item key = prop existing key) ->
  forall st, compareKeys username item existing keys st = st.
Proof.
  induction keys as [|key keys IH]; intros Hk st; simpl; [reflexivity|].
  assert (Hf : negb (String.eqb key "serial")
               && negb (strictEq (prop item key) (prop existing key)) = false).
  { destruct (String.eqb key "serial") eqn:Es; [reflexivity|]. simpl.
    rewrite (proj2 (strictEq_eq _ _)); [reflexivity|].
    apply Hk; [left; reflexivity|].
    intros ->. discriminate Es. }
  rewrite Hf. apply IH. intros k Hin. apply Hk. right. exact Hin.
Qed.

Lemma reconcileLoop_upToDate (username : value) (m : ExistingMap)
      (l : list jsobj) :
  Forall (upToDate m) l ->
  forall plan, reconcileLoop username m l plan = Ok plan.
Proof.
  induction 1 as [|item l [upper [existing [Hu [Hg [Hn Hk]]]]] _ IH];
    intros plan; [reflexivity|].
  cbn [reconcileLoop]. unfold reconcileItem. rewrite Hu, Hn. simpl.
  rewrite Hg. unfold stageExisting.
  rewrite (compareKeys_unchanged username item existing (Assoc.keys item) Hk).
  unfold checkStatus.
  rewrite (proj2 (strictEq_eq _ _) eq_refl). cbn [negb hasChanges pushed].
  rewrite app_nil_r. destruct plan as [sts hist]. simpl. apply IH.
Qed.

(** X13.  A request that brings nothing new writes nothing: when every
    incoming record finds its row in the map the route builds, derives
    the status the row has and agrees with the row under each of its
    keys other than the serial, the periodic update sends no statement
    and adds no history; the store it commits differs from the one
    before by the time stamp alone.  An empty request is such a
    request. *)
Theorem periodicUpdate_idle :
  forall (db : Db) (username : value) (equipmentList : list jsobj)
         (now : str) (m : ExistingMap),
    buildMap (map selectRow (equipment db)) [] = Ok m ->
    Forall (upToDate m) equipmentList ->
    runStatements db username equipmentList = Ok []
    /\ runHistory db username equipmentList = Ok []
    /\ periodicUpdate db username equipmentList now
       = Ok {| equipment := equipment db;
               equipment_history := equipment_history db;
               auto_increment := auto_increment db;
               app_config :=
                 configSet (app_config db) "lastAbsoluteUpdateTimestamp" now |}.
Proof.
  intros db username equipmentList now m Hm Hup.
  assert (Hr : reconcile (equipment db) username equipmentList
               = Ok {| statements := []; historyEntries := [] |}).
  { unfold reconcile. rewrite Hm. simpl.
    apply reconcileLoop_upToDate. exact Hup. }
  unfold runStatements, runHistory, periodicUpdate. rewrite Hr. simpl.
  rewrite app_nil_r. repeat split.
Qed.

Lemma periodicUpdate_idle_witness :
  runStatements Examples.dbLower Examples.admin Examples.requestUpper = Ok []
  /\ runHistory Examples.dbLower Examples.admin Examples.requestUpper = Ok [].
Proof.
  assert (Hm : buildMap (map selectRow (equipment Examples.dbLower)) []
               = Ok [ (lit "ABC",
                       selectRow (Examples.storedRow 1 (lit "abc")
                                    (VStr (lit "Bob")) (VStr emUso))) ])
    by (vm_compute; reflexivity).
  assert (Hup : Forall (upToDate
                          [ (lit "ABC",
                             selectRow (Examples.storedRow 1 (lit "abc")
                                          (VStr (lit "Bob")) (VStr emUso))) ])
                       Examples.requestUpper).
  { constructor; [|constructor].
    exists (lit "ABC"),
           (selectRow (Examples.storedRow 1 (lit "abc") (VStr (lit "Bob"))
                                          (VStr emUso))).
    split; [vm_compute; reflexivity|]. split; [vm_compute; reflexivity|].
    split; [vm_compute; reflexivity|].
    intros key [<-|[<-|[]]] Hs; [contradiction | reflexivity]. }
  destruct (periodicUpdate_idle Examples.dbLower Examples.admin
              Examples.requestUpper Examples.now _ Hm Hup) as [H1 [H2 _]].
  split; assumption.
Defined.

(** *** The markers in [app_config] *)

(** X14.  The periodic update writes the time stamp of the last update
    and no other key of [app_config]; the import writes that time stamp
    and sets the marker of the initial consolidation to true, leaving
    the other keys alone; so after an import no periodic update resets
    the marker. *)
Theorem config_markers :
  (forall (db : Db) (username : value) (equipmentList : list jsobj)
          (now : str) (db' : Db),
      periodicUpdate db username equipmentList now = Ok db' ->
      Assoc.get String.eqb (app_config db') "lastAbsoluteUpdateTimestamp"%string
      = Some now
      /\ forall key, key <> "lastAbsoluteUpdateTimestamp"%string ->
                     Assoc.get String.eqb (app_config db') key
                     = Assoc.get String.eqb (app_config db) key)
  /\ (forall (db : Db) (equipmentList : list jsobj) (now : str),
         let db' := importEquipment db equipmentList now in
         Assoc.get String.eqb (app_config db')
                   "lastAbsoluteUpdateTimestamp"%string = Some now
         /\ Assoc.get String.eqb (app_config db')
                      "hasInitialConsolidationRun"%string = Some (lit "true")
         /\ forall key, key <> "lastAbsoluteUpdateTimestamp"%string ->
                        key <> "hasInitialConsolidationRun"%string ->
                        Assoc.get String.eqb (app_config db') key
                        = Assoc.get String.eqb (app_config db) key)
  /\ (forall (db : Db) (imported : list jsobj) (now : str)
             (username : value) (equipmentList : list jsobj) (now' : str)
             (db' : Db),
         periodicUpdate (importEquipment db imported now) username
                        equipmentList now' = Ok db' ->
         Assoc.get String.eqb (app_config db')
                   "hasInitialConsolidationRun"%string = Some (lit "true")).
Proof.
  assert (H1 : forall db username equipmentList now db',
             periodicUpdate db username equipmentList now = Ok db' ->
             app_config db'
             = configSet (app_config db) "lastAbsoluteUpdateTimestamp" now).
  { intros db username equipmentList now db' H. unfold periodicUpdate in H.
    destruct (reconcile (equipment db) username equipmentList) as [plan|];
      simpl in H; [|discriminate].
    destruct (execute username (statements plan) (equipment db)
                (auto_increment db) []) as [[table auto] created].
    injection H as <-. reflexivity. }
  assert (H2 : forall db equipmentList now,
             app_config (importEquipment db equipmentList now)
             = configSet
                 (configSet (app_config db) "lastAbsoluteUpdateTimestamp" now)
                 "hasInitialConsolidationRun" (lit "true")).
  { intros db equipmentList now. unfold importEquipment. cbn [app_config].
    assert (Hc : forall l d, app_config (importLoop l d) = app_config d).
    { induction l as [|x l IH]; intros d; [reflexivity|].
      simpl. rewrite IH. reflexivity. }
    rewrite Hc. reflexivity. }
  split; [|split].
  - intros db username equipmentList now db' H.
    rewrite (H1 _ _ _ _ _ H). unfold configSet. split.
    + apply (get_set_same String.eqb string_eqb_eq).
    + intros key Hk.
      apply (get_set_other String.eqb string_eqb_eq). congruence.
  - intros db equipmentList now db'. subst db'. rewrite H2.
    unfold configSet. split; [|split].
    + rewrite (get_set_other String.eqb string_eqb_eq) by discriminate.
      apply (get_set_same String.eqb string_eqb_eq).
    + apply (get_set_same String.eqb string_eqb_eq).
    + intros key Hk1 Hk2.
      rewrite !(get_set_other String.eqb string_eqb_eq) by congruence.
      reflexivity.
  - intros db imported now username equipmentList now' db' H.
    rewrite (H1 _ _ _ _ _ H), H2. unfold configSet.
    rewrite (get_set_other String.eqb string_eqb_eq) by discriminate.
    apply (get_set_same String.eqb string_eqb_eq).
Qed.

Lemma config_markers_witness :
  exists db',
    periodicUpdate
      (importEquipment Examples.usedDb [Examples.importItem] Examples.now)
      Examples.admin Examples.requestReport (lit "2025-02-01T00:00:00.000Z")
    = Ok db'
    /\ Assoc.get String.eqb (app_config db')
                 "hasInitialConsolidationRun"%string = Some (lit "true").
Proof.
  destruct (periodicUpdate
              (importEquipment Examples.usedDb [Examples.importItem]
                               Examples.now)
              Examples.admin Examples.requestReport
              (lit "2025-02-01T00:00:00.000Z"))
    as [db'|] eqn:E; [|vm_compute in E; discriminate E].
  exists db'. split; [reflexivity|].
  exact (proj2 (proj2 config_markers) Examples.usedDb [Examples.importItem]
               Examples.now Examples.admin Examples.requestReport
               (lit "2025-02-01T00:00:00.000Z") db' E).
Defined.

(** *** Running the same request again *)

Lemma reconcileLoop_no_insert (username : value) (m : ExistingMap)
      (l : list jsobj) :
  (forall item k, In item l -> upperOf (prop item "serial") = Ok k ->
                  exists e, Assoc.get str_eqb m k = Some e) ->
  forall plan plan',
    reconcileLoop username m l plan = Ok plan' ->
    Forall (fun st => ~ isInsert st) (statements plan) ->
    Forall (fun st => ~ isInsert st) (statements plan').
Proof.
  induction l as [|a l IH]; intros Hm plan plan' H Hp; simpl in H.
  - injection H as <-. exact Hp.
  - unfold reconcileItem in H.
    destruct (upperOf (prop a "serial")) as [k|] eqn:Ek; simpl in H;
      [|discriminate].
    destruct (newStatusOf a) as [newStatus|]; simpl in H; [|discriminate].
    destruct (Hm a k (or_introl eq_refl) Ek) as [e He]. rewrite He in H.
    apply (IH (fun item k' Hi => Hm item k' (or_intror Hi)) _ plan' H).
    cbn [statements]. destruct (hasChanges _); [|exact Hp].
    apply Forall_app. split; [exact Hp|].
    constructor; [intros [] | constructor].
Qed.

(** What a successful loop tells of its records: each has a string for
    serial and a status that can be derived, and each either met a
    persisted row or left an insert of itself in the plan. *)
Lemma reconcileLoop_covers (persisted : list jsobj) (username : value)
      (m : ExistingMap) (l : list jsobj) :
  mapSound persisted m ->
  forall plan plan',
    reconcileLoop username m l plan = Ok plan' ->
    (forall st, In st (statements plan) -> In st (statements plan'))
    /\ Forall (fun item => stringSerial (prop item "serial")
                           /\ exists newStatus, newStatusOf item = Ok newStatus)
              l
    /\ forall item, In item l ->
         (exists row, In row persisted /\ corresponds row item)
         \/ (exists newStatus equipamento,
                In (Insert (newItemOf item newStatus) equipamento)
                   (statements plan')).
Proof.
  intros Hm. induction l as [|a l IH]; intros plan plan' H; simpl in H.
  - injection H as <-. split; [tauto|]. split; [constructor | intros item []].
  - destruct (reconcileItem username m a plan) as [plan1|] eqn:E1;
      simpl in H; [|discriminate].
    destruct (IH plan1 plan' H) as [Hgrow [Hok Hcov]].
    unfold reconcileItem in E1.
    destruct (upperOf (prop a "serial")) as [k|] eqn:Ek; simpl in E1;
      [|discriminate].
    destruct (newStatusOf a) as [newStatus|] eqn:En; simpl in E1;
      [|discriminate].
    assert (Hstr : stringSerial (prop a "serial")).
    { unfold upperOf in Ek. destruct (prop a "serial") as [| |n|s];
        try discriminate Ek. exists s. reflexivity. }
    destruct (Assoc.get str_eqb m k) as [existing|] eqn:Eg;
      injection E1 as <-; cbn [statements] in *.
    + split; [|split].
      * intros st Hst. apply Hgrow.
        destruct (hasChanges _); [apply in_or_app; left|]; exact Hst.
      * constructor; [|exact Hok]. split; [exact Hstr|].
        exists newStatus. exact En.
      * intros item [<-|Hin]; [|exact (Hcov item Hin)].
        left. destruct (Hm k existing Eg) as [row [Hrow [_ Hkey]]].
        exists row. split; [exact Hrow|]. exists k. split; assumption.
    + split; [|split].
      * intros st Hst. apply Hgrow. apply in_or_app. left. exact Hst.
      * constructor; [|exact Hok]. split; [exact Hstr|].
        exists newStatus. exact En.
      * intros item [<-|Hin]; [|exact (Hcov item Hin)].
        right. exists newStatus, (prop a "equipamento").
        apply Hgrow. apply in_or_app. right. left. reflexivity.
Qed.

Lemma setColumns_written (upd : jsobj) :
  NoDup (Assoc.keys upd) ->
  forall row k v,
    Assoc.get String.eqb upd k = Some v ->
    prop (setColumns row upd) k = toSql v.
Proof.
  induction upd as [|[k1 v1] upd IH]; intros Hnd row k v Hg;
    [discriminate Hg|].
  simpl in Hnd. inversion Hnd as [|? ? Hk1 Hnd']; subst.
  simpl in Hg. change (setColumns row ((k1, v1) :: upd))
    with (setColumns (assign row k1 (toSql v1)) upd).
  destruct (String.eqb k k1) eqn:E.
  - apply String.eqb_eq in E. subst k1. injection Hg as <-.
    rewrite (setColumns_other upd k Hk1). unfold prop, assign.
    rewrite (get_set_same String.eqb string_eqb_eq). reflexivity.
  - apply (IH Hnd' _ k v Hg).
Qed.

Lemma newItemOf_serial (item : jsobj) (newStatus : value) :
  uniqueKeys item ->
  uniqueKeys (newItemOf item newStatus)
  /\ Assoc.get String.eqb (newItemOf item newStatus) "serial"%string
     = Assoc.get String.eqb item "serial"%string.
Proof.
  intros Hu. unfold newItemOf, assign. split.
  - unfold uniqueKeys.
    do 3 apply (set_uniqueKeys String.eqb string_eqb_eq). exact Hu.
  - rewrite !(get_set_other String.eqb string_eqb_eq) by discriminate.
    reflexivity.
Qed.

Lemma insertSet_serial (table : list jsobj) (auto : Z) (newItem : jsobj)
      (s : str) :
  uniqueKeys newItem ->
  Assoc.get String.eqb newItem "serial"%string = Some (VStr s) ->
  exists row,
    fst (fst (insertSet table auto newItem)) = table ++ [row]
    /\ column row "serial" = VStr s.
Proof.
  intros Hu Hs. unfold insertSet. eexists. split; [reflexivity|].
  unfold column, prop, assign.
  rewrite (get_set_other String.eqb string_eqb_eq) by discriminate.
  pose proof (setColumns_written newItem Hu [] "serial"%string (VStr s) Hs) as H.
  unfold prop in H. rewrite H. reflexivity.
Qed.

(** Where the rows of the table come from once the statements have run:
    from a row that was there, with its serial, or from an insert, with
    the serial of the inserted record. *)
Lemma execute_rows (equipmentList : list jsobj) (username : value)
      (sts : list Statement) :
  Forall (touchesOnly equipmentList) sts ->
  Forall (fun st => match st with
                    | Insert newItem _ =>
                        uniqueKeys newItem
                        /\ exists s, Assoc.get String.eqb newItem "serial"%string
                                     = Some (VStr s)
                    | Update _ _ => True
                    end) sts ->
  forall table auto created,
    (forall row', In row' (fst (fst (execute username sts table auto created))) ->
       (exists row, In row table
                    /\ column row' "serial" = column row "serial")
       \/ (exists newItem equipamento s,
              In (Insert newItem equipamento) sts
              /\ Assoc.get String.eqb newItem "serial"%string = Some (VStr s)
              /\ column row' "serial" = VStr s))
    /\ (forall newItem equipamento s,
           In (Insert newItem equipamento) sts ->
           Assoc.get String.eqb newItem "serial"%string = Some (VStr s) ->
           exists row',
             In row' (fst (fst (execute username sts table auto created)))
             /\ column row' "serial" = VStr s)
    /\ (forall row, In row table ->
           exists row',
             In row' (fst (fst (execute username sts table auto created)))
             /\ column row' "serial" = column row "serial").
Proof.
  intros Ht Hi.
  assert (Hold : forall table auto created row, In row table ->
             exists row',
               In row' (fst (fst (execute username sts table auto created)))
               /\ column row' "serial" = column row "serial").
  { intros table auto created row Hin.
    apply In_nth_error in Hin. destruct Hin as [i Hn].
    destruct (execute_columns equipmentList username sts Ht table auto created
                i row Hn) as [row' [Hn' Hc]].
    exists row'. split; [eapply nth_error_In; exact Hn'|].
    apply Hc. left. reflexivity. }
  induction sts as [|st sts IH]; intros table auto created.
  - split; [|split].
    + intros row' Hin. left. exists row'. split; [exact Hin | reflexivity].
    + intros newItem equipamento s [].
    + auto.
  - inversion Ht as [|? ? Ht1 Ht2]; subst.
    inversion Hi as [|? ? Hi1 Hi2]; subst.
    assert (Hold' : forall table auto created row, In row table ->
               exists row',
                 In row' (fst (fst (execute username sts table auto created)))
                 /\ column row' "serial" = column row "serial").
    { intros t a c row Hin.
      apply In_nth_error in Hin. destruct Hin as [i Hn].
      destruct (execute_columns equipmentList username sts Ht2 t a c
                  i row Hn) as [row' [Hn' Hc]].
      exists row'. split; [eapply nth_error_In; exact Hn'|].
      apply Hc. left. reflexivity. }
    specialize (IH Ht2 Hi2 Hold').
    split; [|split; [|apply Hold]].
    + destruct st as [upd id|newItem equipamento]; cbn [execute].
      * intros row' Hin.
        destruct (proj1 (IH (updateWhereId table upd id) auto created) row' Hin)
          as [[row [Hrow Hc]]|[newItem [eq [s [Hst [Hg Hc]]]]]].
        -- left. unfold updateWhereId in Hrow. apply in_map_iff in Hrow.
           destruct Hrow as [row0 [<- Hrow0]]. exists row0.
           split; [exact Hrow0|]. rewrite Hc.
           destruct (sqlEq (column row0 "id") id); [|reflexivity].
           unfold column. rewrite setColumns_other; [reflexivity|].
           apply (update_spares_column equipmentList upd id "serial"%string Ht1).
           left. reflexivity.
        -- right. exists newItem, eq, s. split; [right; exact Hst|].
           split; assumption.
      * intros row' Hin. destruct Hi1 as [Hu [s Hs]].
        destruct (insertSet_serial table auto newItem s Hu Hs)
          as [row [Hrows Hser]].
        destruct (insertSet table auto newItem) as [[t1 a1] id1].
        cbn [fst] in Hrows. subst t1.
        destruct (proj1 (IH (table ++ [row]) a1
                    (created ++
                       [ {| equipment_id := VNum id1; changedBy := username;
                            changeType := "CREATE"; from_value := VNull;
                            to_value := equipamento |} ])) row' Hin)
          as [[row0 [Hrow0 Hc]]|[newItem' [eq [s' [Hst [Hg Hc]]]]]].
        -- apply in_app_or in Hrow0. destruct Hrow0 as [Hrow0|[<-|[]]].
           ++ left. exists row0. split; assumption.
           ++ right. exists newItem, equipamento, s.
              split; [left; reflexivity|]. split; [exact Hs|].
              rewrite Hc. exact Hser.
        -- right. exists newItem', eq, s'. split; [right; exact Hst|].
           split; assumption.
    + intros newItem equipamento s Hin Hg.
      destruct st as [upd id|newItem0 equipamento0]; cbn [execute].
      * destruct Hin as [Hin|Hin]; [discriminate Hin|].
        exact (proj1 (proj2 (IH (updateWhereId table upd id) auto created))
                 newItem equipamento s Hin Hg).
      * destruct Hi1 as [Hu [s0 Hs0]].
        destruct (insertSet_serial table auto newItem0 s0 Hu Hs0)
          as [row [Hrows Hser]].
        destruct (insertSet table auto newItem0) as [[t1 a1] id1].
        cbn [fst] in Hrows. subst t1.
        destruct Hin as [Hin|Hin].
        -- injection Hin as -> ->. rewrite Hg in Hs0. injection Hs0 as <-.
           destruct (Hold' (table ++ [row]) a1
                      (created ++
                         [ {| equipment_id := VNum id1; changedBy := username;
                              changeType := "CREATE"; from_value := VNull;
                              to_value := equipamento |} ]) row)
             as [row' [Hin' Hc]]; [apply in_or_app; right; left; reflexivity|].
           exists row'. split; [exact Hin'|]. rewrite Hc. exact Hser.
        -- exact (proj1 (proj2 (IH (table ++ [row]) a1 _))
                    newItem equipamento s Hin Hg).
Qed.

Lemma prop_string_get (o : jsobj) (k : string) (s : str) :
  prop o k = VStr s -> Assoc.get String.eqb o k = Some (VStr s).
Proof.
  unfold prop. destruct (Assoc.get String.eqb o k) as [v|];
    [intros ->; reflexivity | discriminate].
Qed.

Lemma reconcileLoop_insert_shape (username : value) (m : ExistingMap)
      (l : list jsobj) :
  Forall uniqueKeys l ->
  forall plan plan',
    reconcileLoop username m l plan = Ok plan' ->
    Forall (fun st => match st with
                      | Insert newItem _ =>
                          uniqueKeys newItem
                          /\ exists s, Assoc.get String.eqb newItem
                                                 "serial"%string
                                       = Some (VStr s)
                      | Update _ _ => True
                      end) (statements plan) ->
    Forall (fun st => match st with
                      | Insert newItem _ =>
                          uniqueKeys newItem
                          /\ exists s, Assoc.get String.eqb newItem
                                                 "serial"%string
                                       = Some (VStr s)
                      | Update _ _ => True
                      end) (statements plan').
Proof.
  induction 1 as [|a l Hu _ IH]; intros plan plan' H Hp; simpl in H.
  - injection H as <-. exact Hp.
  - unfold reconcileItem in H.
    destruct (upperOf (prop a "serial")) as [k|] eqn:Ek; simpl in H;
      [|discriminate].
    destruct (newStatusOf a) as [newStatus|]; simpl in H; [|discriminate].
    destruct (Assoc.get str_eqb m k) as [existing|];
      apply (IH _ plan' H); cbn [statements].
    + destruct (hasChanges _); [|exact Hp].
      apply Forall_app. split; [exact Hp|]. constructor; [exact I|constructor].
    + apply Forall_app. split; [exact Hp|]. constructor; [|constructor].
      destruct (newItemOf_serial a newStatus Hu) as [Hu' Hs].
      split; [exact Hu'|]. rewrite Hs.
      unfold upperOf in Ek. destruct (prop a "serial") as [| |n|s] eqn:Ep;
        try discriminate Ek.
      exists s. apply prop_string_get. exact Ep.
Qed.

(** X16.  After a successful periodic update whose records are keyed by
    column names, every record of the request has a counterpart in the
    store, so that the same request, sent again, is accepted and inserts
    no row: whatever the second run still writes, it writes as updates.
    (The records are objects: each key once.) *)
Theorem second_run_inserts_nothing :
  forall (db : Db) (username : value) (equipmentList : list jsobj)
         (now : str) (db' : Db),
    Forall uniqueKeys equipmentList ->
    Forall namesColumns equipmentList ->
    periodicUpdate db username equipmentList now = Ok db' ->
    (forall item, In item equipmentList ->
                  exists row, In row (equipment db') /\ corresponds row item)
    /\ exists sts,
        runStatements db' username equipmentList = Ok sts
        /\ Forall (fun st => ~ isInsert st) sts.
Proof.
  intros db username equipmentList now db' Hu _ H.
  unfold periodicUpdate in H.
  destruct (reconcile (equipment db) username equipmentList) as [plan|] eqn:Ep;
    simpl in H; [|discriminate].
  pose proof (reconcile_touches _ _ _ _ Ep) as Htouch.
  unfold reconcile in Ep.
  destruct (buildMap (map selectRow (equipment db)) []) as [m|] eqn:Em;
    simpl in Ep; [|discriminate].
  pose proof (buildMap_sound (equipment db) (equipment db) [] m
                (incl_refl _) Em (fun k e Hg => ltac:(discriminate Hg)))
    as Hsound.
  destruct (buildMap_complete (equipment db) [] m Em) as [_ [_ Hstr]].
  destruct (reconcileLoop_covers (equipment db) username m equipmentList
              Hsound _ plan Ep) as [_ [Hok Hcov]].
  pose proof (reconcileLoop_insert_shape username m equipmentList Hu _ plan Ep
                (Forall_nil _)) as Hshape.
  destruct (execute_rows equipmentList username (statements plan) Htouch Hshape
              (equipment db) (auto_increment db) [])
    as [Horigin [Hinserted Hkept]].
  destruct (execute username (statements plan) (equipment db)
              (auto_increment db) []) as [[table auto] created].
  injection H as <-. cbn [equipment fst] in *.
  assert (Hcounter : forall item, In item equipmentList ->
                       exists row, In row table /\ corresponds row item).
  { intros item Hin. destruct (Hcov item Hin)
      as [[row [Hrow [key [Hk1 Hk2]]]]|[newStatus [eq Hst]]].
    - destruct (Hkept row Hrow) as [row' [Hin' Hc]].
      exists row'. split; [exact Hin'|]. exists key. rewrite Hc.
      split; assumption.
    - rewrite Forall_forall in Hok. destruct (Hok item Hin) as [[s Hs] _].
      rewrite Forall_forall in Hu.
      destruct (newItemOf_serial item newStatus (Hu item Hin)) as [_ Hg].
      destruct (Hinserted _ eq s Hst) as [row' [Hin' Hc]].
      { rewrite Hg. apply prop_string_get. exact Hs. }
      exists row'. split; [exact Hin'|]. exists (toUpperCase s).
      rewrite Hc, Hs. split; reflexivity. }
  split; [exact Hcounter|].
  assert (Hstr' : Forall (fun row => stringSerial (column row "serial")) table).
  { apply Forall_forall. intros row' Hin.
    destruct (Horigin row' Hin)
      as [[row [Hrow Hc]]|[newItem [eq [s [_ [_ Hc]]]]]].
    - rewrite Hc. rewrite Forall_forall in Hstr. exact (Hstr row Hrow).
    - exists s. exact Hc. }
  destruct (buildMap_returns table Hstr' []) as [m2 Hm2].
  destruct (buildMap_complete table [] m2 Hm2) as [_ [Hrows _]].
  destruct (reconcileLoop_returns username m2 equipmentList Hok
              {| statements := []; historyEntries := [] |}) as [plan2 Hp2].
  exists (statements plan2). unfold runStatements, reconcile.
  cbn [equipment]. rewrite Hm2. simpl. rewrite Hp2. simpl.
  split; [reflexivity|].
  apply (reconcileLoop_no_insert username m2 equipmentList) with
    (plan := {| statements := []; historyEntries := [] |}) (plan' := plan2);
    [|exact Hp2|constructor].
  intros item k Hin Hk.
  destruct (Hcounter item Hin) as [row [Hrow [key [Hk1 Hk2]]]].
  rewrite Hk in Hk2. injection Hk2 as <-.
  exact (Hrows row k Hrow Hk1).
Qed.

Lemma second_run_inserts_nothing_witness :
  exists db1 sts,
    periodicUpdate Examples.emptyDb Examples.admin Examples.requestReport
                   Examples.now = Ok db1
    /\ runStatements db1 Examples.admin Examples.requestReport = Ok sts
    /\ Forall (fun st => ~ isInsert st) sts.
Proof.
  assert (Hu : Forall uniqueKeys Examples.requestReport).
  { repeat constructor; simpl; intuition discriminate. }
  assert (Hk : Forall namesColumns Examples.requestReport).
  { constructor; [|constructor].
    intros k [<-|[<-|[<-|[]]]]; unfold equipmentColumns; simpl; tauto. }
  destruct (periodicUpdate Examples.emptyDb Examples.admin
              Examples.requestReport Examples.now) as [db1|] eqn:E;
    [|vm_compute in E; discriminate E].
  destruct (proj2 (second_run_inserts_nothing Examples.emptyDb Examples.admin
                     Examples.requestReport Examples.now db1 Hu Hk E))
    as [sts [Hs Hn]].
  exists db1, sts. split; [reflexivity|]. split; assumption.
Defined.

(** *** What the import does not keep *)

Lemma importRows_rows (equipmentList : list jsobj) (row : jsobj) :
  forall id,
    In row (importRows id equipmentList) ->
    exists id' item, In item equipmentList /\ row = importRow id' item.
Proof.
  induction equipmentList as [|a rest IH]; intros id Hin; [destruct Hin|].
  destruct Hin as [<-|Hin].
  - exists id, a. split; [left; reflexivity | reflexivity].
  - destruct (IH _ Hin) as [id' [item [Hi Hr]]].
    exists id', item. split; [right; exact Hi | exact Hr].
Qed.

(** X17.  Eight fields the base sheet is parsed for (warranty, previous
    user, return date, the notes, the term, photo and QR code) are not
    among the columns of the INSERT statement of the import: whatever a
    record holds for them, the row written holds NULL there, and the
    import loses them. *)
Theorem import_drops_other_fields :
  forall (db : Db) (equipmentList : list jsobj) (now : str) (row : jsobj),
    In row (equipment (importEquipment db equipmentList now)) ->
    forall c, In c notImported ->
              (exists cell, In (cell, c) baseMappings)
              /\ In c equipmentColumns
              /\ column row c = VNull.
Proof.
  intros db equipmentList now row Hin.
  rewrite importEquipment_rows in Hin.
  destruct (importRows_rows equipmentList row 1 Hin) as [id [item [_ ->]]].
  intros c Hc. unfold notImported in Hc. simpl in Hc.
  repeat (destruct Hc as [<-|Hc];
          [split; [eexists; unfold baseMappings; simpl; eauto 30|];
           split; [unfold equipmentColumns; simpl; tauto | reflexivity]|]).
  destruct Hc.
Qed.

Lemma import_drops_other_fields_witness :
  exists row,
    In row (equipment (importEquipment Examples.usedDb [Examples.importItem]
                                       Examples.now))
    /\ prop Examples.importItem "garantia" = VStr (lit "2026")
    /\ column row "garantia" = VNull.
Proof.
  assert (H : In (importRow 1 Examples.importItem)
                 (equipment (importEquipment Examples.usedDb
                               [Examples.importItem] Examples.now)))
    by (left; reflexivity).
  exists (importRow 1 Examples.importItem).
  split; [exact H|]. split; [reflexivity|].
  apply (import_drops_other_fields _ _ _ _ H "garantia"%string).
  simpl. tauto.
Defined.

(** *** White space around the file *)

Lemma trimStart_blank (pre s : str) :
  Forall (fun c => isWhiteSpace c = true) pre ->
  trimStart (pre ++ s) = trimStart s.
Proof.
  induction 1 as [|c pre Hc _ IH]; [reflexivity|].
  simpl. rewrite Hc. exact IH.
Qed.

Lemma trimStart_keeps (s post : str) (c : N) (r : str) :
  trimStart s = c :: r -> trimStart (s ++ post) = c :: r ++ post.
Proof.
  induction s as [|a s IH]; simpl; [discriminate|].
  destruct (isWhiteSpace a); [exact IH|].
  intros H. injection H as -> ->. reflexivity.
Qed.

Lemma trimEnd_blank (s post : str) :
  Forall (fun c => isWhiteSpace c = true) post ->
  trimEnd (s ++ post) = trimEnd s.
Proof.
  intros H. unfold trimEnd. rewrite rev_app_distr, trimStart_blank;
    [reflexivity|].
  apply Forall_rev. exact H.
Qed.

Lemma trim_surrounded (pre s post : str) :
  Forall (fun c => isWhiteSpace c = true) pre ->
  Forall (fun c => isWhiteSpace c = true) post ->
  trim (pre ++ s ++ post) = trim s.
Proof.
  intros Hpre Hpost. unfold trim. rewrite (trimStart_blank pre _ Hpre).
  destruct (trimStart_cases s) as [E|[c [r [E Hc]]]].
  - assert (Hs : Forall (fun c => isWhiteSpace c = true) s).
    { clear -E. induction s as [|a s IH]; [constructor|].
      simpl in E. destruct (isWhiteSpace a) eqn:Ea; [|discriminate E].
      constructor; [exact Ea | apply IH; exact E]. }
    rewrite (trimStart_blank s post Hs), E.
    assert (Hp : trimStart post = []).
    { clear -Hpost. induction Hpost as [|c post Hc _ IH]; [reflexivity|].
      simpl. rewrite Hc. exact IH. }
    rewrite Hp. reflexivity.
  - rewrite (trimStart_keeps s post c r E), E.
    change (c :: r ++ post) with ((c :: r) ++ post).
    apply trimEnd_blank. exact Hpost.
Qed.

(** X18.  White space around the text of a file does not change what
    [parseCsv] makes of it: a byte order mark or blank lines in front,
    line breaks or blanks behind, give the same records or the same
    exception. *)
Theorem parseCsv_ignores_surrounding_space :
  forall (pre fileText post : str) (mappings : Mappings),
    Forall (fun c => isWhiteSpace c = true) pre ->
    Forall (fun c => isWhiteSpace c = true) post ->
    parseCsv (pre ++ fileText ++ post) mappings = parseCsv fileText mappings.
Proof.
  intros pre fileText post mappings Hpre Hpost. unfold parseCsv.
  rewrite (trim_surrounded pre fileText post Hpre Hpost). reflexivity.
Qed.

Lemma parseCsv_ignores_surrounding_space_witness :
  parseCsv ([65279%N] ++ Examples.absoluteReport ++ [CR; LF; LF])
           absoluteMappings
  = parseCsv Examples.absoluteReport absoluteMappings.
Proof.
  apply parseCsv_ignores_surrounding_space;
    repeat constructor.
Defined.

(** *** The rows the history refers to *)

Lemma column_toSql (row : jsobj) (c : string) :
  toSql (column row c) = column row c.
Proof. unfold column. apply toSql_idempotent. Qed.

Lemma stageExisting_ids (username : value) (item existing : jsobj)
      (newStatus : value) (e : HistoryEntry) :
  In e (pushed (stageExisting username item existing newStatus)) ->
  equipment_id e = prop existing "id".
Proof.
  unfold stageExisting, checkStatus.
  assert (Hc : forall e0,
             In e0 (pushed (compareKeys username item existing
                                        (Assoc.keys item) nothingStaged)) ->
             equipment_id e0 = prop existing "id").
  { intros e0. rewrite compareKeys_pushed. cbn [pushed nothingStaged app].
    intros H. apply in_map_iff in H. destruct H as [k [<- _]]. reflexivity. }
  fold nothingStaged.
  destruct (negb (strictEq newStatus (prop existing "status")));
    [|apply Hc].
  cbn [pushed]. destruct (negb (hasChanges _)); [|apply Hc].
  intros H. apply in_app_or in H. destruct H as [H|[<-|[]]];
    [apply Hc; exact H | reflexivity].
Qed.

Lemma reconcileLoop_history_ids (persisted : list jsobj) (username : value)
      (m : ExistingMap) (l : list jsobj) :
  mapSound persisted m ->
  forall plan plan',
    reconcileLoop username m l plan = Ok plan' ->
    Forall (fun e => exists row, In row persisted
                                 /\ equipment_id e = column row "id")
           (historyEntries plan) ->
    Forall (fun e => exists row, In row persisted
                                 /\ equipment_id e = column row "id")
           (historyEntries plan').
Proof.
  intros Hm. induction l as [|a l IH]; intros plan plan' H Hp; simpl in H.
  - injection H as <-. exact Hp.
  - unfold reconcileItem in H.
    destruct (upperOf (prop a "serial")) as [k|]; simpl in H; [|discriminate].
    destruct (newStatusOf a) as [newStatus|]; simpl in H; [|discriminate].
    destruct (Assoc.get str_eqb m k) as [existing|] eqn:Eg;
      apply (IH _ plan' H); cbn [historyEntries]; [|exact Hp].
    apply Forall_app. split; [exact Hp|].
    apply Forall_forall. intros e He.
    destruct (Hm k existing Eg) as [row [Hrow [-> _]]].
    exists row. split; [exact Hrow|].
    rewrite (stageExisting_ids _ _ _ _ e He). reflexivity.
Qed.

Lemma execute_created_ids (equipmentList : list jsobj) (username : value)
      (sts : list Statement) :
  Forall (touchesOnly equipmentList) sts ->
  untouched equipmentList "id" ->
  forall table auto created e,
    In e (snd (execute username sts table auto created)) ->
    In e created
    \/ exists row,
        In row (fst (fst (execute username sts table auto created)))
        /\ column row "id" = equipment_id e.
Proof.
  intros Ht Hid. induction sts as [|st sts IH]; intros table auto created e He.
  - left. exact He.
  - inversion Ht as [|? ? Ht1 Ht2]; subst.
    destruct st as [upd id|newItem equipamento]; cbn [execute] in *.
    + exact (IH Ht2 _ _ _ e He).
    + unfold insertSet in *.
      match type of He with
      | In e (snd (execute username sts (table ++ [?r]) ?a (created ++ [?c]))) =>
          set (row := r) in *; set (auto' := a) in *; set (entry := c) in *
      end.
      destruct (IH Ht2 (table ++ [row]) auto' (created ++ [entry]) e He)
        as [Hin|Hrow]; [|right; exact Hrow].
      apply in_app_or in Hin. destruct Hin as [Hin|[<-|[]]];
        [left; exact Hin|].
      right.
      destruct (execute_columns equipmentList username sts Ht2
                  (table ++ [row]) auto' (created ++ [entry])
                  (List.length table) row) as [row' [Hn Hc]].
      { rewrite nth_error_app2, Nat.sub_diag by apply le_n. reflexivity. }
      exists row'. split; [eapply nth_error_In; exact Hn|].
      rewrite (Hc "id"%string Hid). subst row entry. cbn [equipment_id].
      unfold column, prop, assign.
      rewrite (get_set_same String.eqb string_eqb_eq). reflexivity.
Qed.

(** X19.  When the records of the request name no identifier, every
    history entry a successful periodic update adds carries the
    identifier of a row of the store it commits: the row it compared or
    the row it inserted.  Entries that were there before stay. *)
Theorem history_refers_to_rows :
  forall (db : Db) (username : value) (equipmentList : list jsobj)
         (now : str) (db' : Db),
    Forall noId equipmentList ->
    periodicUpdate db username equipmentList now = Ok db' ->
    exists added,
      equipment_history db' = equipment_history db ++ added
      /\ forall e, In e added ->
                   exists row, In row (equipment db')
                               /\ column row "id" = equipment_id e.
Proof.
  intros db username equipmentList now db' Hno H.
  assert (Hid : untouched equipmentList "id").
  { right. split; [discriminate|]. rewrite Forall_forall in Hno. exact Hno. }
  unfold periodicUpdate in H.
  destruct (reconcile (equipment db) username equipmentList) as [plan|] eqn:Ep;
    simpl in H; [|discriminate].
  pose proof (reconcile_touches _ _ _ _ Ep) as Htouch.
  unfold reconcile in Ep.
  destruct (buildMap (map selectRow (equipment db)) []) as [m|] eqn:Em;
    simpl in Ep; [|discriminate].
  pose proof (buildMap_sound (equipment db) (equipment db) [] m
                (incl_refl _) Em (fun k e Hg => ltac:(discriminate Hg)))
    as Hsound.
  pose proof (reconcileLoop_history_ids (equipment db) username m
                equipmentList Hsound _ plan Ep (Forall_nil _)) as Hsync.
  pose proof (execute_created_ids equipmentList username (statements plan)
                Htouch Hid (equipment db) (auto_increment db) []) as Hcreated.
  pose proof (execute_columns equipmentList username (statements plan) Htouch
                (equipment db) (auto_increment db) []) as Hcols.
  destruct (execute username (statements plan) (equipment db)
              (auto_increment db) []) as [[table auto] created].
  injection H as <-. cbn [equipment equipment_history fst snd] in *.
  eexists. split; [reflexivity|].
  intros e He. apply in_map_iff in He. destruct He as [e0 [<- He0]].
  cbn [historyRow equipment_id].
  apply in_app_or in He0. destruct He0 as [He0|He0].
  - rewrite Forall_forall in Hsync.
    destruct (Hsync e0 He0) as [row [Hrow Hrid]].
    apply In_nth_error in Hrow. destruct Hrow as [i Hn].
    destruct (Hcols i row Hn) as [row' [Hn' Hc]].
    exists row'. split; [eapply nth_error_In; exact Hn'|].
    rewrite (Hc "id"%string Hid), Hrid, column_toSql. reflexivity.
  - destruct (Hcreated e0 He0) as [[]|[row [Hrow Hrid]]].
    exists row. split; [exact Hrow|].
    rewrite <- Hrid, column_toSql. reflexivity.
Qed.

Lemma history_refers_to_rows_witness :
  exists db' added,
    periodicUpdate Examples.dbBob Examples.admin
      (Examples.requestNoUser ++ Examples.requestUnspaced) Examples.now
    = Ok db'
    /\ equipment_history db' = equipment_history Examples.dbBob ++ added
    /\ forall e, In e added ->
                 exists row, In row (equipment db')
                             /\ column row "id" = equipment_id e.
Proof.
  assert (Hno : Forall noId (Examples.requestNoUser ++ Examples.requestUnspaced)).
  { repeat constructor; unfold noId; simpl; intuition discriminate. }
  destruct (periodicUpdate Examples.dbBob Examples.admin
              (Examples.requestNoUser ++ Examples.requestUnspaced)
              Examples.now) as [db'|] eqn:E;
    [|vm_compute in E; discriminate E].
  destruct (history_refers_to_rows Examples.dbBob Examples.admin
              (Examples.requestNoUser ++ Examples.requestUnspaced)
              Examples.now db' Hno E) as [added [Ha Hr]].
  exists db', added. split; [reflexivity|]. split; assumption.
Defined.

(** *** The two derivations of the status *)

(** X20.  On a record the front end sends, the periodic update derives
    Em Uso exactly when consolidation would set it: the two components
    agree on which records have an occupant, and the route gives
    Estoque to all the others. *)
Theorem derivations_agree :
  forall record : PartialEquipment,
    newStatusOf (map (fun kv => (fst kv, VStr (snd kv))) record)
    = Ok (VStr (if hasCurrentUser record then emUso else estoque))
    /\ (hasCurrentUser record = true ->
        field_get (deriveStatus record) "status" = Some emUso)
    /\ forall data, In record data ->
         exists item, In item (toBody data)
                      /\ newStatusOf item
                         = Ok (VStr (if hasCurrentUser record
                                     then emUso else estoque)).
Proof.
  intros record.
  assert (H : newStatusOf (map (fun kv => (fst kv, VStr (snd kv))) record)
              = Ok (VStr (if hasCurrentUser record then emUso else estoque))).
  { unfold newStatusOf, hasCurrentUser. rewrite prop_toBody.
    destruct (field_get record "usuarioAtual") as [u|]; [|reflexivity].
    simpl. destruct u as [|c u]; [reflexivity|]. simpl.
    destruct (isEmpty (trim (c :: u))); reflexivity. }
  split; [exact H|]. split.
  - intros Hc. unfold deriveStatus. rewrite Hc. unfold field_get, field_set.
    apply (get_set_same String.eqb string_eqb_eq).
  - intros data Hin. eexists. split; [|exact H].
    unfold toBody. apply in_map. exact Hin.
Qed.

Lemma derivations_agree_witness :
  hasCurrentUser Examples.absoluteRecord = true
  /\ field_get (deriveStatus Examples.absoluteRecord) "status" = Some emUso.
Proof.
  assert (H : hasCurrentUser Examples.absoluteRecord = true)
    by (vm_compute; reflexivity).
  split; [exact H|].
  exact (proj1 (proj2 (derivations_agree Examples.absoluteRecord)) H).
Defined.
